(** * izotest: the state synchronisation of [src/prueba2/App.js]

    A shallow embedding of the [App] component's asynchronous handlers
    ([fetchTasks], [handleAddTask], [handleToggleComplete], [fetchUsers],
    [handleCreateUser]) over a small model of the JavaScript heap, of the
    React state cells of the component and of the effects the handlers
    perform (network requests, [alert], [console.error]). *)

From Stdlib Require Import ZArith Lia.
From stdpp Require Import base list strings relations.

Open Scope string_scope.
Open Scope list_scope.
Set Warnings "-register-all".
Set Default Proof Using "Type".

(** ** JavaScript values and the heap *)

(** Heap addresses. *)
Abbreviation loc := nat.

(** A JavaScript value.  Numbers are the integers (the identifiers and
    status codes the program handles); [NaN] does not occur, since no value
    of this program is computed arithmetically and JSON cannot carry it. *)
Inductive value : Type :=
| VUndefined
| VNull
| VBool (b : bool)
| VNumber (n : Z)
| VString (s : string)
| VRef (l : loc).

(** A heap cell: a plain object with its own properties in definition order,
    or an array. *)
Inductive object : Type :=
| Obj (props : list (string * value))
| Arr (elems : list value).

Abbreviation heap := (list object).

(** A JSON text, as sent in a request body or received in a response. *)
Inductive json : Type :=
| JNull
| JBool (b : bool)
| JNumber (n : Z)
| JString (s : string)
| JArray (items : list json)
| JObject (members : list (string * json)).

(** Induction on JSON texts, with the items and members as hypotheses. *)
Section json_induction.
Variable P : json -> Prop.
Hypothesis Hnull : P JNull.
Hypothesis Hbool : forall b, P (JBool b).
Hypothesis Hnumber : forall n, P (JNumber n).
Hypothesis Hstring : forall s, P (JString s).
Hypothesis Harray : forall items, Forall P items -> P (JArray items).
Hypothesis Hobject :
  forall members, Forall (fun m => P m.2) members -> P (JObject members).

Fixpoint json_nested_ind (j : json) : P j :=
  match j with
  | JNull => Hnull
  | JBool b => Hbool b
  | JNumber n => Hnumber n
  | JString s => Hstring s
  | JArray items =>
      Harray items
        ((fix go (js : list json) : Forall P js :=
            match js with
            | [] => Forall_nil_2 P
            | j :: js' => Forall_cons_2 P j js' (json_nested_ind j) (go js')
            end) items)
  | JObject members =>
      Hobject members
        ((fix go (ms : list (string * json)) : Forall (fun m => P m.2) ms :=
            match ms with
            | [] => Forall_nil_2 _
            | m :: ms' =>
                Forall_cons_2 (fun m => P m.2) m ms' (json_nested_ind m.2) (go ms')
            end) members)
  end.
End json_induction.

(** [a === b]: same type and same value; objects by reference. *)
Definition strict_eq (a b : value) : bool :=
  match a, b with
  | VUndefined, VUndefined => true
  | VNull, VNull => true
  | VBool x, VBool y => Bool.eqb x y
  | VNumber x, VNumber y => Z.eqb x y
  | VString x, VString y => String.eqb x y
  | VRef x, VRef y => Nat.eqb x y
  | _, _ => false
  end.

(** ToBoolean. *)
Definition truthy (v : value) : bool :=
  match v with
  | VUndefined | VNull => false
  | VBool b => b
  | VNumber n => negb (Z.eqb n 0)
  | VString s => negb (String.eqb s "")
  | VRef _ => true
  end.

(** [a || b] on values. *)
Definition js_or (a b : value) : value := if truthy a then a else b.

Fixpoint assoc (k : string) (ps : list (string * value)) : option value :=
  match ps with
  | [] => None
  | (k', v) :: ps' => if String.eqb k k' then Some v else assoc k ps'
  end.

(** Defining property [k]: an existing property keeps its place and takes
    the new value, a new one goes last. *)
Fixpoint set_prop (k : string) (v : value) (ps : list (string * value))
  : list (string * value) :=
  match ps with
  | [] => [(k, v)]
  | (k', v') :: ps' =>
      if String.eqb k k' then (k, v) :: ps' else (k', v') :: set_prop k v ps'
  end.

Section parse_children.
Variable parse : json -> heap -> value * heap.

(** The items of an array, left to right. *)
Fixpoint parse_items (js : list json) (h : heap) : list value * heap :=
  match js with
  | [] => ([], h)
  | j :: js' =>
      let '(v, h1) := parse j h in
      let '(vs, h2) := parse_items js' h1 in
      (v :: vs, h2)
  end.

(** The members of an object, left to right; a repeated name keeps the
    last value. *)
Fixpoint parse_members (ms : list (string * json)) (ps : list (string * value))
         (h : heap) : list (string * value) * heap :=
  match ms with
  | [] => (ps, h)
  | (k, j) :: ms' =>
      let '(v, h1) := parse j h in
      parse_members ms' (set_prop k v ps) h1
  end.
End parse_children.

(** [JSON.parse]: every array and object of the text becomes a fresh heap
    cell, allocated at the end of the heap, children before their parent.
    A number is kept as the integer of the text and the properties of an
    object are in the order of the text; [JSON.parse] rounds a number to a
    double and lists the properties named by an array index first, so the
    two agree to the letter on the texts that are [exact] below. *)
Fixpoint parse (j : json) (h : heap) : value * heap :=
  match j with
  | JNull => (VNull, h)
  | JBool b => (VBool b, h)
  | JNumber n => (VNumber n, h)
  | JString s => (VString s, h)
  | JArray items =>
      let '(vs, h') := parse_items parse items h in
      (VRef (List.length h'), h' ++ [Arr vs])
  | JObject members =>
      let '(ps, h') := parse_members parse members [] h in
      (VRef (List.length h'), h' ++ [Obj ps])
  end.

(** Reading a value back as JSON, to a given depth (a heap may be cyclic;
    what [parse] builds is not). *)
Fixpoint reify (depth : nat) (h : heap) (v : value) : option json :=
  match v with
  | VUndefined => None
  | VNull => Some JNull
  | VBool b => Some (JBool b)
  | VNumber n => Some (JNumber n)
  | VString s => Some (JString s)
  | VRef l =>
      match depth with
      | O => None
      | S d =>
          match h !! l with
          | Some (Arr es) => JArray <$> mapM (reify d h) es
          | Some (Obj ps) =>
              JObject <$> mapM (fun p => pair p.1 <$> reify d h p.2) ps
          | None => None
          end
      end
  end.

(** ** Strings: [String.prototype.trim] *)

(** White space and line terminators among the code units below 256:
    TAB, LF, VT, FF, CR, SPACE and NBSP.  A string here is a sequence of
    code units below 256; the other characters that [trim] strips (U+1680,
    U+2000 to U+200A, U+2028, U+2029, U+202F, U+205F, U+3000 and U+FEFF)
    are above that range and in no string of this development. *)
Definition is_white_space (c : Ascii.ascii) : bool :=
  match Ascii.N_of_ascii c with
  | 9 | 10 | 11 | 12 | 13 | 32 | 160 => true
  | _ => false
  end%N.

Fixpoint trim_start (s : string) : string :=
  match s with
  | EmptyString => EmptyString
  | String c s' => if is_white_space c then trim_start s' else s
  end.

Fixpoint trim_end (s : string) : string :=
  match s with
  | EmptyString => EmptyString
  | String c s' =>
      match trim_end s' with
      | EmptyString => if is_white_space c then EmptyString else String c EmptyString
      | t => String c t
      end
  end.

Definition trim (s : string) : string := trim_end (trim_start s).

(** [!s] on a string: only the empty string is falsy. *)
Definition is_empty (s : string) : bool := String.eqb s "".

(** ** The component's state, the network and the effects *)

(** The [useState] cells of [App]. *)
Record State : Type := mkState {
  tasks : value;
  newTaskDescription : string;
  taskLoading : bool;
  users : value;
  newUsername : string;
  newUserEmail : string;
  newUserPassword : string;
  userLoading : bool;
  currentView : string
}.

Inductive method : Type := GET | POST | PUT.

(** The three addresses under [API_BASE_URL]; [url_task taskId] is
    [`${API_BASE_URL}/tasks/${taskId}`]. *)
Inductive url : Type :=
| url_tasks
| url_task (taskId : value)
| url_users.

(** What an [await]ed [fetch] settles to.  [body = None] is a body that is
    not JSON, on which [response.json()] rejects. *)
Record response : Type := mkResponse {
  ok : bool;
  status : Z;
  statusText : string;
  body : option json
}.

Inductive outcome : Type :=
| Rejected
| Resolved (r : response).

(** What is thrown: by [fetch], by the handlers on a status that is not a
    success, by [response.json()], by the language on a bad access, and by
    React on a child it cannot show. *)
Inductive exn : Type :=
| NetworkError
| HttpError (status : Z)
| SyntaxError
| TypeError
| ChildError.

(** Second argument of a [console.error]. *)
Inductive detail : Type :=
| OfExn (e : exn)
| OfValue (v : value).

(** The observable effects, in program order.  [Alert msg v] is an [alert]
    of [msg] followed by the template substitution [v], when there is one. *)
Inductive event : Type :=
| Fetch (m : method) (u : url) (req : option json)
| Alert (msg : string) (v : option value)
| ConsoleError (msg : string) (d : detail)
| RenderError (e : exn).

Record World : Type := mkWorld {
  mem : heap;
  st : State;
  log : list event
}.

(** ** Handler code: state passing with exceptions *)

Inductive result (A : Type) : Type :=
| Normal (a : A)
| Thrown (e : exn).
Arguments Normal {A} a.
Arguments Thrown {A} e.

Definition M (A : Type) : Type := World -> World * result A.

Definition ret {A} (a : A) : M A := fun w => (w, Normal a).

Definition throw {A} (e : exn) : M A := fun w => (w, Thrown e).

Definition bind {A B} (m : M A) (k : A -> M B) : M B :=
  fun w =>
    match m w with
    | (w', Normal a) => k a w'
    | (w', Thrown e) => (w', Thrown e)
    end.

Notation "'let*' x ':=' m 'in' k" := (bind m (fun x => k))
  (at level 10, x name, m at level 100, k at level 200).
Notation "m ';;' k" := (bind m (fun _ => k))
  (at level 100, k at level 200, right associativity).

(** [try { m } catch (error) { h error }] *)
Definition try_catch {A} (m : M A) (h : exn -> M A) : M A :=
  fun w =>
    match m w with
    | (w', Normal a) => (w', Normal a)
    | (w', Thrown e) => h e w'
    end.

(** [try { m } finally { f }] *)
Definition finally {A} (m : M A) (f : M unit) : M A :=
  fun w =>
    let '(w1, r) := m w in
    match f w1 with
    | (w2, Normal _) => (w2, r)
    | (w2, Thrown e) => (w2, Thrown e)
    end.

(** The world a handler leaves behind. *)
Definition exec {A} (m : M A) (w : World) : World := (m w).1.

Definition emit (e : event) : M unit :=
  fun w => (mkWorld (mem w) (st w) (log w ++ [e]), Normal tt).

Definition alert (msg : string) : M unit := emit (Alert msg None).

Definition alert_with (msg : string) (v : value) : M unit :=
  emit (Alert msg (Some v)).

Definition console_error (msg : string) (d : detail) : M unit :=
  emit (ConsoleError msg d).

Definition set_state (f : State -> State) : M unit :=
  fun w => (mkWorld (mem w) (f (st w)) (log w), Normal tt).

Definition with_tasks (v : value) (s : State) : State :=
  mkState v (newTaskDescription s) (taskLoading s) (users s) (newUsername s)
          (newUserEmail s) (newUserPassword s) (userLoading s) (currentView s).

Definition with_newTaskDescription (x : string) (s : State) : State :=
  mkState (tasks s) x (taskLoading s) (users s) (newUsername s)
          (newUserEmail s) (newUserPassword s) (userLoading s) (currentView s).

Definition with_taskLoading (b : bool) (s : State) : State :=
  mkState (tasks s) (newTaskDescription s) b (users s) (newUsername s)
          (newUserEmail s) (newUserPassword s) (userLoading s) (currentView s).

Definition with_users (v : value) (s : State) : State :=
  mkState (tasks s) (newTaskDescription s) (taskLoading s) v (newUsername s)
          (newUserEmail s) (newUserPassword s) (userLoading s) (currentView s).

Definition with_newUsername (x : string) (s : State) : State :=
  mkState (tasks s) (newTaskDescription s) (taskLoading s) (users s) x
          (newUserEmail s) (newUserPassword s) (userLoading s) (currentView s).

Definition with_newUserEmail (x : string) (s : State) : State :=
  mkState (tasks s) (newTaskDescription s) (taskLoading s) (users s)
          (newUsername s) x (newUserPassword s) (userLoading s) (currentView s).

Definition with_newUserPassword (x : string) (s : State) : State :=
  mkState (tasks s) (newTaskDescription s) (taskLoading s) (users s)
          (newUsername s) (newUserEmail s) x (userLoading s) (currentView s).

Definition with_userLoading (b : bool) (s : State) : State :=
  mkState (tasks s) (newTaskDescription s) (taskLoading s) (users s)
          (newUsername s) (newUserEmail s) (newUserPassword s) b (currentView s).

Definition setTasks (v : value) : M unit := set_state (with_tasks v).
Definition setNewTaskDescription (x : string) : M unit :=
  set_state (with_newTaskDescription x).
Definition setTaskLoading (b : bool) : M unit := set_state (with_taskLoading b).
Definition setUsers (v : value) : M unit := set_state (with_users v).
Definition setNewUsername (x : string) : M unit := set_state (with_newUsername x).
Definition setNewUserEmail (x : string) : M unit := set_state (with_newUserEmail x).
Definition setNewUserPassword (x : string) : M unit :=
  set_state (with_newUserPassword x).
Definition setUserLoading (b : bool) : M unit := set_state (with_userLoading b).

(** A functional update [setUsers(prev => f prev)]: React runs [f] on the
    current value of the cell, at the call when no other update is pending
    and in its next render otherwise; nothing that runs in between touches
    the cell or the array it holds, and [f] is run at the call here.  When
    [f] throws, React keeps the exception to itself at the call, so the
    handler goes on and the cell keeps its value; React runs [f] again in
    its next render, after the synchronous part of the handler, and there
    the exception escapes: with no error boundary React removes the whole
    tree.  [RenderError] records that [f] threw; a component with such an
    event in its log is not [alive]. *)
Definition setUsers_with (f : value -> M value) : M unit :=
  fun w =>
    match f (users (st w)) w with
    | (w', Normal v) => setUsers v w'
    | (w', Thrown e) => emit (RenderError e) w'
    end.

(** *** Heap primitives *)

Definition alloc (o : object) : M value :=
  fun w => (mkWorld (mem w ++ [o]) (st w) (log w), Normal (VRef (List.length (mem w)))).

(** [v.k], for the properties this program reads ([id], [message],
    [detail]): an own property of a plain object, [undefined] on arrays and
    primitives, a [TypeError] on [null] and [undefined]. *)
Definition get_prop (v : value) (k : string) : M value :=
  fun w =>
    match v with
    | VUndefined | VNull => (w, Thrown TypeError)
    | VRef l =>
        match mem w !! l with
        | Some (Obj ps) => (w, Normal (default VUndefined (assoc k ps)))
        | _ => (w, Normal VUndefined)
        end
    | _ => (w, Normal VUndefined)
    end.

(** The elements of an array; [TypeError] on anything else (the method
    called on it is [undefined], or the receiver is [null]/[undefined]). *)
Definition array_elems (a : value) : M (list value) :=
  fun w =>
    match a with
    | VRef l =>
        match mem w !! l with
        | Some (Arr es) => (w, Normal es)
        | _ => (w, Thrown TypeError)
        end
    | _ => (w, Thrown TypeError)
    end.

Fixpoint for_each {A B} (f : A -> M B) (xs : list A) : M (list B) :=
  match xs with
  | [] => ret []
  | x :: xs' =>
      let* y := f x in
      let* ys := for_each f xs' in
      ret (y :: ys)
  end.

(** [a.map(f)]: a new array of the results, in order. *)
Definition array_map (f : value -> M value) (a : value) : M value :=
  let* es := array_elems a in
  let* es' := for_each f es in
  alloc (Arr es').

(** [a.push(x)]: the array cell itself is extended. *)
Definition array_push (a : value) (x : value) : M unit :=
  fun w =>
    match a with
    | VRef l =>
        match mem w !! l with
        | Some (Arr es) =>
            (mkWorld (<[l := Arr (es ++ [x])]> (mem w)) (st w) (log w), Normal tt)
        | _ => (w, Thrown TypeError)
        end
    | _ => (w, Thrown TypeError)
    end.

(** The values [...v] spreads: the elements of an array, the characters of
    a string; nothing else here is iterable. *)
Definition spread (v : value) : M (list value) :=
  fun w =>
    match v with
    | VString s =>
        (w, Normal ((fun c => VString (String c EmptyString)) <$> String.list_ascii_of_string s))
    | VRef l =>
        match mem w !! l with
        | Some (Arr es) => (w, Normal es)
        | _ => (w, Thrown TypeError)
        end
    | _ => (w, Thrown TypeError)
    end.

(** *** The network *)

(** [fetch(u, {method: m, body: JSON.stringify(req)})], up to the [await]:
    the request leaves. *)
Definition fetch (m : method) (u : url) (req : option json) : M unit :=
  emit (Fetch m u req).

(** The [await] of the [fetch] promise. *)
Definition settle (o : outcome) : M response :=
  match o with
  | Rejected => throw NetworkError
  | Resolved r => ret r
  end.

(** [await response.json()] *)
Definition response_json (r : response) : M value :=
  match body r with
  | None => throw SyntaxError
  | Some j => fun w => let '(v, h) := parse j (mem w) in
                       (mkWorld h (st w) (log w), Normal v)
  end.

(** ** The handlers of [App]

    An [async] function runs synchronously up to its first [await] and is
    resumed when the awaited [fetch] settles.  Each handler is given as the
    part that runs at the call, named as in the source, and the part
    [_resume] that runs once the outcome [o] of its request is known.  A
    handler reads the state cells through [env], the values of the render
    that created it; [st] of the world is the current value of the cells. *)

(** Whether the call ended, or is suspended at [await fetch(...)]. *)
Inductive progress : Type := Returned | Awaiting.

(** The first render: [useState([])] twice, [''] for the fields, [false]
    for the flags, ['tasks'] for the view. *)
Definition initial : World :=
  mkWorld [Arr []; Arr []]
          (mkState (VRef 0) "" false (VRef 1) "" "" "" false "tasks")
          [].

Definition fetchTasks : M progress :=
  setTaskLoading true ;;
  fetch GET url_tasks None ;;
  ret Awaiting.

Definition fetchTasks_resume (o : outcome) : M unit :=
  finally
    (try_catch
       (let* response := settle o in
        if negb (ok response) then throw (HttpError (status response))
        else
          let* data := response_json response in
          setTasks data)
       (fun error => console_error "Failed to fetch tasks:" (OfExn error)))
    (setTaskLoading false).

Definition handleAddTask (env : State) : M progress :=
  if is_empty (trim (newTaskDescription env)) then
    alert "Task description cannot be empty!" ;;
    ret Returned
  else
    fetch POST url_tasks
          (Some (JObject [("description", JString (newTaskDescription env))])) ;;
    ret Awaiting.

Definition handleAddTask_resume (env : State) (o : outcome) : M unit :=
  try_catch
    (let* response := settle o in
     if negb (ok response) then throw (HttpError (status response))
     else
       let* newTask := response_json response in
       array_push (tasks env) newTask ;;
       setTasks (tasks env) ;;
       setNewTaskDescription "")
    (fun error => console_error "Failed to add task:" (OfExn error)).

Definition handleToggleComplete (taskId currentStatus : value) : M progress :=
  fetch PUT (url_task taskId)
        (Some (JObject [("completed", JBool (negb (truthy currentStatus)))])) ;;
  ret Awaiting.

(** [task => task.id === updatedTask.id ? updatedTask : task] *)
Definition replace_by_id (updatedTask task : value) : M value :=
  let* a := get_prop task "id" in
  let* b := get_prop updatedTask "id" in
  ret (if strict_eq a b then updatedTask else task).

Definition handleToggleComplete_resume (env : State) (o : outcome) : M unit :=
  try_catch
    (let* response := settle o in
     let* updatedTask := response_json response in
     if ok response then
       let* updatedTasks := array_map (replace_by_id updatedTask) (tasks env) in
       setTasks updatedTasks
     else
       let* message := get_prop updatedTask "message" in
       console_error "Failed to update task:"
                     (OfValue (js_or message (VString (statusText response)))))
    (fun error => console_error "Error toggling task status:" (OfExn error)).

Definition fetchUsers : M progress :=
  setUserLoading true ;;
  fetch GET url_users None ;;
  ret Awaiting.

Definition fetchUsers_resume (o : outcome) : M unit :=
  finally
    (try_catch
       (let* response := settle o in
        let* data := response_json response in
        setUsers data)
       (fun error => console_error "Failed to fetch users:" (OfExn error)))
    (setUserLoading false).

Definition handleCreateUser (env : State) : M progress :=
  if is_empty (trim (newUsername env))
     || is_empty (trim (newUserEmail env))
     || is_empty (trim (newUserPassword env))
  then
    alert "All user fields are required!" ;;
    ret Returned
  else
    fetch POST url_users
          (Some (JObject [("username", JString (newUsername env));
                          ("email", JString (newUserEmail env));
                          ("password", JString (newUserPassword env))])) ;;
    ret Awaiting.

(** [errorData.detail?.message] *)
Definition detail_message (errorData : value) : M value :=
  let* d := get_prop errorData "detail" in
  match d with
  | VUndefined | VNull => ret VUndefined
  | _ => get_prop d "message"
  end.

(** The call [fetchUsers()] at the end is not awaited: only its synchronous
    part runs inside this handler, and its request is in flight when the
    handler ends. *)
Definition handleCreateUser_resume (env : State) (o : outcome) : M unit :=
  try_catch
    (let* response := settle o in
     if negb (ok response) then
       let* errorData := response_json response in
       console_error "Failed to create user:" (OfValue errorData) ;;
       let* message := detail_message errorData in
       alert_with "Error creating user: " (js_or message (VString "Unknown error"))
     else
       let* newUser := response_json response in
       setUsers_with (fun prevUsers =>
                        let* es := spread prevUsers in
                        alloc (Arr (es ++ [newUser]))) ;;
       setNewUsername "" ;;
       setNewUserEmail "" ;;
       setNewUserPassword "" ;;
       fetchUsers ;;
       ret tt)
    (fun error =>
       console_error "Error creating user:" (OfExn error) ;;
       alert "An unexpected error occurred while creating user.").

(** A whole call with nothing else running in between: the handler is
    called and, if it awaits, its request settles to [o]. *)
Definition round_trip (call : M progress) (resume : outcome -> M unit)
           (o : outcome) : M unit :=
  let* p := call in
  match p with
  | Returned => ret tt
  | Awaiting => resume o
  end.

(** The two effects of the first render, [useEffect(() => { fetchTasks(); }, [])]
    and [useEffect(() => { fetchUsers(); }, [])], run in that order. *)
Definition mount : M unit :=
  fetchTasks ;;
  fetchUsers ;;
  ret tt.

(** ** The view

    What [App] returns, as far as it depends on the state: which selector
    button is highlighted, which section is there, the value of each input,
    and for each list the loading line, the empty line or one row per
    entry.  A child of a row is kept as the value the JSX holds: [App]
    does not look at it, React does when it goes through the elements that
    [App] returned. *)

(** [v.length]: the number of elements of an array or of characters of a
    string, the own property of that name of a plain object, [undefined]
    on other primitives, a [TypeError] on [null] and [undefined]. *)
Definition get_length (v : value) : M value :=
  fun w =>
    match v with
    | VUndefined | VNull => (w, Thrown TypeError)
    | VString s => (w, Normal (VNumber (Z.of_nat (String.length s))))
    | VRef l =>
        match mem w !! l with
        | Some (Arr es) => (w, Normal (VNumber (Z.of_nat (List.length es))))
        | Some (Obj ps) => (w, Normal (default VUndefined (assoc "length" ps)))
        | None => (w, Normal VUndefined)
        end
    | _ => (w, Normal VUndefined)
    end.

(** The content of a [<ul>]: the loading line, the empty line, or the rows. *)
Inductive list_view (I : Type) : Type :=
| ViewLoading (line : string)
| ViewEmpty (line : string)
| ViewRows (rows : list I).
Arguments ViewLoading {I} line.
Arguments ViewEmpty {I} line.
Arguments ViewRows {I} rows.

(** A task row: its [key], the task its button's [onClick] holds, whether
    the icon is the checked square, whether the text is struck through, and
    the text. *)
Record task_row : Type := mkTaskRow {
  task_key : nat;
  task_of : value;
  task_checked : bool;
  task_struck : bool;
  task_text : value
}.

(** A user row: its [key] and the four values shown. *)
Record user_row : Type := mkUserRow {
  user_key : nat;
  user_id : value;
  user_username : value;
  user_email : value;
  user_password : value
}.

(** [(task, index) => <li key={index}> ... </li>] *)
Definition render_task (index : nat) (task : value) : M task_row :=
  let* icon := get_prop task "completed" in
  let* style := get_prop task "completed" in
  let* text := get_prop task "description" in
  ret (mkTaskRow index task (truthy icon) (truthy style) text).

(** [(user, idx) => <li key={idx}> ... </li>] *)
Definition render_user (idx : nat) (user : value) : M user_row :=
  let* i := get_prop user "id" in
  let* n := get_prop user "username" in
  let* e := get_prop user "email" in
  let* p := get_prop user "password" in
  ret (mkUserRow idx i n e p).

(** [loading ? <p>...</p> : list.length === 0 ? <p>...</p> : list.map(row)] *)
Definition render_list {I} (loading : bool) (loading_line empty_line : string)
           (row : nat -> value -> M I) (list : value) : M (list_view I) :=
  if loading then ret (ViewLoading loading_line)
  else
    let* n := get_length list in
    if strict_eq n (VNumber 0) then ret (ViewEmpty empty_line)
    else
      let* es := array_elems list in
      let* rows := for_each (fun p => row p.1 p.2) (imap pair es) in
      ret (ViewRows rows).

Record view : Type := mkView {
  tasks_selected : bool;
  users_selected : bool;
  tasks_section : option (string * list_view task_row);
  users_section : option (string * string * string * list_view user_row)
}.

(** The body of [App] after its hooks, on the cells [env] of this render:
    the elements it returns. *)
Definition elements (env : State) : M view :=
  let* ts :=
    if String.eqb (currentView env) "tasks" then
      let* l := render_list (taskLoading env) "Loading tasks..."
                            "No tasks to display." render_task (tasks env) in
      ret (Some (newTaskDescription env, l))
    else ret None in
  let* us :=
    if String.eqb (currentView env) "users" then
      let* l := render_list (userLoading env) "Loading users..."
                            "No users to display." render_user (users env) in
      ret (Some (newUsername env, newUserEmail env, newUserPassword env, l))
    else ret None in
  ret (mkView (String.eqb (currentView env) "tasks")
              (String.eqb (currentView env) "users") ts us).

(** *** What React does with the elements

    React goes through the children of the elements [App] returned.  A
    string or a number is shown as text; [true], [false], [null] and
    [undefined] show nothing; an array stands for its items, each a child in
    turn; any other object is refused with the error 'Objects are not valid
    as a React child'.  The fuel bounds the nesting of arrays: those of a
    heap that are not cyclic are no deeper than the heap is long, and a
    cyclic one, which no JSON text gives, is refused as well. *)
Fixpoint valid_child (fuel : nat) (h : heap) (v : value) : bool :=
  match v with
  | VRef l =>
      match fuel with
      | O => false
      | S n =>
          match h !! l with
          | Some (Arr es) => forallb (valid_child n h) es
          | _ => false
          end
      end
  | _ => true
  end.

Definition react_child (v : value) : M unit :=
  fun w =>
    if valid_child (List.length (mem w)) (mem w) v then (w, Normal tt)
    else (w, Thrown ChildError).

(** The one child of a task row that comes from the state: [{task.description}]. *)
Definition accept_task_row (row : task_row) : M unit :=
  react_child (task_text row).

(** The four of a user row: [{user.id}], [{user.username}], [{user.email}],
    [{user.password}]. *)
Definition accept_user_row (row : user_row) : M unit :=
  react_child (user_id row) ;;
  react_child (user_username row) ;;
  react_child (user_email row) ;;
  react_child (user_password row).

Definition accept_rows {I} (accept : I -> M unit) (l : list_view I) : M unit :=
  match l with
  | ViewRows rows => for_each accept rows ;; ret tt
  | _ => ret tt
  end.

Definition reconcile (v : view) : M unit :=
  match tasks_section v with
  | Some (_, l) => accept_rows accept_task_row l
  | None => ret tt
  end ;;
  match users_section v with
  | Some (_, l) => accept_rows accept_user_row l
  | None => ret tt
  end.

(** A render: [App] is called and React goes through the elements it
    returns.  Nothing catches what either throws: there is no error
    boundary, and React removes the whole tree. *)
Definition render (env : State) : M view :=
  let* v := elements env in
  reconcile v ;;
  ret v.

(** The [onClick] of a task row's button:
    [() => handleToggleComplete(task.id, task.completed)]. *)
Definition click_toggle (row : task_row) : M progress :=
  let* taskId := get_prop (task_of row) "id" in
  let* currentStatus := get_prop (task_of row) "completed" in
  handleToggleComplete taskId currentStatus.

(** The [onClick] of the two selector buttons. *)
Definition with_currentView (x : string) (s : State) : State :=
  mkState (tasks s) (newTaskDescription s) (taskLoading s) (users s)
          (newUsername s) (newUserEmail s) (newUserPassword s) (userLoading s) x.

Definition setCurrentView (x : string) : M unit := set_state (with_currentView x).

(** ** The running application

    The component between two events: its world and the handlers that are
    suspended at their [await fetch(...)], each with the cells of the render
    that created it.  An event is a user action on an element of the
    current view, or the settling of one of the requests in flight. *)

Inductive pending : Type :=
| AwaitFetchTasks
| AwaitAddTask (env : State)
| AwaitToggle (env : State)
| AwaitFetchUsers
| AwaitCreateUser (env : State).

Definition resume (p : pending) (o : outcome) : M unit :=
  match p with
  | AwaitFetchTasks => fetchTasks_resume o
  | AwaitAddTask env => handleAddTask_resume env o
  | AwaitToggle env => handleToggleComplete_resume env o
  | AwaitFetchUsers => fetchUsers_resume o
  | AwaitCreateUser env => handleCreateUser_resume env o
  end.

Record App : Type := mkApp {
  world : World;
  in_flight : list pending
}.

(** The handler to add to those in flight after a call. *)
Definition awaiting (p : pending) (r : result progress) : list pending :=
  match r with
  | Normal Awaiting => [p]
  | _ => []
  end.

(** The one request a resumed handler sends: the [fetchUsers()] at the end
    of a successful user creation. *)
Definition is_refetch (e : event) : bool :=
  match e with
  | Fetch GET url_users None => true
  | _ => false
  end.

Definition spawned (before after : World) : list pending :=
  if existsb is_refetch (drop (List.length (log before)) (log after))
  then [AwaitFetchUsers] else [].

(** A component none of whose state updaters has thrown. *)
Definition is_render_error (e : event) : bool :=
  match e with RenderError _ => true | _ => false end.

Definition alive (w : World) : bool :=
  forallb (fun e => negb (is_render_error e)) (log w).

(** The application after its first render and the two effects. *)
Definition mounted : App :=
  mkApp (exec mount initial) [AwaitFetchTasks; AwaitFetchUsers].

(** One event.  [api p o] says which outcomes the server may give to the
    request of [p].  An event happens to a mounted component: no state
    updater has thrown, the render of the current cells has succeeded, and
    the handlers the elements carry are those of that render: React
    renders again after every event that changes a cell.  (After a creation
    that pushes onto the array and changes no cell, React keeps the page it
    has; its rows are the first rows of the render of the current cells,
    with the same handlers.)  Once React has removed the tree there is no
    component to follow: the relation has no step from there. *)
Inductive step (api : pending -> outcome -> bool) : App -> App -> Prop :=
| step_type_description w ps v d :
    alive w = true ->
    render (st w) w = (w, Normal v) ->
    currentView (st w) = "tasks" ->
    step api (mkApp w ps) (mkApp (exec (setNewTaskDescription d) w) ps)
| step_click_add w ps v :
    alive w = true ->
    render (st w) w = (w, Normal v) ->
    currentView (st w) = "tasks" ->
    step api (mkApp w ps)
         (mkApp (exec (handleAddTask (st w)) w)
                (ps ++ awaiting (AwaitAddTask (st w)) (handleAddTask (st w) w).2))
| step_click_toggle w ps v d rows i row :
    alive w = true ->
    render (st w) w = (w, Normal v) ->
    tasks_section v = Some (d, ViewRows rows) ->
    rows !! i = Some row ->
    step api (mkApp w ps)
         (mkApp (exec (click_toggle row) w)
                (ps ++ awaiting (AwaitToggle (st w)) (click_toggle row w).2))
| step_type_username w ps v x :
    alive w = true ->
    render (st w) w = (w, Normal v) ->
    currentView (st w) = "users" ->
    step api (mkApp w ps) (mkApp (exec (setNewUsername x) w) ps)
| step_type_email w ps v x :
    alive w = true ->
    render (st w) w = (w, Normal v) ->
    currentView (st w) = "users" ->
    step api (mkApp w ps) (mkApp (exec (setNewUserEmail x) w) ps)
| step_type_password w ps v x :
    alive w = true ->
    render (st w) w = (w, Normal v) ->
    currentView (st w) = "users" ->
    step api (mkApp w ps) (mkApp (exec (setNewUserPassword x) w) ps)
| step_click_create w ps v :
    alive w = true ->
    render (st w) w = (w, Normal v) ->
    currentView (st w) = "users" ->
    step api (mkApp w ps)
         (mkApp (exec (handleCreateUser (st w)) w)
                (ps ++ awaiting (AwaitCreateUser (st w)) (handleCreateUser (st w) w).2))
| step_select_tasks w ps v :
    alive w = true ->
    render (st w) w = (w, Normal v) ->
    step api (mkApp w ps) (mkApp (exec (setCurrentView "tasks") w) ps)
| step_select_users w ps v :
    alive w = true ->
    render (st w) w = (w, Normal v) ->
    step api (mkApp w ps) (mkApp (exec (setCurrentView "users") w) ps)
| step_settle w ps1 p ps2 v o :
    alive w = true ->
    render (st w) w = (w, Normal v) ->
    api p o = true ->
    step api (mkApp w (ps1 ++ p :: ps2))
         (mkApp (exec (resume p o) w)
                (ps1 ++ ps2 ++ spawned w (exec (resume p o) w))).

(** The states the application can be in under [api]. *)
Definition reachable (api : pending -> outcome -> bool) (a : App) : Prop :=
  rtc (step api) mounted a.

(** A JSON text that is not an array or an object. *)
Definition is_json_primitive (j : json) : bool :=
  match j with JArray _ | JObject _ => false | _ => true end.

(** A JSON object none of whose members is an array or an object, as a Task
    and a User are. *)
Definition is_json_record (j : json) : bool :=
  match j with
  | JObject members => forallb (fun m => is_json_primitive m.2) members
  | _ => false
  end.

(** A JSON array of such objects. *)
Definition is_json_records (j : json) : bool :=
  match j with JArray items => forallb is_json_record items | _ => false end.

(** The task endpoints as the client relies on them: a success answer that
    is JSON carries an array of Tasks for the list, one Task for a creation
    or an update, a Task being an object none of whose members is an array
    or an object.  Failures, bodies that are not JSON and the user endpoints
    are unconstrained. *)
Definition tasks_api (p : pending) (o : outcome) : bool :=
  match o with
  | Rejected => true
  | Resolved r =>
      match body r with
      | None => true
      | Some j =>
          negb (ok r)
          || match p with
             | AwaitFetchTasks => is_json_records j
             | AwaitAddTask _ | AwaitToggle _ => is_json_record j
             | AwaitFetchUsers | AwaitCreateUser _ => true
             end
      end
  end.

(** ** Reading the lists *)

(** [h'] is [h] with cells added at the end. *)
Definition extends (h h' : heap) : Prop := exists k, h' = h ++ k.

(** The entries of the array [v] points to. *)
Definition entries (h : heap) (v : value) : option (list value) :=
  match v with
  | VRef l => match h !! l with Some (Arr es) => Some es | _ => None end
  | _ => None
  end.

(** The property [k] of entry [v], as [v.k] reads it without throwing. *)
Definition prop (h : heap) (k : string) (v : value) : value :=
  match v with
  | VRef l =>
      match h !! l with
      | Some (Obj ps) => default VUndefined (assoc k ps)
      | _ => VUndefined
      end
  | _ => VUndefined
  end.

(** A value on which property access does not throw. *)
Definition not_nullish (v : value) : bool :=
  match v with
  | VUndefined | VNull => false
  | _ => true
  end.

(** A reference to a plain object of the heap, as a Task or a User is. *)
Definition is_object (h : heap) (v : value) : bool :=
  match v with
  | VRef l => match h !! l with Some (Obj _) => true | _ => false end
  | _ => false
  end.

(** A value that points into the heap, or is a primitive. *)
Definition in_heap (h : heap) (v : value) : bool :=
  match v with
  | VRef l => bool_decide (l < List.length h)
  | _ => true
  end.

(** What the toggle's [map] computes on entries that are not [null] or
    [undefined]: the entries whose [id] is that of [u] become [u]. *)
Definition merge (h : heap) (u : value) (es : list value) : list value :=
  (fun e => if strict_eq (prop h "id" e) (prop h "id" u) then u else e) <$> es.

(** The value of a JSON text that is not an array or an object. *)
Definition primitive (j : json) : option value :=
  match j with
  | JNull => Some VNull
  | JBool b => Some (VBool b)
  | JNumber n => Some (VNumber n)
  | JString s => Some (VString s)
  | JArray _ | JObject _ => None
  end.

(** The member named [k] of a JSON object, the last one if [k] is repeated. *)
Fixpoint member (k : string) (ms : list (string * json)) : option json :=
  match ms with
  | [] => None
  | (k', j) :: ms' =>
      match member k ms' with
      | Some j' => Some j'
      | None => if String.eqb k k' then Some j else None
      end
  end.

(** A transport or server failure: the request is rejected by the network,
    or answered with a status outside 200-299. *)
Definition failed (o : outcome) : bool :=
  match o with
  | Rejected => true
  | Resolved r => negb (ok r)
  end.

(** ** Sample data *)

(** [{id: 1, description: "buy milk", completed: c}] *)
Definition buy_milk (c : bool) : json :=
  JObject [("id", JNumber 1); ("description", JString "buy milk");
           ("completed", JBool c)].

(** [{id: 7, username: "alice", email: "a@x.com", password: "secret"}] *)
Definition alice : json :=
  JObject [("id", JNumber 7); ("username", JString "alice");
           ("email", JString "a@x.com"); ("password", JString "secret")].

(** [{id: 8, username: "bob", email: "b@x.com", password: "hunter2"}] *)
Definition bob : json :=
  JObject [("id", JNumber 8); ("username", JString "bob");
           ("email", JString "b@x.com"); ("password", JString "hunter2")].

(** [{id: 9, username: "carol", email: "c@x.com", password: "swordfish"}] *)
Definition carol : json :=
  JObject [("id", JNumber 9); ("username", JString "carol");
           ("email", JString "c@x.com"); ("password", JString "swordfish")].

Definition success (j : json) : outcome :=
  Resolved (mkResponse true 200 "OK" (Some j)).

(** The component once its first [fetchTasks] has brought
    [[{id: 1, description: "buy milk", completed: false}]]. *)
Definition buy_milk_world : World :=
  exec (round_trip fetchTasks fetchTasks_resume (success (JArray [buy_milk false])))
       initial.

(** The component once its first [fetchUsers] has brought [[alice]]. *)
Definition alice_world : World :=
  exec (round_trip fetchUsers fetchUsers_resume (success (JArray [alice]))) initial.

(** ** Outcomes and effects, by kind *)

(** An outcome that brings no data to a handler that checks the status: the
    request is rejected, the status is not a success, or the body is not
    JSON. *)
Definition no_data (o : outcome) : bool :=
  match o with
  | Rejected => true
  | Resolved r => negb (ok r) || match body r with None => true | Some _ => false end
  end.

Definition is_fetch (e : event) : bool :=
  match e with Fetch _ _ _ => true | _ => false end.

Definition is_alert (e : event) : bool :=
  match e with Alert _ _ => true | _ => false end.

Definition is_console_error (e : event) : bool :=
  match e with ConsoleError _ _ => true | _ => false end.

(** What [errorData.detail?.message] reads on an [errorData] that is not
    [null] or [undefined]. *)
Definition error_message (h : heap) (errorData : value) : value :=
  let d := prop h "detail" errorData in
  if not_nullish d then prop h "message" d else VUndefined.

(** ** The two sides of the state *)

(** The cells of the user synchronizer, with the view flag. *)
Definition user_side (s : State) : value * string * string * string * bool * string :=
  (users s, newUsername s, newUserEmail s, newUserPassword s, userLoading s,
   currentView s).

(** The cells of the task synchronizer, with the view flag. *)
Definition task_side (s : State) : value * string * bool * string :=
  (tasks s, newTaskDescription s, taskLoading s, currentView s).

(** A computation that, from every world, leaves the cells [side] reads as
    they were and changes no heap cell other than the one [a] points to. *)
Definition leaves {T A} (side : State -> T) (a : value) (m : M A) : Prop :=
  forall w,
    side (st (m w).1) = side (st w)
    /\ forall l c, VRef l <> a -> mem w !! l = Some c -> mem (m w).1 !! l = Some c.

(** A computation that, from a component none of whose updaters has
    thrown, leaves such a component. *)
Definition quiet {A} (m : M A) : Prop :=
  forall w, alive w = true -> alive (m w).1 = true.

(** [{id: 2, description: "walk the dog", completed: c}] *)
Definition walk_dog (c : bool) : json :=
  JObject [("id", JNumber 2); ("description", JString "walk the dog");
           ("completed", JBool c)].

(** [{id: 3, description: {text: "call mum"}, completed: false}] *)
Definition nested_task : json :=
  JObject [("id", JNumber 3);
           ("description", JObject [("text", JString "call mum")]);
           ("completed", JBool false)].

(** The component once its first [fetchTasks] has brought two tasks. *)
Definition two_tasks_world : World :=
  exec (round_trip fetchTasks fetchTasks_resume
                   (success (JArray [buy_milk false; walk_dog false])))
       initial.

(** ** JSON texts that read back as they are *)

(** The nesting depth of arrays and objects. *)
Fixpoint depth (j : json) : nat :=
  match j with
  | JArray items => S (foldr (fun j n => Nat.max (depth j) n) 0 items)
  | JObject members => S (foldr (fun m n => Nat.max (depth m.2) n) 0 members)
  | _ => 0
  end.

(** No object of the text repeats a member name. *)
Fixpoint plain (j : json) : bool :=
  match j with
  | JArray items => forallb plain items
  | JObject members =>
      bool_decide (NoDup (members.*1)) && forallb (fun m => plain m.2) members
  | _ => true
  end.

(** A member name made of decimal digits only.  [JSON.parse] lists the
    properties whose name is an array index before the others, in numeric
    order; every such name is made of digits only. *)
Definition is_digit (c : Ascii.ascii) : bool :=
  ((48 <=? Ascii.N_of_ascii c) && (Ascii.N_of_ascii c <=? 57))%N.

Definition index_like (k : string) : bool :=
  negb (is_empty k) && forallb is_digit (String.list_ascii_of_string k).

(** An integer that a double holds exactly: [JSON.parse] gives the double
    nearest to the number of the text, which is that number itself for all
    integers up to [2^53] in magnitude. *)
Definition safe_integer (n : Z) : bool := ((- 2 ^ 53 <=? n) && (n <=? 2 ^ 53))%Z.

(** The JSON texts on which [parse] is [JSON.parse] to the letter: every
    number is an integer a double holds exactly, no object repeats a member
    name, and no member name is made of digits only, so that the properties
    of each object are its members, in the order of the text. *)
Fixpoint exact (j : json) : bool :=
  match j with
  | JNumber n => safe_integer n
  | JArray items => forallb exact items
  | JObject members =>
      bool_decide (NoDup (members.*1))
      && forallb (fun m => negb (index_like m.1) && exact m.2) members
  | _ => true
  end.

(** [v] reads as [j] in every heap that extends [h], at every depth that
    is enough for [j]. *)
Definition reads (h : heap) (v : value) (j : json) : Prop :=
  forall d h', depth j <= d -> extends h h' -> reify d h' v = Some j.

(** The user endpoints as the client relies on them.  The list handler
    never looks at the status, so every answer to the list request that is
    JSON has to carry an array of Users; a success answer to a creation
    that is JSON carries one User, a User being an object none of whose
    members is an array or an object. *)
Definition users_api (p : pending) (o : outcome) : bool :=
  match o with
  | Rejected => true
  | Resolved r =>
      match body r with
      | None => true
      | Some j =>
          match p with
          | AwaitFetchUsers => is_json_records j
          | AwaitCreateUser _ => negb (ok r) || is_json_record j
          | _ => true
          end
      end
  end.

Definition client_api (p : pending) (o : outcome) : bool :=
  tasks_api p o && users_api p o.

(** A value that is not a reference. *)
Definition is_primitive (v : value) : bool :=
  match v with VRef _ => false | _ => true end.

(** A reference to a plain object all of whose properties are primitive, as
    a parsed Task or User is. *)
Definition is_record (h : heap) (v : value) : bool :=
  match v with
  | VRef l =>
      match h !! l with
      | Some (Obj ps) => forallb (fun p => is_primitive p.2) ps
      | _ => false
      end
  | _ => false
  end.

(** An array of the heap whose entries are all such objects. *)
Definition is_record_list (h : heap) (v : value) : bool :=
  match entries h v with
  | Some es => forallb (is_record h) es
  | None => false
  end.

(** Every such list of [h] is one of [h']. *)
Definition lists_kept (h h' : heap) : Prop :=
  forall v, is_record_list h v = true -> is_record_list h' v = true.

(** A handler in flight that holds a list of Tasks, or holds no list. *)
Definition holds_task_list (h : heap) (p : pending) : Prop :=
  match p with
  | AwaitAddTask env | AwaitToggle env => is_record_list h (tasks env) = true
  | _ => True
  end.

(** The list cell and the handlers in flight all hold lists of Tasks. *)
Definition task_lists_ok (a : App) : Prop :=
  is_record_list (mem (world a)) (tasks (st (world a))) = true
  /\ Forall (holds_task_list (mem (world a))) (in_flight a).

(** Both list cells and the handlers in flight hold arrays of records. *)
Definition lists_ok (a : App) : Prop :=
  task_lists_ok a
  /\ is_record_list (mem (world a)) (users (st (world a))) = true.

(** The application once both fetches of the first render have been
    answered, the tasks first. *)
Definition loaded : App :=
  mkApp (exec (resume AwaitFetchUsers (success (JArray [alice])))
              (exec (resume AwaitFetchTasks (success (JArray [buy_milk false])))
                    (exec mount initial)))
        [].

(** * Properties *)

(** ** Values *)

Lemma strict_eq_spec (a b : value) : strict_eq a b = true <-> a = b.
Proof.
  split.
  - destruct a, b; simpl; intros H; try discriminate; try reflexivity; f_equal.
    + by apply Bool.eqb_prop.
    + by apply Z.eqb_eq.
    + by apply String.eqb_eq.
    + by apply Nat.eqb_eq.
  - intros <-. destruct a; simpl;
      auto using Bool.eqb_reflx, Z.eqb_refl, String.eqb_refl, Nat.eqb_refl.
Qed.

Lemma strict_eq_refl (a : value) : strict_eq a a = true.
Proof. by apply strict_eq_spec. Qed.

Lemma strict_eq_neq (a b : value) : a <> b -> strict_eq a b = false.
Proof.
  intros H. destruct (strict_eq a b) eqn:E; [|done].
  by apply strict_eq_spec in E.
Qed.

(** ** [JSON.parse] only extends the heap *)

Lemma extends_refl h : extends h h.
Proof. exists []. by rewrite app_nil_r. Qed.

Lemma extends_trans h1 h2 h3 : extends h1 h2 -> extends h2 h3 -> extends h1 h3.
Proof. intros [k1 ->] [k2 ->]. exists (k1 ++ k2). by rewrite app_assoc. Qed.

Lemma extends_snoc h o : extends h (h ++ [o]).
Proof. by exists [o]. Qed.

Lemma extends_lookup h h' l o : extends h h' -> h !! l = Some o -> h' !! l = Some o.
Proof. intros [k ->] H. by apply lookup_app_l_Some. Qed.

Lemma extends_length h h' : extends h h' -> List.length h <= List.length h'.
Proof. intros [k ->]. rewrite length_app. lia. Qed.

Lemma parse_items_extends (js : list json) :
  Forall (fun j => forall h, extends h (parse j h).2) js ->
  forall h, extends h (parse_items parse js h).2.
Proof.
  induction 1 as [|j js Hj _ IH]; intros h; simpl; [apply extends_refl|].
  specialize (Hj h). destruct (parse j h) as [v h1]. simpl in Hj.
  specialize (IH h1). destruct (parse_items parse js h1) as [vs h2].
  simpl in *. by eapply extends_trans.
Qed.

Lemma parse_members_extends (ms : list (string * json)) :
  Forall (fun m => forall h, extends h (parse m.2 h).2) ms ->
  forall ps h, extends h (parse_members parse ms ps h).2.
Proof.
  induction 1 as [|[k j] ms Hj _ IH]; intros ps h; simpl; [apply extends_refl|].
  simpl in Hj. specialize (Hj h). destruct (parse j h) as [v h1]. simpl in Hj.
  eapply extends_trans; [exact Hj | apply IH].
Qed.

Lemma parse_extends (j : json) : forall h, extends h (parse j h).2.
Proof.
  induction j as [| | | |items IH|members IH] using json_nested_ind;
    intros h; simpl; try apply extends_refl.
  - pose proof (parse_items_extends items IH h) as H.
    destruct (parse_items parse items h) as [vs h']. simpl in *.
    eapply extends_trans; [exact H | apply extends_snoc].
  - pose proof (parse_members_extends members IH [] h) as H.
    destruct (parse_members parse members [] h) as [ps h']. simpl in *.
    eapply extends_trans; [exact H | apply extends_snoc].
Qed.

(** A parsed JSON object is a reference to a plain object in a cell that
    did not exist before. *)
Lemma parse_object (members : list (string * json)) (h : heap) :
  exists l ps, (parse (JObject members) h).1 = VRef l
               /\ List.length h <= l
               /\ (parse (JObject members) h).2 !! l = Some (Obj ps).
Proof.
  simpl.
  assert (extends h (parse_members parse members [] h).2) as Hext.
  { apply parse_members_extends, Forall_forall. intros m _ h0. apply parse_extends. }
  destruct (parse_members parse members [] h) as [ps h']. simpl in *.
  exists (List.length h'), ps. split; [done|]. split.
  - by apply extends_length.
  - rewrite lookup_app_r; [|lia]. by rewrite Nat.sub_diag.
Qed.

(** ** The properties of a parsed object *)

Lemma assoc_set_prop_eq k v ps : assoc k (set_prop k v ps) = Some v.
Proof.
  induction ps as [|[k' v'] ps IH]; simpl.
  - by rewrite String.eqb_refl.
  - destruct (String.eqb k k') eqn:E; simpl; rewrite ?String.eqb_refl; [done|].
    by rewrite E.
Qed.

Lemma assoc_set_prop_ne k k' v ps :
  String.eqb k k' = false -> assoc k (set_prop k' v ps) = assoc k ps.
Proof.
  intros Hne. induction ps as [|[k0 v0] ps IH]; simpl.
  - by rewrite Hne.
  - destruct (String.eqb k' k0) eqn:E; simpl.
    + apply String.eqb_eq in E. subst k0. by rewrite Hne.
    + by rewrite IH.
Qed.

Lemma parse_primitive j v h : primitive j = Some v -> parse j h = (v, h).
Proof. destruct j; simpl; intros [= <-]; reflexivity. Qed.

Lemma parse_members_assoc k (ms : list (string * json)) :
  forall ps h,
    match member k ms with
    | Some j => forall v, primitive j = Some v ->
                          assoc k (parse_members parse ms ps h).1 = Some v
    | None => assoc k (parse_members parse ms ps h).1 = assoc k ps
    end.
Proof.
  induction ms as [|[k' j] ms IH]; intros ps h; simpl; [done|].
  destruct (parse j h) as [v0 h1] eqn:Ej.
  specialize (IH (set_prop k' v0 ps) h1).
  destruct (member k ms) as [j'|]; [exact IH|].
  destruct (String.eqb k k') eqn:E.
  - intros v Hv. rewrite IH. apply String.eqb_eq in E. subst k'.
    rewrite (parse_primitive _ _ _ Hv) in Ej. injection Ej as <- <-.
    apply assoc_set_prop_eq.
  - rewrite IH. by apply assoc_set_prop_ne.
Qed.

(** A primitive member of the JSON object is the property of that name of
    the parsed object, in every heap that extends the one [parse] built. *)
Lemma parse_object_prop (ms : list (string * json)) (h h' : heap) k j v :
  member k ms = Some j ->
  primitive j = Some v ->
  extends (parse (JObject ms) h).2 h' ->
  prop h' k (parse (JObject ms) h).1 = v.
Proof.
  intros Hm Hv Hext. pose proof (parse_members_assoc k ms [] h) as Hassoc.
  rewrite Hm in Hassoc. specialize (Hassoc v Hv). simpl in Hext |- *.
  destruct (parse_members parse ms [] h) as [ps h1]. simpl in *.
  unfold prop.
  rewrite (extends_lookup _ _ (List.length h1) (Obj ps) Hext).
  - by rewrite Hassoc.
  - rewrite lookup_app_r by lia. by rewrite Nat.sub_diag.
Qed.

(** ** Stepping the handlers *)

Lemma entries_extends h h' v es :
  extends h h' -> entries h v = Some es -> entries h' v = Some es.
Proof.
  intros Hext. destruct v as [| | | | |l]; unfold entries; try discriminate.
  destruct (h !! l) as [[ps|es0]|] eqn:E; try discriminate.
  intros [= <-]. by rewrite (extends_lookup _ _ _ _ Hext E).
Qed.

Lemma get_prop_read v k w :
  not_nullish v = true -> get_prop v k w = (w, Normal (prop (mem w) k v)).
Proof.
  destruct v as [| | | | |l]; unfold get_prop, prop; try discriminate;
    try reflexivity.
  intros _. by destruct (mem w !! l) as [[ps|es]|].
Qed.

Lemma array_elems_read a es w :
  entries (mem w) a = Some es -> array_elems a w = (w, Normal es).
Proof.
  destruct a as [| | | | |l]; unfold entries, array_elems; try discriminate.
  destruct (mem w !! l) as [[ps|es0]|]; try discriminate. by intros [= ->].
Qed.

Lemma for_each_replace_by_id u es w :
  not_nullish u = true ->
  Forall (fun e => not_nullish e = true) es ->
  for_each (replace_by_id u) es w = (w, Normal (merge (mem w) u es)).
Proof.
  intros Hu. induction 1 as [|e es He _ IH]; simpl; [done|].
  unfold bind at 1. unfold replace_by_id at 1. unfold bind at 1.
  rewrite (get_prop_read e); [|done]. unfold bind at 1.
  rewrite (get_prop_read u); [|done]. unfold ret at 1.
  unfold bind at 1. rewrite IH. reflexivity.
Qed.

Lemma toggle_resume_success env w r j es :
  ok r = true -> body r = Some j ->
  entries (mem w) (tasks env) = Some es ->
  Forall (fun e => not_nullish e = true) es ->
  not_nullish (parse j (mem w)).1 = true ->
  handleToggleComplete_resume env (Resolved r) w =
    (mkWorld ((parse j (mem w)).2
                ++ [Arr (merge (parse j (mem w)).2 (parse j (mem w)).1 es)])
             (with_tasks (VRef (List.length (parse j (mem w)).2)) (st w))
             (log w),
     Normal tt).
Proof.
  intros Hok Hbody Hes Hnn Hu.
  pose proof (parse_extends j (mem w)) as Hext.
  unfold handleToggleComplete_resume, try_catch, bind at 1, settle, ret at 1.
  unfold bind at 1, response_json. rewrite Hbody.
  destruct (parse j (mem w)) as [u h1] eqn:Ep. simpl in Hu, Hext |- *.
  rewrite Hok. unfold bind at 1, array_map, bind at 1.
  rewrite (array_elems_read _ es); [|by eapply entries_extends].
  unfold bind at 1. rewrite for_each_replace_by_id; [|done..].
  reflexivity.
Qed.

Lemma is_object_not_nullish h v : is_object h v = true -> not_nullish v = true.
Proof. by destruct v. Qed.

Lemma is_object_extends h h' v :
  extends h h' -> is_object h v = true -> is_object h' v = true.
Proof.
  intros Hext. destruct v as [| | | | |l]; unfold is_object; try discriminate.
  destruct (h !! l) as [[ps|es]|] eqn:E; try discriminate.
  by rewrite (extends_lookup _ _ _ _ Hext E).
Qed.

Lemma prop_extends h h' k v :
  extends h h' -> is_object h v = true -> prop h' k v = prop h k v.
Proof.
  intros Hext. destruct v as [| | | | |l]; unfold is_object, prop; try discriminate.
  destruct (h !! l) as [[ps|es]|] eqn:E; try discriminate.
  by rewrite (extends_lookup _ _ _ _ Hext E).
Qed.

Lemma Forall_is_object_not_nullish h es :
  Forall (fun e => is_object h e = true) es ->
  Forall (fun e => not_nullish e = true) es.
Proof.
  intros H. eapply Forall_impl; [exact H|]. intros e. apply is_object_not_nullish.
Qed.

(** A toggle call only sends the request; the rest is the resumption. *)
Lemma toggle_round_trip env taskId currentStatus o w :
  exec (round_trip (handleToggleComplete taskId currentStatus)
                   (handleToggleComplete_resume env) o) w
  = exec (handleToggleComplete_resume env o)
         (mkWorld (mem w) (st w)
                  (log w ++ [Fetch PUT (url_task taskId)
                               (Some (JObject [("completed",
                                                JBool (negb (truthy currentStatus)))]))])).
Proof. reflexivity. Qed.

(** The local list after a successful response with a Task, for a handler
    whose [tasks] is an array of objects: the heap is extended, the
    returned Task is an object of it, only the [tasks] cell changes, and it
    points to the merged entries. *)
Lemma toggle_resume_entries env w r members es :
  ok r = true ->
  body r = Some (JObject members) ->
  entries (mem w) (tasks env) = Some es ->
  Forall (fun task => is_object (mem w) task = true) es ->
  let w' := exec (handleToggleComplete_resume env (Resolved r)) w in
  let updatedTask := (parse (JObject members) (mem w)).1 in
  extends (mem w) (mem w')
  /\ extends (parse (JObject members) (mem w)).2 (mem w')
  /\ is_object (parse (JObject members) (mem w)).2 updatedTask = true
  /\ st w' = with_tasks (tasks (st w')) (st w)
  /\ log w' = log w
  /\ entries (mem w') (tasks (st w'))
     = Some ((fun task =>
                if strict_eq (prop (mem w) "id" task) (prop (mem w') "id" updatedTask)
                then updatedTask else task) <$> es).
Proof.
  intros Hok Hbody Hes Hobj w' updatedTask.
  pose proof (parse_extends (JObject members) (mem w)) as Hext.
  destruct (parse_object members (mem w)) as (l & ps & Hu & Hl & Hps).
  assert (w' = mkWorld ((parse (JObject members) (mem w)).2
                          ++ [Arr (merge (parse (JObject members) (mem w)).2 updatedTask es)])
                       (with_tasks (VRef (List.length (parse (JObject members) (mem w)).2)) (st w))
                       (log w)) as Hw'.
  { unfold w', exec. rewrite (toggle_resume_success env w r (JObject members) es);
      try done.
    - by apply Forall_is_object_not_nullish with (mem w).
    - by rewrite Hu. }
  set (h1 := (parse (JObject members) (mem w)).2) in *.
  assert (extends h1 (mem w')) as Hext' by (rewrite Hw'; apply extends_snoc).
  assert (is_object h1 updatedTask = true) as Hobju.
  { unfold updatedTask. rewrite Hu. unfold is_object. by rewrite Hps. }
  split; [by eapply extends_trans|].
  split; [done|]. split; [done|].
  split; [by rewrite Hw'|]. split; [by rewrite Hw'|].
  assert (entries (mem w') (tasks (st w')) = Some (merge h1 updatedTask es)) as ->.
  { rewrite Hw'. unfold entries, with_tasks, mem, st, tasks.
    rewrite lookup_app_r by lia. by rewrite Nat.sub_diag. }
  f_equal. unfold merge. apply Forall_fmap_ext_1.
  rewrite Forall_forall in Hobj |- *. intros task Hin.
  rewrite (prop_extends _ _ _ _ Hext (Hobj _ Hin)).
  by rewrite (prop_extends _ _ _ _ Hext' Hobju).
Qed.

Lemma Forall_lookup_is_object h (es : list value) i task :
  Forall (fun task => is_object h task = true) es ->
  es !! i = Some task -> is_object h task = true.
Proof.
  rewrite Forall_forall. intros H Hi. apply H. by eapply list_elem_of_lookup_2.
Qed.

(** ** Toggling a task *)

(** C1, at a failing input.  The local list is
    [[{id:1, description:"buy milk", completed:false},
      {id:2, description:"walk the dog", completed:false}]].
    The user clicks the toggle of task 1 and then that of task 2 before any
    answer has come; a click changes no cell, so both handlers are those of
    one render and hold that list.  The answer to the first,
    [{id:1, ..., completed:true}], leaves the list with task 1 completed.
    The answer to the second, [{id:2, ..., completed:true}], is mapped over
    the list of the render, not over the local list: task 2 is completed
    and task 1 is not completed any more.  The entry at position 0, whose
    id is not the returned one, is not the entry the local list held before
    this answer.  The user creation, which updates its list with a function
    of the current value, keeps both of two creations made from one
    render. *)
Theorem toggle_from_earlier_render_reverts_other_entry :
  let env := st two_tasks_world in
  let w := exec (handleToggleComplete (VNumber 2) (VBool false))
                (exec (handleToggleComplete (VNumber 1) (VBool false))
                      two_tasks_world) in
  let w1 := exec (handleToggleComplete_resume env (success (buy_milk true))) w in
  let w2 := exec (handleToggleComplete_resume env (success (walk_dog true))) w1 in
  let u1 := exec (handleCreateUser_resume (st alice_world) (success bob))
                 alice_world in
  let u2 := exec (handleCreateUser_resume (st alice_world) (success carol)) u1 in
  st w = env
  /\ reify 2 (mem w) (tasks (st w))
     = Some (JArray [buy_milk false; walk_dog false])
  /\ reify 2 (mem w1) (tasks (st w1))
     = Some (JArray [buy_milk true; walk_dog false])
  /\ reify 2 (mem w2) (tasks (st w2))
     = Some (JArray [buy_milk false; walk_dog true])
  /\ entries (mem w1) (tasks (st w1)) = Some [VRef 5; VRef 3]
  /\ entries (mem w2) (tasks (st w2)) = Some [VRef 2; VRef 7]
  /\ prop (mem w1) "id" (VRef 5) = VNumber 1
  /\ prop (mem w2) "id" (VRef 7) = VNumber 2
  /\ reify 2 (mem u2) (users (st u2)) = Some (JArray [alice; bob; carol]).
Proof. repeat split; reflexivity. Qed.

(** C10, at a failing input.  From the same list the user clicks the toggle
    of task 1 and then that of task 2, both from one render.  The answer to
    the first leaves the list with task 1 completed.  The answer to the
    second carries a Task whose id, 99, is that of no entry of the local
    list; the handler maps over the list of its render and makes the copy
    the local list: task 1 is not completed any more, so the local list is
    not the one it was before this answer. *)
Theorem unmatched_toggle_from_earlier_render_changes_the_list :
  let env := st two_tasks_world in
  let w := exec (handleToggleComplete (VNumber 2) (VBool false))
                (exec (handleToggleComplete (VNumber 1) (VBool false))
                      two_tasks_world) in
  let w1 := exec (handleToggleComplete_resume env (success (buy_milk true))) w in
  let answer := JObject [("id", JNumber 99); ("description", JString "walk the dog");
                         ("completed", JBool true)] in
  let w2 := exec (handleToggleComplete_resume env (success answer)) w1 in
  st w = env
  /\ entries (mem w1) (tasks (st w1)) = Some [VRef 5; VRef 3]
  /\ Forall (fun task => prop (mem w1) "id" task <> VNumber 99) [VRef 5; VRef 3]
  /\ prop (parse answer (mem w1)).2 "id" (parse answer (mem w1)).1 = VNumber 99
  /\ reify 2 (mem w1) (tasks (st w1))
     = Some (JArray [buy_milk true; walk_dog false])
  /\ reify 2 (mem w2) (tasks (st w2))
     = Some (JArray [buy_milk false; walk_dog false])
  /\ entries (mem w2) (tasks (st w2)) = Some [VRef 2; VRef 3]
  /\ log w2 = log w.
Proof.
  repeat split; try reflexivity.
  repeat constructor; vm_compute; discriminate.
Qed.

(** C7.  The request of ToggleComplete(taskId, currentStatus) is a PUT on
    the task's address whose body is [{completed: !currentStatus}]; and on
    the list [[{id:1, description:"buy milk", completed:false}]],
    ToggleComplete(1, false) answered by
    [{id:1, description:"buy milk", completed:true}] leaves the list
    [[{id:1, description:"buy milk", completed:true}]]. *)
Theorem toggle_sends_negation_and_scenario :
  (forall (w : World) (taskId : value) (currentStatus : bool),
      handleToggleComplete taskId (VBool currentStatus) w
      = (mkWorld (mem w) (st w)
                 (log w ++ [Fetch PUT (url_task taskId)
                              (Some (JObject [("completed",
                                               JBool (negb currentStatus))]))]),
         Normal Awaiting))
  /\ reify 2 (mem buy_milk_world) (tasks (st buy_milk_world))
     = Some (JArray [buy_milk false])
  /\ (let w' := exec (round_trip (handleToggleComplete (VNumber 1) (VBool false))
                                 (handleToggleComplete_resume (st buy_milk_world))
                                 (success (buy_milk true))) buy_milk_world in
      reify 2 (mem w') (tasks (st w')) = Some (JArray [buy_milk true])
      /\ log w' = log buy_milk_world
                    ++ [Fetch PUT (url_task (VNumber 1))
                          (Some (JObject [("completed", JBool true)]))]).
Proof.
  split; [|split; [|split]].
  - intros w taskId currentStatus. reflexivity.
  - reflexivity.
  - reflexivity.
  - reflexivity.
Qed.

(** Two successful responses applied one after the other, for a task at
    position [i] whose id both carry. *)
Lemma toggle_two_responses
    (w : World) (env1 env2 : State) (r1 r2 : response)
    (ms1 ms2 : list (string * json)) (es : list value)
    (i : nat) (task tid : value) :
  tasks env1 = tasks (st w) ->
  tasks env2 = tasks (st w) ->
  entries (mem w) (tasks (st w)) = Some es ->
  Forall (fun task => is_object (mem w) task = true) es ->
  ok r1 = true -> body r1 = Some (JObject ms1) ->
  ok r2 = true -> body r2 = Some (JObject ms2) ->
  let w1 := exec (handleToggleComplete_resume env1 (Resolved r1)) w in
  let first := (parse (JObject ms1) (mem w)).1 in
  let second := (parse (JObject ms2) (mem w1)).1 in
  es !! i = Some task ->
  prop (mem w) "id" task = tid ->
  prop (parse (JObject ms1) (mem w)).2 "id" first = tid ->
  prop (parse (JObject ms2) (mem w1)).2 "id" second = tid ->
  (let w2 := exec (handleToggleComplete_resume env2 (Resolved r2)) w1 in
   exists es', entries (mem w2) (tasks (st w2)) = Some es' /\ es' !! i = Some second)
  /\ (let w2 := exec (handleToggleComplete_resume (st w1) (Resolved r2)) w1 in
      exists es', entries (mem w2) (tasks (st w2)) = Some es' /\ es' !! i = Some second).
Proof.
  intros Henv1 Henv2 Hes Hobj Hok1 Hbody1 Hok2 Hbody2 w1 first second
         Hi Htask Hfirst Hsecond.
  rewrite <- Henv1 in Hes.
  destruct (toggle_resume_entries env1 w r1 ms1 es Hok1 Hbody1 Hes Hobj)
    as (Hext1 & Hext1' & Hobj1 & Hst1 & _ & Hentries1).
  fold w1 in Hext1, Hext1', Hst1, Hentries1. fold first in Hobj1, Hentries1.
  assert (Forall (fun task => is_object (mem w1) task = true) es) as Hobj'.
  { eapply Forall_impl; [exact Hobj|]. intros e. by apply is_object_extends. }
  assert (prop (mem w1) "id" first = tid) as Hfirst'.
  { by rewrite (prop_extends _ _ _ _ Hext1' Hobj1). }
  split.
  - intros w2.
    assert (entries (mem w1) (tasks env2) = Some es) as Hes2.
    { rewrite Henv2, <- Henv1. exact (entries_extends _ _ _ _ Hext1 Hes). }
    destruct (toggle_resume_entries env2 w1 r2 ms2 es Hok2 Hbody2 Hes2 Hobj')
      as (_ & Hext2' & Hobj2 & _ & _ & Hentries2).
    fold w2 in Hext2', Hentries2. fold second in Hobj2, Hentries2.
    eexists. split; [exact Hentries2|].
    rewrite list_lookup_fmap, Hi. simpl.
    rewrite (prop_extends _ _ _ _ Hext1 (Forall_lookup_is_object _ _ _ _ Hobj Hi)).
    rewrite (prop_extends _ _ _ _ Hext2' Hobj2).
    by rewrite Htask, Hsecond, strict_eq_refl.
  - intros w2.
    set (es1 := (fun task =>
                   if strict_eq (prop (mem w) "id" task) (prop (mem w1) "id" first)
                   then first else task) <$> es) in *.
    assert (Forall (fun task => is_object (mem w1) task = true) es1) as Hobj1'.
    { unfold es1. rewrite Forall_fmap. eapply Forall_impl; [exact Hobj'|].
      intros e He. simpl. destruct (strict_eq _ _); [|done].
      by eapply is_object_extends. }
    destruct (toggle_resume_entries (st w1) w1 r2 ms2 es1 Hok2 Hbody2 Hentries1 Hobj1')
      as (_ & Hext2' & Hobj2 & _ & _ & Hentries2).
    fold w2 in Hext2', Hentries2. fold second in Hobj2, Hentries2.
    eexists. split; [exact Hentries2|].
    rewrite list_lookup_fmap. unfold es1 at 1. rewrite list_lookup_fmap, Hi. simpl.
    rewrite Htask, Hfirst', strict_eq_refl, Hfirst'.
    rewrite (prop_extends _ _ _ _ Hext2' Hobj2).
    by rewrite Hsecond, strict_eq_refl.
Qed.

(** C8.  Two toggles of the task at position [i] are called one after the
    other, and then the two successful responses, both carrying a Task with
    that task's id, are applied in their order of arrival, whichever call
    each answers: whether the handler resumed second still holds the list
    both calls were made from, or holds the list the first response left,
    the entry at position [i] of the final list is the Task of the response
    applied second. *)
Theorem toggle_last_response_wins
    (w0 : World) (env1 env2 : State)
    (taskId1 status1 taskId2 status2 : value) (r1 r2 : response)
    (ms1 ms2 : list (string * json)) (es : list value)
    (i : nat) (task tid : value) :
  tasks env1 = tasks (st w0) ->
  tasks env2 = tasks (st w0) ->
  entries (mem w0) (tasks (st w0)) = Some es ->
  Forall (fun task => is_object (mem w0) task = true) es ->
  ok r1 = true -> body r1 = Some (JObject ms1) ->
  ok r2 = true -> body r2 = Some (JObject ms2) ->
  let w := exec (handleToggleComplete taskId2 status2)
                (exec (handleToggleComplete taskId1 status1) w0) in
  let w1 := exec (handleToggleComplete_resume env1 (Resolved r1)) w in
  let first := (parse (JObject ms1) (mem w)).1 in
  let second := (parse (JObject ms2) (mem w1)).1 in
  es !! i = Some task ->
  prop (mem w0) "id" task = tid ->
  prop (parse (JObject ms1) (mem w)).2 "id" first = tid ->
  prop (parse (JObject ms2) (mem w1)).2 "id" second = tid ->
  (let w2 := exec (handleToggleComplete_resume env2 (Resolved r2)) w1 in
   exists es', entries (mem w2) (tasks (st w2)) = Some es' /\ es' !! i = Some second)
  /\ (let w2 := exec (handleToggleComplete_resume (st w1) (Resolved r2)) w1 in
      exists es', entries (mem w2) (tasks (st w2)) = Some es' /\ es' !! i = Some second).
Proof.
  intros Henv1 Henv2 Hes Hobj Hok1 Hbody1 Hok2 Hbody2 w.
  exact (toggle_two_responses w env1 env2 r1 r2 ms1 ms2 es i task tid
                              Henv1 Henv2 Hes Hobj Hok1 Hbody1 Hok2 Hbody2).
Qed.

Lemma toggle_last_response_wins_witness :
  let w := exec (handleToggleComplete (VNumber 1) (VBool false))
                (exec (handleToggleComplete (VNumber 1) (VBool false))
                      buy_milk_world) in
  let w1 := exec (handleToggleComplete_resume (st buy_milk_world)
                                              (success (buy_milk true))) w in
  let second := (parse (buy_milk false) (mem w1)).1 in
  (let w2 := exec (handleToggleComplete_resume (st buy_milk_world)
                                               (success (buy_milk false))) w1 in
   exists es', entries (mem w2) (tasks (st w2)) = Some es' /\ es' !! 0 = Some second)
  /\ (let w2 := exec (handleToggleComplete_resume (st w1)
                                                  (success (buy_milk false))) w1 in
      exists es', entries (mem w2) (tasks (st w2)) = Some es' /\ es' !! 0 = Some second).
Proof.
  apply (toggle_last_response_wins
           buy_milk_world (st buy_milk_world) (st buy_milk_world)
           (VNumber 1) (VBool false) (VNumber 1) (VBool false)
           (mkResponse true 200 "OK" (Some (buy_milk true)))
           (mkResponse true 200 "OK" (Some (buy_milk false)))
           [("id", JNumber 1); ("description", JString "buy milk");
            ("completed", JBool true)]
           [("id", JNumber 1); ("description", JString "buy milk");
            ("completed", JBool false)]
           [VRef 2] 0 (VRef 2) (VNumber 1)).
  - reflexivity.
  - reflexivity.
  - reflexivity.
  - repeat constructor.
  - reflexivity.
  - reflexivity.
  - reflexivity.
  - reflexivity.
  - reflexivity.
  - reflexivity.
  - reflexivity.
  - reflexivity.
Defined.

(** ** Failures of the task operations *)

Lemma is_empty_trim_true s : trim s = "" -> is_empty (trim s) = true.
Proof. intros ->. reflexivity. Qed.

Lemma is_empty_trim_false s : trim s <> "" -> is_empty (trim s) = false.
Proof. intros H. unfold is_empty. by apply String.eqb_neq. Qed.

(** The toggle handler on a response with a non-success status: the body
    is parsed, and the one [console.error] is that of the [else] branch, or
    that of the [catch] when the body is not JSON or is [null]. *)
Lemma toggle_resume_failure env w r :
  ok r = false ->
  handleToggleComplete_resume env (Resolved r) w
  = match body r with
    | None =>
        (mkWorld (mem w) (st w)
                 (log w ++ [ConsoleError "Error toggling task status:"
                                         (OfExn SyntaxError)]),
         Normal tt)
    | Some j =>
        let u := (parse j (mem w)).1 in
        let h := (parse j (mem w)).2 in
        (mkWorld h (st w)
                 (log w ++ [if not_nullish u
                            then ConsoleError "Failed to update task:"
                                   (OfValue (js_or (prop h "message" u)
                                                   (VString (statusText r))))
                            else ConsoleError "Error toggling task status:"
                                   (OfExn TypeError)]),
         Normal tt)
    end.
Proof.
  intros Hok.
  unfold handleToggleComplete_resume, try_catch, bind at 1, settle, ret at 1.
  unfold bind at 1, response_json.
  destruct (body r) as [j|]; [|reflexivity].
  destruct (parse j (mem w)) as [u h1]. simpl. rewrite Hok.
  unfold bind at 1.
  destruct (not_nullish u) eqn:Hu.
  - rewrite get_prop_read by done. reflexivity.
  - by destruct u.
Qed.

(** C3.  On a network error or a non-success status, Task List() and
    ToggleComplete leave the [tasks] cell and every heap cell as they were,
    so the local list is the same; what they add to the effects is their
    one request (no second one: no retry) followed by one [console.error],
    and no [alert]. *)
Theorem task_failures_keep_the_list
    (w : World) (env : State) (taskId currentStatus : value) (o : outcome) :
  failed o = true ->
  (let w' := exec (round_trip fetchTasks fetchTasks_resume o) w in
   tasks (st w') = tasks (st w)
   /\ (forall es, entries (mem w) (tasks (st w)) = Some es ->
                  entries (mem w') (tasks (st w')) = Some es)
   /\ (forall l c, mem w !! l = Some c -> mem w' !! l = Some c)
   /\ exists d, log w' = log w ++ [Fetch GET url_tasks None;
                                   ConsoleError "Failed to fetch tasks:" d])
  /\ (let w' := exec (round_trip (handleToggleComplete taskId currentStatus)
                                 (handleToggleComplete_resume env) o) w in
      tasks (st w') = tasks (st w)
      /\ (forall es, entries (mem w) (tasks (st w)) = Some es ->
                     entries (mem w') (tasks (st w')) = Some es)
      /\ (forall l c, mem w !! l = Some c -> mem w' !! l = Some c)
      /\ exists msg d,
          log w' = log w ++ [Fetch PUT (url_task taskId)
                               (Some (JObject [("completed",
                                                JBool (negb (truthy currentStatus)))]));
                             ConsoleError msg d]).
Proof.
  intros Hfail. split.
  - assert (exec (round_trip fetchTasks fetchTasks_resume o) w
            = mkWorld (mem w) (with_taskLoading false (with_taskLoading true (st w)))
                      ((log w ++ [Fetch GET url_tasks None])
                         ++ [ConsoleError "Failed to fetch tasks:"
                                   (OfExn match o with
                                          | Rejected => NetworkError
                                          | Resolved r => HttpError (status r)
                                          end)])) as ->.
    { destruct o as [|r]; [reflexivity|].
      simpl in Hfail. unfold exec, round_trip, bind at 1. simpl.
      unfold fetchTasks_resume, finally, try_catch, bind at 1. simpl.
      by rewrite Hfail. }
    simpl. repeat split; try done. eexists. by rewrite <- app_assoc.
  - rewrite toggle_round_trip.
    match goal with |- context [exec _ ?w0] => set (wq := w0) end.
    assert (exists h msg d,
               extends (mem w) h
               /\ exec (handleToggleComplete_resume env o) wq
                  = mkWorld h (st w) (log wq ++ [ConsoleError msg d])) as Hrun.
    { destruct o as [|r].
      - exists (mem w). do 2 eexists. split; [apply extends_refl|]. reflexivity.
      - simpl in Hfail. apply Bool.negb_true_iff in Hfail.
        pose proof (toggle_resume_failure env wq r Hfail) as Hrun.
        unfold exec. rewrite Hrun. clear Hrun.
        destruct (body r) as [j|].
        + pose proof (parse_extends j (mem wq)) as Hext.
          destruct (parse j (mem wq)) as [u h1]. simpl in Hext |- *.
          exists h1. destruct (not_nullish u); by do 2 eexists.
        + exists (mem w). do 2 eexists. split; [apply extends_refl|]. reflexivity. }
    destruct Hrun as (h & msg & d & Hext & ->). simpl.
    split; [done|]. split; [|split].
    + intros es. by apply entries_extends.
    + intros l c. by apply extends_lookup.
    + exists msg, d. by rewrite <- app_assoc.
Qed.

Lemma task_failures_keep_the_list_witness :
  (let w' := exec (round_trip fetchTasks fetchTasks_resume Rejected)
                  buy_milk_world in
   tasks (st w') = tasks (st buy_milk_world)
   /\ (forall es, entries (mem buy_milk_world) (tasks (st buy_milk_world)) = Some es ->
                  entries (mem w') (tasks (st w')) = Some es)
   /\ (forall l c, mem buy_milk_world !! l = Some c -> mem w' !! l = Some c)
   /\ exists d, log w' = log buy_milk_world
                           ++ [Fetch GET url_tasks None;
                               ConsoleError "Failed to fetch tasks:" d])
  /\ (let w' := exec (round_trip (handleToggleComplete (VNumber 1) (VBool false))
                                 (handleToggleComplete_resume (st buy_milk_world))
                                 Rejected) buy_milk_world in
      tasks (st w') = tasks (st buy_milk_world)
      /\ (forall es, entries (mem buy_milk_world) (tasks (st buy_milk_world)) = Some es ->
                     entries (mem w') (tasks (st w')) = Some es)
      /\ (forall l c, mem buy_milk_world !! l = Some c -> mem w' !! l = Some c)
      /\ exists msg d,
          log w' = log buy_milk_world
                     ++ [Fetch PUT (url_task (VNumber 1))
                           (Some (JObject [("completed",
                                            JBool (negb (truthy (VBool false))))]));
                         ConsoleError msg d]).
Proof.
  apply (task_failures_keep_the_list
           buy_milk_world (st buy_milk_world) (VNumber 1) (VBool false) Rejected).
  reflexivity.
Defined.

(** ** Creating: validation and requests *)

(** C4.  A task Create whose description is empty once trimmed, and a user
    Create with at least one of its three fields empty once trimmed: the
    call ends at once, the heap and every state cell are as before, and the
    only effect is one [alert]; no request is sent, and whatever the network
    would have answered plays no part. *)
Theorem empty_input_is_rejected_locally (w : World) (env : State) :
  (trim (newTaskDescription env) = "" ->
   handleAddTask env w
   = (mkWorld (mem w) (st w)
              (log w ++ [Alert "Task description cannot be empty!" None]),
      Normal Returned)
   /\ forall o,
       exec (round_trip (handleAddTask env) (handleAddTask_resume env) o) w
       = mkWorld (mem w) (st w)
                 (log w ++ [Alert "Task description cannot be empty!" None]))
  /\ (trim (newUsername env) = ""
      \/ trim (newUserEmail env) = ""
      \/ trim (newUserPassword env) = "" ->
      handleCreateUser env w
      = (mkWorld (mem w) (st w)
                 (log w ++ [Alert "All user fields are required!" None]),
         Normal Returned)
      /\ forall o,
          exec (round_trip (handleCreateUser env) (handleCreateUser_resume env) o) w
          = mkWorld (mem w) (st w)
                    (log w ++ [Alert "All user fields are required!" None])).
Proof.
  split.
  - intros Hempty.
    assert (handleAddTask env w
            = (mkWorld (mem w) (st w)
                       (log w ++ [Alert "Task description cannot be empty!" None]),
               Normal Returned)) as Hcall.
    { unfold handleAddTask. by rewrite is_empty_trim_true. }
    split; [exact Hcall|].
    intros o. unfold exec, round_trip, bind. by rewrite Hcall.
  - intros Hempty.
    assert (handleCreateUser env w
            = (mkWorld (mem w) (st w)
                       (log w ++ [Alert "All user fields are required!" None]),
               Normal Returned)) as Hcall.
    { unfold handleCreateUser.
      assert (is_empty (trim (newUsername env))
              || is_empty (trim (newUserEmail env))
              || is_empty (trim (newUserPassword env)) = true) as ->; [|done].
      destruct Hempty as [H|[H|H]]; rewrite (is_empty_trim_true _ H);
        by rewrite ?orb_true_r. }
    split; [exact Hcall|].
    intros o. unfold exec, round_trip, bind. by rewrite Hcall.
Qed.

Lemma empty_input_is_rejected_locally_witness :
  let env := mkState (VRef 0) "   " false (VRef 1) "alice" " " "secret" false "tasks" in
  (handleAddTask env initial
   = (mkWorld (mem initial) (st initial)
              (log initial ++ [Alert "Task description cannot be empty!" None]),
      Normal Returned)
   /\ forall o,
       exec (round_trip (handleAddTask env) (handleAddTask_resume env) o) initial
       = mkWorld (mem initial) (st initial)
                 (log initial ++ [Alert "Task description cannot be empty!" None]))
  /\ (handleCreateUser env initial
      = (mkWorld (mem initial) (st initial)
                 (log initial ++ [Alert "All user fields are required!" None]),
         Normal Returned)
      /\ forall o,
          exec (round_trip (handleCreateUser env) (handleCreateUser_resume env) o)
               initial
          = mkWorld (mem initial) (st initial)
                    (log initial ++ [Alert "All user fields are required!" None])).
Proof.
  pose proof (empty_input_is_rejected_locally
                initial
                (mkState (VRef 0) "   " false (VRef 1) "alice" " " "secret" false
                         "tasks")) as [Htask Huser].
  split.
  - apply Htask. reflexivity.
  - apply Huser. right. left. reflexivity.
Defined.

(** C9.  Both creation requests carry the field values as typed: when the
    description is not empty once trimmed, the POST to the tasks address
    has the body [{description}] with the raw description, and when the
    three user fields are not empty once trimmed, the POST to the users
    address has the body [{username, email, password}] with the raw values;
    so a value with white space around it is not sent trimmed. *)
Theorem create_requests_send_raw_values (w : World) (env : State) :
  (trim (newTaskDescription env) <> "" ->
   handleAddTask env w
   = (mkWorld (mem w) (st w)
              (log w ++ [Fetch POST url_tasks
                           (Some (JObject [("description",
                                            JString (newTaskDescription env))]))]),
      Normal Awaiting)
   /\ (trim (newTaskDescription env) <> newTaskDescription env ->
       JObject [("description", JString (newTaskDescription env))]
       <> JObject [("description", JString (trim (newTaskDescription env)))]))
  /\ (trim (newUsername env) <> "" ->
      trim (newUserEmail env) <> "" ->
      trim (newUserPassword env) <> "" ->
      handleCreateUser env w
      = (mkWorld (mem w) (st w)
                 (log w ++ [Fetch POST url_users
                              (Some (JObject
                                       [("username", JString (newUsername env));
                                        ("email", JString (newUserEmail env));
                                        ("password", JString (newUserPassword env))]))]),
         Normal Awaiting)
      /\ (trim (newUsername env) <> newUsername env
          \/ trim (newUserEmail env) <> newUserEmail env
          \/ trim (newUserPassword env) <> newUserPassword env ->
          JObject [("username", JString (newUsername env));
                   ("email", JString (newUserEmail env));
                   ("password", JString (newUserPassword env))]
          <> JObject [("username", JString (trim (newUsername env)));
                      ("email", JString (trim (newUserEmail env)));
                      ("password", JString (trim (newUserPassword env)))])).
Proof.
  split.
  - intros Hd. split.
    + unfold handleAddTask. by rewrite is_empty_trim_false.
    + intros Hne [= Heq]. by apply Hne.
  - intros Hu He Hp. split.
    + unfold handleCreateUser. by rewrite !is_empty_trim_false.
    + intros Hne [= H1 H2 H3]. destruct Hne as [H|[H|H]]; by apply H.
Qed.

Lemma create_requests_send_raw_values_witness :
  let env := mkState (VRef 0) "  buy milk " false (VRef 1)
                     " alice" "a@x.com " " secret " false "tasks" in
  (handleAddTask env initial
   = (mkWorld (mem initial) (st initial)
              (log initial ++ [Fetch POST url_tasks
                                 (Some (JObject [("description",
                                                  JString "  buy milk ")]))]),
      Normal Awaiting)
   /\ JObject [("description", JString "  buy milk ")]
      <> JObject [("description", JString (trim "  buy milk "))])
  /\ (handleCreateUser env initial
      = (mkWorld (mem initial) (st initial)
                 (log initial ++ [Fetch POST url_users
                                    (Some (JObject
                                             [("username", JString " alice");
                                              ("email", JString "a@x.com ");
                                              ("password", JString " secret ")]))]),
         Normal Awaiting)
      /\ JObject [("username", JString " alice");
                  ("email", JString "a@x.com ");
                  ("password", JString " secret ")]
         <> JObject [("username", JString (trim " alice"));
                     ("email", JString (trim "a@x.com "));
                     ("password", JString (trim " secret "))]).
Proof.
  pose proof (create_requests_send_raw_values
                initial
                (mkState (VRef 0) "  buy milk " false (VRef 1)
                         " alice" "a@x.com " " secret " false "tasks"))
    as [Htask Huser].
  split.
  - destruct Htask as [Hcall Hraw]; [vm_compute; discriminate|].
    split; [exact Hcall|]. apply Hraw. vm_compute. discriminate.
  - destruct Huser as [Hcall Hraw]; [vm_compute; discriminate..|].
    split; [exact Hcall|]. apply Hraw. left. vm_compute. discriminate.
Defined.

(** ** Creating a user *)

Lemma spread_read v es w :
  entries (mem w) v = Some es -> spread v w = (w, Normal es).
Proof.
  destruct v as [| | | | |l]; unfold entries, spread; try discriminate.
  destruct (mem w !! l) as [[ps|es0]|]; try discriminate. by intros [= ->].
Qed.

Lemma bind_normal {A B} (m : M A) (k : A -> M B) w w' a :
  m w = (w', Normal a) -> bind m k w = k a w'.
Proof. intros H. unfold bind. by rewrite H. Qed.

Lemma bind_thrown {A B} (m : M A) (k : A -> M B) w w' e :
  m w = (w', Thrown e) -> bind m k w = (w', Thrown e).
Proof. intros H. unfold bind. by rewrite H. Qed.

Lemma response_json_read r j w :
  body r = Some j ->
  response_json r w
  = (mkWorld (parse j (mem w)).2 (st w) (log w), Normal (parse j (mem w)).1).
Proof.
  intros H. unfold response_json. rewrite H. by destruct (parse j (mem w)).
Qed.

(** [setUsers(prevUsers => [...prevUsers, newUser])] on a list. *)
Lemma setUsers_append newUser es w :
  entries (mem w) (users (st w)) = Some es ->
  setUsers_with (fun prevUsers =>
                   let* es := spread prevUsers in
                   alloc (Arr (es ++ [newUser]))) w
  = (mkWorld (mem w ++ [Arr (es ++ [newUser])])
             (with_users (VRef (List.length (mem w))) (st w))
             (log w),
     Normal tt).
Proof.
  intros Hes. unfold setUsers_with.
  rewrite (bind_normal _ _ w w es) by (by apply spread_read).
  reflexivity.
Qed.

(** The world after a successful answer to the creation request. *)
Lemma create_user_resume_success env w r j es :
  ok r = true ->
  body r = Some j ->
  entries (mem w) (users (st w)) = Some es ->
  handleCreateUser_resume env (Resolved r) w
  = (mkWorld ((parse j (mem w)).2 ++ [Arr (es ++ [(parse j (mem w)).1])])
             (with_userLoading true
                (with_newUserPassword ""
                   (with_newUserEmail ""
                      (with_newUsername ""
                         (with_users (VRef (List.length (parse j (mem w)).2))
                                     (st w))))))
             (log w ++ [Fetch GET url_users None]),
     Normal tt).
Proof.
  intros Hok Hbody Hes.
  pose proof (parse_extends j (mem w)) as Hext.
  unfold handleCreateUser_resume, try_catch.
  rewrite (bind_normal _ _ w w r) by reflexivity.
  rewrite Hok. cbn [negb].
  rewrite (bind_normal _ _ _ _ _ (response_json_read r j w Hbody)).
  erewrite bind_normal by (apply setUsers_append; by eapply entries_extends).
  reflexivity.
Qed.



(** ** Creating a task *)

(** [tasks.push(newTask); setTasks(tasks); setNewTaskDescription('')] after
    a successful answer: the array the handler holds is extended in place
    and stays the value of the cell. *)
Lemma add_task_resume_success env w r j a es :
  ok r = true ->
  body r = Some j ->
  tasks env = VRef a ->
  mem w !! a = Some (Arr es) ->
  handleAddTask_resume env (Resolved r) w
  = (mkWorld (<[a := Arr (es ++ [(parse j (mem w)).1])]> (parse j (mem w)).2)
             (with_newTaskDescription "" (with_tasks (VRef a) (st w)))
             (log w),
     Normal tt).
Proof.
  intros Hok Hbody Ha Hes.
  pose proof (parse_extends j (mem w)) as Hext.
  unfold handleAddTask_resume, try_catch.
  rewrite (bind_normal _ _ w w r) by reflexivity.
  rewrite Hok. cbn [negb].
  rewrite (bind_normal _ _ _ _ _ (response_json_read r j w Hbody)).
  rewrite Ha. unfold bind at 1, array_push. cbn [mem].
  rewrite (extends_lookup _ _ _ _ Hext Hes). reflexivity.
Qed.




(** ** Listing the users *)

(** [fetchUsers] never looks at [response.ok]: whatever the status, a body
    that is JSON becomes the value of the [users] cell, and nothing is
    logged. *)
Lemma fetchUsers_resume_any_status r j w :
  body r = Some j ->
  fetchUsers_resume (Resolved r) w
  = (mkWorld (parse j (mem w)).2
             (with_userLoading false (with_users (parse j (mem w)).1 (st w)))
             (log w),
     Normal tt).
Proof.
  intros Hbody. unfold fetchUsers_resume, finally, try_catch.
  rewrite (bind_normal _ _ w w r) by reflexivity.
  rewrite (bind_normal _ _ _ _ _ (response_json_read r j w Hbody)).
  reflexivity.
Qed.

(** What does hold of User List(): when the request is rejected by the
    network, or the body of the answer is not JSON, the [users] cell and
    the heap are untouched and one [console.error] is recorded. *)
Lemma fetchUsers_resume_rejected_or_not_json o w :
  match o with Rejected => True | Resolved r => body r = None end ->
  exists e,
    fetchUsers_resume o w
    = (mkWorld (mem w) (with_userLoading false (st w))
               (log w ++ [ConsoleError "Failed to fetch users:" (OfExn e)]),
       Normal tt).
Proof.
  destruct o as [|r]; intros H.
  - by exists NetworkError.
  - exists SyntaxError. unfold fetchUsers_resume, finally, try_catch.
    rewrite (bind_normal _ _ w w r) by reflexivity.
    unfold bind, response_json. by rewrite H.
Qed.

(** C2, at a failing input.  With [[alice]] as the local user list, a
    User List() answered with status 500 and the JSON body
    [{message: "Internal Server Error"}] makes that body the value of the
    [users] cell and records no diagnostic: the effects are the request
    alone.  Task List() on the same answer keeps its list and logs. *)
Theorem fetchUsers_non_success_replaces_the_list :
  let o := Resolved (mkResponse false 500 "Internal Server Error"
                       (Some (JObject [("message",
                                        JString "Internal Server Error")]))) in
  let w' := exec (round_trip fetchUsers fetchUsers_resume o) alice_world in
  let t' := exec (round_trip fetchTasks fetchTasks_resume o) buy_milk_world in
  failed o = true
  /\ reify 2 (mem alice_world) (users (st alice_world)) = Some (JArray [alice])
  /\ reify 2 (mem w') (users (st w'))
     = Some (JObject [("message", JString "Internal Server Error")])
  /\ users (st w') <> users (st alice_world)
  /\ log w' = log alice_world ++ [Fetch GET url_users None]
  /\ tasks (st t') = tasks (st buy_milk_world)
  /\ log t' = log buy_milk_world
                ++ [Fetch GET url_tasks None;
                    ConsoleError "Failed to fetch tasks:" (OfExn (HttpError 500))].
Proof.
  repeat split; try reflexivity. vm_compute. discriminate.
Qed.

(** * Further properties of the handlers *)

(** ** The loading flags *)

(** X1.  The loading flag of a list is set by the call of its fetch and
    cleared when the request settles, whatever the outcome: rejection, any
    status, a body that is JSON or not. *)
Theorem loading_flags_follow_the_fetch (w : World) (o : outcome) :
  taskLoading (st (exec fetchTasks w)) = true
  /\ taskLoading (st (exec (round_trip fetchTasks fetchTasks_resume o) w)) = false
  /\ userLoading (st (exec fetchUsers w)) = true
  /\ userLoading (st (exec (round_trip fetchUsers fetchUsers_resume o) w)) = false.
Proof.
  split; [reflexivity|]. split; [|split; [reflexivity|]].
  - destruct o as [|[[] code text [j|]]]; try reflexivity.
    unfold exec, round_trip, bind at 1. cbn -[parse].
    unfold fetchTasks_resume, finally, try_catch, bind, response_json.
    cbn -[parse]. by destruct (parse j _).
  - destruct o as [|[okay code text [j|]]]; try reflexivity.
    unfold exec, round_trip, bind at 1. cbn -[parse].
    unfold fetchUsers_resume, finally, try_catch, bind, response_json.
    cbn -[parse]. by destruct (parse j _).
Qed.

(** ** Task creation that fails *)

Lemma add_task_resume_no_data env o w :
  no_data o = true ->
  exists e,
    handleAddTask_resume env o w
    = (mkWorld (mem w) (st w)
               (log w ++ [ConsoleError "Failed to add task:" (OfExn e)]),
       Normal tt).
Proof.
  destruct o as [|[[] code text [j|]]]; cbn; intros H; try discriminate.
  - by exists NetworkError.
  - by exists SyntaxError.
  - by exists (HttpError code).
  - by exists (HttpError code).
Qed.

(** X2.  A task Create with a valid description whose request is rejected,
    or answered with a non-success status or with a body that is not JSON:
    the heap and every state cell are as before, so the list is unchanged
    and the typed description stays in the input cell; the effects are the
    POST and one [console.error], with no [alert]. *)
Theorem create_task_failure_keeps_list_and_input
    (w : World) (env : State) (o : outcome) :
  trim (newTaskDescription env) <> "" ->
  no_data o = true ->
  let w' := exec (round_trip (handleAddTask env) (handleAddTask_resume env) o) w in
  mem w' = mem w
  /\ st w' = st w
  /\ exists e,
      log w' = log w ++ [Fetch POST url_tasks
                           (Some (JObject [("description",
                                            JString (newTaskDescription env))]));
                         ConsoleError "Failed to add task:" (OfExn e)].
Proof.
  intros Hd Ho w'.
  assert (exists e,
             w' = mkWorld (mem w) (st w)
                          ((log w ++ [Fetch POST url_tasks
                                        (Some (JObject [("description",
                                                         JString (newTaskDescription env))]))])
                             ++ [ConsoleError "Failed to add task:" (OfExn e)]))
    as [e ->].
  { unfold w', exec, round_trip, bind at 1, handleAddTask.
    rewrite is_empty_trim_false by done.
    unfold bind at 1, fetch, emit, ret at 1.
    match goal with |- context [handleAddTask_resume env o ?w0] =>
      destruct (add_task_resume_no_data env o w0 Ho) as [e He]; rewrite He
    end.
    by exists e. }
  repeat split. exists e. cbn. by rewrite <- app_assoc.
Qed.

Lemma create_task_failure_keeps_list_and_input_witness :
  let env := with_newTaskDescription "walk" (st buy_milk_world) in
  let w := mkWorld (mem buy_milk_world) env (log buy_milk_world) in
  let o := Resolved (mkResponse false 503 "Service Unavailable" None) in
  let w' := exec (round_trip (handleAddTask env) (handleAddTask_resume env) o) w in
  mem w' = mem w
  /\ st w' = st w
  /\ exists e,
      log w' = log w ++ [Fetch POST url_tasks
                           (Some (JObject [("description", JString "walk")]));
                         ConsoleError "Failed to add task:" (OfExn e)].
Proof.
  apply (create_task_failure_keeps_list_and_input
           (mkWorld (mem buy_milk_world)
                    (with_newTaskDescription "walk" (st buy_milk_world))
                    (log buy_milk_world))
           (with_newTaskDescription "walk" (st buy_milk_world))
           (Resolved (mkResponse false 503 "Service Unavailable" None))).
  - vm_compute. discriminate.
  - reflexivity.
Defined.

(** ** User creation that fails *)

Lemma detail_message_read errorData w :
  not_nullish errorData = true ->
  detail_message errorData w = (w, Normal (error_message (mem w) errorData)).
Proof.
  intros H. unfold detail_message, error_message.
  rewrite (bind_normal _ _ w w _ (get_prop_read errorData "detail" w H)).
  destruct (prop (mem w) "detail" errorData) as [| | | | |l] eqn:Hd;
    try reflexivity.
  by rewrite get_prop_read.
Qed.

(** The creation handler on a response with a non-success status. *)
Lemma create_user_resume_failure env w r :
  ok r = false ->
  handleCreateUser_resume env (Resolved r) w
  = match body r with
    | None =>
        (mkWorld (mem w) (st w)
                 (log w ++ [ConsoleError "Error creating user:" (OfExn SyntaxError);
                            Alert "An unexpected error occurred while creating user."
                                  None]),
         Normal tt)
    | Some j =>
        let errorData := (parse j (mem w)).1 in
        let h := (parse j (mem w)).2 in
        (mkWorld h (st w)
                 (log w
                    ++ ConsoleError "Failed to create user:" (OfValue errorData)
                    :: (if not_nullish errorData
                        then [Alert "Error creating user: "
                                    (Some (js_or (error_message h errorData)
                                                 (VString "Unknown error")))]
                        else [ConsoleError "Error creating user:" (OfExn TypeError);
                              Alert "An unexpected error occurred while creating user."
                                    None])),
         Normal tt)
    end.
Proof.
  intros Hok. unfold handleCreateUser_resume, try_catch.
  rewrite (bind_normal _ _ w w r) by reflexivity.
  rewrite Hok. cbn [negb].
  destruct (body r) as [j|] eqn:Hbody.
  - rewrite (bind_normal _ _ _ _ _ (response_json_read r j w Hbody)).
    cbv zeta. destruct (parse j (mem w)) as [errorData h]. cbn [fst snd].
    unfold bind at 1, console_error, emit. cbn [mem st log].
    destruct (not_nullish errorData) eqn:Hnn.
    + erewrite bind_normal by (by apply detail_message_read).
      cbn. by rewrite <- app_assoc.
    + destruct errorData; try discriminate; cbn;
        unfold alert, emit; cbn; by rewrite <- !app_assoc.
  - unfold bind, response_json. rewrite Hbody. cbn.
    unfold alert, emit. cbn. by rewrite <- ?app_assoc.
Qed.

Lemma create_user_resume_failure_shape env o w :
  failed o = true ->
  exists h ds a,
    handleCreateUser_resume env o w
    = (mkWorld h (st w) (log w ++ ds ++ [a]), Normal tt)
    /\ extends (mem w) h
    /\ 1 <= List.length ds <= 2
    /\ Forall (fun e => is_console_error e = true) ds
    /\ is_alert a = true.
Proof.
  intros Ho. destruct o as [|r].
  - exists (mem w), [ConsoleError "Error creating user:" (OfExn NetworkError)],
           (Alert "An unexpected error occurred while creating user." None).
    split; [|split; [apply extends_refl|split; [cbn; lia|by repeat constructor]]].
    cbn. unfold alert, emit. cbn. by rewrite <- app_assoc.
  - cbn in Ho. apply Bool.negb_true_iff in Ho.
    rewrite (create_user_resume_failure env w r Ho).
    destruct (body r) as [j|].
    + pose proof (parse_extends j (mem w)) as Hext. cbv zeta.
      destruct (parse j (mem w)) as [errorData h]. cbn [fst snd] in *.
      exists h. destruct (not_nullish errorData).
      * eexists [_], _. split; [reflexivity|]. split; [done|].
        split; [cbn; lia|by repeat constructor].
      * eexists [_; _], _. split; [reflexivity|]. split; [done|].
        split; [cbn; lia|by repeat constructor].
    + exists (mem w). eexists [_], _. split; [reflexivity|].
      split; [apply extends_refl|split; [cbn; lia|by repeat constructor]].
Qed.

(** X3.  A user Create with valid fields whose request is rejected or
    answered with a non-success status: no state cell changes (the list and
    the three typed fields stay), no existing heap cell changes, and the
    effects after the POST are one [console.error], or two of them, and
    then one [alert], which ends the effects; in particular the collection
    is not fetched again. *)
Theorem create_user_failure_alerts_and_keeps_state
    (w : World) (env : State) (o : outcome) :
  trim (newUsername env) <> "" ->
  trim (newUserEmail env) <> "" ->
  trim (newUserPassword env) <> "" ->
  failed o = true ->
  let w' := exec (round_trip (handleCreateUser env) (handleCreateUser_resume env) o)
                 w in
  st w' = st w
  /\ (forall l c, mem w !! l = Some c -> mem w' !! l = Some c)
  /\ exists ds a,
      log w' = log w ++ [Fetch POST url_users
                           (Some (JObject
                                    [("username", JString (newUsername env));
                                     ("email", JString (newUserEmail env));
                                     ("password", JString (newUserPassword env))]))]
                     ++ ds ++ [a]
      /\ 1 <= List.length ds <= 2
      /\ Forall (fun e => is_console_error e = true) ds
      /\ is_alert a = true.
Proof.
  intros Hu He Hp Ho w'.
  set (wq := mkWorld (mem w) (st w)
                     (log w ++ [Fetch POST url_users
                                  (Some (JObject
                                           [("username", JString (newUsername env));
                                            ("email", JString (newUserEmail env));
                                            ("password", JString (newUserPassword env))]))])).
  assert (w' = exec (handleCreateUser_resume env o) wq) as ->.
  { unfold w', exec, round_trip, bind at 1, handleCreateUser.
    by rewrite !is_empty_trim_false by done. }
  destruct (create_user_resume_failure_shape env o wq Ho)
    as (h & ds & a & Hrun & Hext & Hne & Hds & Ha).
  unfold exec. rewrite Hrun. cbn [fst mem st log wq] in *.
  split; [done|].
  split; [intros l c; exact (extends_lookup _ _ l c Hext)|].
  exists ds, a. split; [by rewrite <- app_assoc|]. done.
Qed.

Lemma create_user_failure_alerts_and_keeps_state_witness :
  let env := mkState (VRef 0) "" false (VRef 1) "alice" "a@x.com" "secret" false
                     "users" in
  let w := mkWorld (mem initial) env (log initial) in
  let w' := exec (round_trip (handleCreateUser env) (handleCreateUser_resume env)
                             Rejected) w in
  st w' = st w
  /\ (forall l c, mem w !! l = Some c -> mem w' !! l = Some c)
  /\ exists ds a,
      log w' = log w ++ [Fetch POST url_users
                           (Some (JObject
                                    [("username", JString "alice");
                                     ("email", JString "a@x.com");
                                     ("password", JString "secret")]))]
                     ++ ds ++ [a]
      /\ 1 <= List.length ds <= 2
      /\ Forall (fun e => is_console_error e = true) ds
      /\ is_alert a = true.
Proof.
  apply (create_user_failure_alerts_and_keeps_state
           (mkWorld (mem initial)
                    (mkState (VRef 0) "" false (VRef 1) "alice" "a@x.com" "secret"
                             false "users")
                    (log initial))
           (mkState (VRef 0) "" false (VRef 1) "alice" "a@x.com" "secret" false
                    "users")
           Rejected).
  - vm_compute. discriminate.
  - vm_compute. discriminate.
  - vm_compute. discriminate.
  - reflexivity.
Defined.

(** *** The message shown *)

Lemma parse_members_grow (ms : list (string * json)) ps h :
  extends h (parse_members parse ms ps h).2.
Proof.
  apply parse_members_extends, Forall_forall. intros m _ h0. apply parse_extends.
Qed.

(** Where a member of a parsed object comes from: it is the value [parse]
    gave for the last member of that name, in a heap between the one the
    object was parsed in and the one it was left in. *)
Lemma parse_members_member k (ms : list (string * json)) :
  forall ps h,
    match member k ms with
    | Some j =>
        exists h0,
          extends h h0
          /\ assoc k (parse_members parse ms ps h).1 = Some (parse j h0).1
          /\ extends (parse j h0).2 (parse_members parse ms ps h).2
    | None => assoc k (parse_members parse ms ps h).1 = assoc k ps
    end.
Proof.
  induction ms as [|[k' j] ms IH]; intros ps h; simpl; [done|].
  pose proof (parse_extends j h) as Hj.
  destruct (parse j h) as [v0 h1] eqn:Ej. simpl in Hj.
  specialize (IH (set_prop k' v0 ps) h1).
  destruct (member k ms) as [j'|].
  - destruct IH as (h0 & Hext & Hassoc & Hext').
    exists h0. split; [by eapply extends_trans|done].
  - destruct (String.eqb k k') eqn:E.
    + apply String.eqb_eq in E. subst k'. exists h.
      split; [apply extends_refl|]. rewrite Ej. simpl.
      split; [by rewrite IH, assoc_set_prop_eq|apply parse_members_grow].
    + rewrite IH. by apply assoc_set_prop_ne.
Qed.

Lemma parse_object_cell (ms : list (string * json)) h :
  (parse (JObject ms) h).1 = VRef (List.length (parse_members parse ms [] h).2)
  /\ (parse (JObject ms) h).2
     = (parse_members parse ms [] h).2 ++ [Obj (parse_members parse ms [] h).1].
Proof. simpl. by destruct (parse_members parse ms [] h). Qed.

Lemma prop_parsed_object (ms : list (string * json)) h k :
  prop (parse (JObject ms) h).2 k (parse (JObject ms) h).1
  = default VUndefined (assoc k (parse_members parse ms [] h).1).
Proof.
  destruct (parse_object_cell ms h) as [-> ->]. unfold prop.
  rewrite lookup_app_r by lia. by rewrite Nat.sub_diag.
Qed.

(** The message read from the parsed body of an error answer. *)
Lemma error_message_parsed (ms : list (string * json)) h :
  let errorData := (parse (JObject ms) h).1 in
  let h' := (parse (JObject ms) h).2 in
  (match member "detail" ms with
   | None => True
   | Some j => is_Some (primitive j)
   end -> error_message h' errorData = VUndefined)
  /\ (forall ds m,
         member "detail" ms = Some (JObject ds) ->
         member "message" ds = Some (JString m) ->
         error_message h' errorData = VString m).
Proof.
  intros errorData h'. unfold error_message.
  unfold errorData, h'. rewrite prop_parsed_object.
  pose proof (parse_members_member "detail" ms [] h) as Hm.
  split.
  - intros Hd. destruct (member "detail" ms) as [j|].
    + destruct Hd as [v Hv]. destruct Hm as (h0 & _ & -> & _).
      rewrite (parse_primitive _ _ _ Hv). simpl.
      destruct j; simpl in Hv; try discriminate; by injection Hv as <-.
    + by rewrite Hm.
  - intros ds m Hd Hmsg. rewrite Hd in Hm.
    destruct Hm as (h0 & _ & -> & Hext). cbn [from_option id].
    destruct (parse_object ds h0) as (l & ps & Hl & _ & Hps).
    rewrite Hl. cbn [not_nullish]. rewrite <- Hl.
    apply (parse_object_prop ds h0 _ "message" (JString m) (VString m) Hmsg eq_refl).
    destruct (parse_object_cell ms h) as [_ ->].
    eapply extends_trans; [exact Hext|apply extends_snoc].
Qed.

(** X4.  The alert of a user Create answered with a non-success status and
    a JSON object: when the body has no [detail] member, or a [detail] that
    is not an object or array, the alert ends with 'Unknown error'; when
    [detail] is an object whose [message] is a non-empty string, the alert
    ends with that message.  The alert is the last effect. *)
Theorem create_user_error_message
    (w : World) (env : State) (r : response) (members : list (string * json)) :
  trim (newUsername env) <> "" ->
  trim (newUserEmail env) <> "" ->
  trim (newUserPassword env) <> "" ->
  ok r = false ->
  body r = Some (JObject members) ->
  let w' := exec (round_trip (handleCreateUser env) (handleCreateUser_resume env)
                             (Resolved r)) w in
  (match member "detail" members with
   | None => True
   | Some j => is_Some (primitive j)
   end ->
   last (log w') = Some (Alert "Error creating user: "
                               (Some (VString "Unknown error"))))
  /\ (forall ds m,
         member "detail" members = Some (JObject ds) ->
         member "message" ds = Some (JString m) ->
         m <> "" ->
         last (log w') = Some (Alert "Error creating user: " (Some (VString m)))).
Proof.
  intros Hu He Hp Hok Hbody w'.
  set (wq := mkWorld (mem w) (st w)
                     (log w ++ [Fetch POST url_users
                                  (Some (JObject
                                           [("username", JString (newUsername env));
                                            ("email", JString (newUserEmail env));
                                            ("password", JString (newUserPassword env))]))])).
  assert (w' = exec (handleCreateUser_resume env (Resolved r)) wq) as ->.
  { unfold w', exec, round_trip, bind at 1, handleCreateUser.
    by rewrite !is_empty_trim_false by done. }
  unfold exec. rewrite (create_user_resume_failure env wq r Hok), Hbody.
  cbv zeta. cbn [mem wq].
  destruct (parse_object members (mem w)) as (l & ps & Hl & _ & _).
  destruct (error_message_parsed members (mem w)) as [Hnone Hsome].
  cbv zeta in Hnone, Hsome.
  rewrite Hl. cbn [not_nullish fst log]. rewrite <- Hl.
  split.
  - intros Hd. rewrite (Hnone Hd). by rewrite last_app.
  - intros ds m Hd Hmsg Hne. rewrite (Hsome ds m Hd Hmsg).
    rewrite last_app. unfold js_or, truthy.
    by rewrite (proj2 (String.eqb_neq m "") Hne).
Qed.

Lemma create_user_error_message_witness :
  let env := mkState (VRef 0) "" false (VRef 1) "alice" "a@x.com" "secret" false
                     "users" in
  let w := mkWorld (mem initial) env (log initial) in
  let answer := [("detail", JObject [("message", JString "Username taken")])] in
  let w' := exec (round_trip (handleCreateUser env) (handleCreateUser_resume env)
                             (Resolved (mkResponse false 400 "Bad Request"
                                                   (Some (JObject answer))))) w in
  last (log w') = Some (Alert "Error creating user: "
                              (Some (VString "Username taken"))).
Proof.
  refine (proj2 (create_user_error_message
                   (mkWorld (mem initial)
                            (mkState (VRef 0) "" false (VRef 1) "alice" "a@x.com"
                                     "secret" false "users")
                            (log initial))
                   (mkState (VRef 0) "" false (VRef 1) "alice" "a@x.com" "secret"
                            false "users")
                   (mkResponse false 400 "Bad Request"
                               (Some (JObject [("detail",
                                                JObject [("message",
                                                          JString "Username taken")])])))
                   [("detail", JObject [("message", JString "Username taken")])]
                   _ _ _ _ _)
                [("message", JString "Username taken")] "Username taken" _ _ _).
  - vm_compute. discriminate.
  - vm_compute. discriminate.
  - vm_compute. discriminate.
  - reflexivity.
  - reflexivity.
  - reflexivity.
  - reflexivity.
  - discriminate.
Defined.

(** ** What the operations leave alone *)

Section frame.
Context {T : Type} (side : State -> T) (a : value).

Lemma leaves_ret {A} (x : A) : leaves side a (ret x).
Proof. by intros w. Qed.

Lemma leaves_throw {A} e : leaves side a (@throw A e).
Proof. by intros w. Qed.

Lemma leaves_emit e : leaves side a (emit e).
Proof. by intros w. Qed.

Lemma leaves_bind {A B} (m : M A) (k : A -> M B) :
  leaves side a m -> (forall x, leaves side a (k x)) -> leaves side a (bind m k).
Proof.
  intros Hm Hk w. unfold bind. specialize (Hm w).
  destruct (m w) as [w1 [x|e]]; [|done].
  specialize (Hk x w1). cbn [fst] in *. destruct Hm as [Hs Hh], Hk as [Hs' Hh'].
  split; [by rewrite Hs', Hs|]. intros l c Hl Hc. by apply Hh', Hh.
Qed.

Lemma leaves_try_catch {A} (m : M A) (h : exn -> M A) :
  leaves side a m -> (forall e, leaves side a (h e)) -> leaves side a (try_catch m h).
Proof.
  intros Hm Hh w. unfold try_catch. specialize (Hm w).
  destruct (m w) as [w1 [x|e]]; [done|].
  specialize (Hh e w1). cbn [fst] in *. destruct Hm as [Hs Hc], Hh as [Hs' Hc'].
  split; [by rewrite Hs', Hs|]. intros l c Hl Hcell. by apply Hc', Hc.
Qed.

Lemma leaves_finally {A} (m : M A) (f : M unit) :
  leaves side a m -> leaves side a f -> leaves side a (finally m f).
Proof.
  intros Hm Hf w. unfold finally. specialize (Hm w).
  destruct (m w) as [w1 r]. specialize (Hf w1). cbn [fst] in *.
  destruct Hm as [Hs Hc], Hf as [Hs' Hc'].
  assert (side (st (f w1).1) = side (st w)
          /\ forall l c, VRef l <> a -> mem w !! l = Some c ->
                         mem (f w1).1 !! l = Some c) as Hgoal.
  { split; [by rewrite Hs', Hs|]. intros l c Hl Hcell. by apply Hc', Hc. }
  by destruct (f w1) as [w2 [[]|e]].
Qed.

Lemma leaves_set_state (f : State -> State) :
  (forall s, side (f s) = side s) -> leaves side a (set_state f).
Proof. intros Hf w. split; [apply Hf|done]. Qed.

Lemma leaves_alloc o : leaves side a (alloc o).
Proof.
  intros w. split; [done|]. intros l c _ Hc. cbn. by apply lookup_app_l_Some.
Qed.

Lemma leaves_get_prop v k : leaves side a (get_prop v k).
Proof.
  intros w. unfold get_prop.
  destruct v as [| | | | |l]; try done. by destruct (mem w !! l) as [[]|].
Qed.

Lemma leaves_array_elems v : leaves side a (array_elems v).
Proof.
  intros w. unfold array_elems.
  destruct v as [| | | | |l]; try done. by destruct (mem w !! l) as [[]|].
Qed.

Lemma leaves_spread v : leaves side a (spread v).
Proof.
  intros w. unfold spread.
  destruct v as [| | | | |l]; try done. by destruct (mem w !! l) as [[]|].
Qed.

Lemma leaves_for_each {A B} (f : A -> M B) xs :
  (forall x, leaves side a (f x)) -> leaves side a (for_each f xs).
Proof.
  intros Hf. induction xs as [|x xs IH]; simpl; [apply leaves_ret|].
  apply leaves_bind; [apply Hf|]. intros y.
  apply leaves_bind; [apply IH|]. intros ys. apply leaves_ret.
Qed.

Lemma leaves_array_map f v :
  (forall x, leaves side a (f x)) -> leaves side a (array_map f v).
Proof.
  intros Hf. unfold array_map.
  apply leaves_bind; [apply leaves_array_elems|]. intros es.
  apply leaves_bind; [by apply leaves_for_each|]. intros es'. apply leaves_alloc.
Qed.

Lemma leaves_array_push x : leaves side a (array_push a x).
Proof.
  intros w. unfold array_push.
  destruct a as [| | | | |l]; try done.
  destruct (mem w !! l) as [[ps|es]|] eqn:E; try done.
  split; [done|]. intros l' c Hl Hc. cbn.
  rewrite list_lookup_insert_ne; [done|]. intros ->. by apply Hl.
Qed.

Lemma leaves_settle o : leaves side a (settle o).
Proof. destruct o; [apply leaves_throw|apply leaves_ret]. Qed.

Lemma leaves_response_json r : leaves side a (response_json r).
Proof.
  unfold response_json. destruct (body r) as [j|]; [|apply leaves_throw].
  intros w. pose proof (parse_extends j (mem w)) as Hext.
  destruct (parse j (mem w)) as [v h]. cbn in *.
  split; [done|]. intros l c _. by apply extends_lookup.
Qed.

Lemma leaves_round_trip call resume o :
  leaves side a call -> leaves side a (resume o) ->
  leaves side a (round_trip call resume o).
Proof.
  intros Hc Hr. unfold round_trip. apply leaves_bind; [done|].
  intros [|]; [apply leaves_ret|done].
Qed.
End frame.

Ltac frame_step :=
  lazymatch goal with
  | |- leaves _ _ (match ?b with _ => _ end) => destruct b
  | |- leaves _ _ (round_trip _ _ _) => apply leaves_round_trip
  | |- leaves _ _ (finally _ _) => apply leaves_finally
  | |- leaves _ _ (try_catch _ _) => apply leaves_try_catch
  | |- leaves _ _ (bind _ _) => apply leaves_bind
  | |- leaves _ _ (settle _) => apply leaves_settle
  | |- leaves _ _ (response_json _) => apply leaves_response_json
  | |- leaves _ _ (array_map _ _) => apply leaves_array_map
  | |- leaves _ _ (array_push _ _) => apply leaves_array_push
  | |- leaves _ _ (array_elems _) => apply leaves_array_elems
  | |- leaves _ _ (get_prop _ _) => apply leaves_get_prop
  | |- leaves _ _ (spread _) => apply leaves_spread
  | |- leaves _ _ (alloc _) => apply leaves_alloc
  | |- leaves _ _ (emit _) => apply leaves_emit
  | |- leaves _ _ (ret _) => apply leaves_ret
  | |- leaves _ _ (throw _) => apply leaves_throw
  | |- leaves _ _ (set_state _) => apply leaves_set_state; intros ?; reflexivity
  | |- forall _, _ => intros ?
  end.

Ltac frame := repeat frame_step.

Lemma replace_by_id_leaves {T} (side : State -> T) a u task :
  leaves side a (replace_by_id u task).
Proof. unfold replace_by_id. frame. Qed.

Lemma fetchTasks_leaves_user_side o :
  leaves user_side VUndefined (round_trip fetchTasks fetchTasks_resume o).
Proof.
  unfold fetchTasks, fetchTasks_resume, fetch, console_error,
    setTasks, setTaskLoading.
  frame.
Qed.

Lemma toggle_leaves_user_side env taskId currentStatus o :
  leaves user_side VUndefined
         (round_trip (handleToggleComplete taskId currentStatus)
                     (handleToggleComplete_resume env) o).
Proof.
  unfold handleToggleComplete, handleToggleComplete_resume, fetch, console_error,
    setTasks.
  frame. apply replace_by_id_leaves.
Qed.

Lemma add_task_leaves_user_side env o :
  leaves user_side (tasks env)
         (round_trip (handleAddTask env) (handleAddTask_resume env) o).
Proof.
  unfold handleAddTask, handleAddTask_resume, fetch, alert, console_error,
    setTasks, setNewTaskDescription.
  apply leaves_round_trip.
  - frame.
  - frame.
Qed.

(** X5.  The three task operations, whatever the outcome of their request
    and whatever list their handler holds, leave the cells of the user side
    (the user list cell, the three user fields, the user loading flag, the
    view flag) as they were.  Task List() and ToggleComplete change no
    existing heap cell; task Create changes none but the array its handler
    holds. *)
Theorem task_operations_leave_user_side
    (w : World) (env : State) (taskId currentStatus : value) (o : outcome) :
  (let w' := exec (round_trip fetchTasks fetchTasks_resume o) w in
   user_side (st w') = user_side (st w)
   /\ forall l c, mem w !! l = Some c -> mem w' !! l = Some c)
  /\ (let w' := exec (round_trip (handleToggleComplete taskId currentStatus)
                                 (handleToggleComplete_resume env) o) w in
      user_side (st w') = user_side (st w)
      /\ forall l c, mem w !! l = Some c -> mem w' !! l = Some c)
  /\ (let w' := exec (round_trip (handleAddTask env) (handleAddTask_resume env) o)
                     w in
      user_side (st w') = user_side (st w)
      /\ forall l c, VRef l <> tasks env -> mem w !! l = Some c ->
                     mem w' !! l = Some c).
Proof.
  split; [|split].
  - destruct (fetchTasks_leaves_user_side o w) as [Hs Hc].
    split; [exact Hs|]. intros l c. by apply Hc.
  - destruct (toggle_leaves_user_side env taskId currentStatus o w) as [Hs Hc].
    split; [exact Hs|]. intros l c. by apply Hc.
  - exact (add_task_leaves_user_side env o w).
Qed.

Lemma setUsers_with_leaves_task_side a (f : value -> M value) :
  (forall v, leaves task_side a (f v)) -> leaves task_side a (setUsers_with f).
Proof.
  intros Hf w. unfold setUsers_with. specialize (Hf (users (st w)) w).
  by destruct (f (users (st w)) w) as [w1 [v|e]].
Qed.

Lemma detail_message_leaves {T} (side : State -> T) a errorData :
  leaves side a (detail_message errorData).
Proof. unfold detail_message. frame. Qed.

Lemma fetchUsers_call_leaves_task_side : leaves task_side VUndefined fetchUsers.
Proof. unfold fetchUsers, fetch, setUserLoading. frame. Qed.

Lemma fetchUsers_leaves_task_side o :
  leaves task_side VUndefined (round_trip fetchUsers fetchUsers_resume o).
Proof.
  apply leaves_round_trip; [apply fetchUsers_call_leaves_task_side|].
  unfold fetchUsers_resume, console_error, setUsers, setUserLoading. frame.
Qed.

Lemma create_user_leaves_task_side env o :
  leaves task_side VUndefined
         (round_trip (handleCreateUser env) (handleCreateUser_resume env) o).
Proof.
  unfold handleCreateUser, handleCreateUser_resume, fetch, alert, alert_with,
    console_error, setNewUsername, setNewUserEmail, setNewUserPassword.
  apply leaves_round_trip.
  - frame.
  - frame.
    + apply detail_message_leaves.
    + apply setUsers_with_leaves_task_side. frame.
    + apply fetchUsers_call_leaves_task_side.
Qed.

(** X6.  The two user operations, whatever the outcome of their request,
    leave the cells of the task side (the task list cell, the description
    field, the task loading flag, the view flag) as they were and change no
    existing heap cell, so the task list is untouched. *)
Theorem user_operations_leave_task_side
    (w : World) (env : State) (o : outcome) :
  (let w' := exec (round_trip fetchUsers fetchUsers_resume o) w in
   task_side (st w') = task_side (st w)
   /\ forall l c, mem w !! l = Some c -> mem w' !! l = Some c)
  /\ (let w' := exec (round_trip (handleCreateUser env) (handleCreateUser_resume env)
                                 o) w in
      task_side (st w') = task_side (st w)
      /\ forall l c, mem w !! l = Some c -> mem w' !! l = Some c).
Proof.
  split.
  - destruct (fetchUsers_leaves_task_side o w) as [Hs Hc].
    split; [exact Hs|]. intros l c. by apply Hc.
  - destruct (create_user_leaves_task_side env o w) as [Hs Hc].
    split; [exact Hs|]. intros l c. by apply Hc.
Qed.

(** ** Responses applied by handlers of an earlier render *)

Lemma is_object_in_heap h v : is_object h v = true -> in_heap h v = true.
Proof.
  destruct v as [| | | | |l]; try done. unfold is_object, in_heap.
  destruct (h !! l) as [c|] eqn:E; [|done]. intros _.
  apply bool_decide_eq_true. by eapply lookup_lt_Some.
Qed.

Lemma parse_object_fresh (ms : list (string * json)) h v :
  in_heap h v = true -> v <> (parse (JObject ms) h).1.
Proof.
  destruct (parse_object ms h) as (l & ps & -> & Hl & _).
  intros Hin ->. unfold in_heap in Hin. apply bool_decide_eq_true in Hin. lia.
Qed.

(** X19.  A toggle answered successfully with a Task, for a handler that
    holds an array of Task objects, be it the local list or the list of an
    earlier render: no existing heap cell changes, no cell but [tasks]
    changes, nothing is logged, and the new local list is the handler's
    list with the returned Task at every position whose entry has the
    returned Task's id and the very same reference at every other position;
    it has the handler's entries unchanged when none has that id. *)
Theorem toggle_success_maps_the_list_of_its_render
    (w : World) (env : State) (r : response)
    (members : list (string * json)) (es : list value) :
  entries (mem w) (tasks env) = Some es ->
  Forall (fun task => is_object (mem w) task = true) es ->
  ok r = true ->
  body r = Some (JObject members) ->
  let w' := exec (handleToggleComplete_resume env (Resolved r)) w in
  let updatedTask := (parse (JObject members) (mem w)).1 in
  (forall l o, mem w !! l = Some o -> mem w' !! l = Some o)
  /\ st w' = with_tasks (tasks (st w')) (st w)
  /\ log w' = log w
  /\ exists es',
      entries (mem w') (tasks (st w')) = Some es'
      /\ List.length es' = List.length es
      /\ (forall i task,
             es !! i = Some task ->
             (prop (mem w) "id" task = prop (mem w') "id" updatedTask ->
              es' !! i = Some updatedTask)
             /\ (prop (mem w) "id" task <> prop (mem w') "id" updatedTask ->
                 es' !! i = Some task))
      /\ (Forall (fun task => prop (mem w) "id" task
                              <> prop (mem w') "id" updatedTask) es ->
          es' = es).
Proof.
  intros Hes Hobj Hok Hbody w' updatedTask.
  destruct (toggle_resume_entries env w r members es Hok Hbody Hes Hobj)
    as (Hext & _ & _ & Hst & Hlog & Hentries).
  split; [intros l o Hl; by eapply extends_lookup|].
  split; [exact Hst|]. split; [exact Hlog|].
  eexists. split; [exact Hentries|]. split; [apply length_fmap|]. split.
  - intros i task Hi. rewrite list_lookup_fmap, Hi. simpl.
    split; intros Hid.
    + by rewrite Hid, strict_eq_refl.
    + by rewrite strict_eq_neq.
  - intros Hno. rewrite <- (list_fmap_id es) at 2.
    apply Forall_fmap_ext_1. eapply Forall_impl; [exact Hno|].
    intros task Hid. simpl in Hid |- *. by rewrite strict_eq_neq.
Qed.

Lemma toggle_success_maps_the_list_of_its_render_witness :
  let w := exec (handleToggleComplete_resume (st two_tasks_world)
                                             (success (buy_milk true)))
                two_tasks_world in
  let w' := exec (handleToggleComplete_resume (st two_tasks_world)
                                              (success (walk_dog true))) w in
  let updatedTask := (parse (walk_dog true) (mem w)).1 in
  (forall l o, mem w !! l = Some o -> mem w' !! l = Some o)
  /\ st w' = with_tasks (tasks (st w')) (st w)
  /\ log w' = log w
  /\ exists es',
      entries (mem w') (tasks (st w')) = Some es'
      /\ List.length es' = List.length [VRef 2; VRef 3]
      /\ (forall i task,
             [VRef 2; VRef 3] !! i = Some task ->
             (prop (mem w) "id" task = prop (mem w') "id" updatedTask ->
              es' !! i = Some updatedTask)
             /\ (prop (mem w) "id" task <> prop (mem w') "id" updatedTask ->
                 es' !! i = Some task))
      /\ (Forall (fun task => prop (mem w) "id" task
                              <> prop (mem w') "id" updatedTask)
                 [VRef 2; VRef 3] ->
          es' = [VRef 2; VRef 3]).
Proof.
  apply (toggle_success_maps_the_list_of_its_render
           (exec (handleToggleComplete_resume (st two_tasks_world)
                                              (success (buy_milk true)))
                 two_tasks_world)
           (st two_tasks_world)
           (mkResponse true 200 "OK" (Some (walk_dog true)))
           [("id", JNumber 2); ("description", JString "walk the dog");
            ("completed", JBool true)]
           [VRef 2; VRef 3]).
  - reflexivity.
  - repeat constructor.
  - reflexivity.
  - reflexivity.
Defined.

(** X7.  Two toggles of different tasks made from the same render, both
    answered successfully: the handler resumed second maps over the list of
    that render, so in the final list the position of the first task holds
    its old entry again, and the Task of the first response is nowhere in
    the list. *)
Theorem stale_toggle_drops_the_earlier_toggle
    (w : World) (env1 env2 : State) (r1 r2 : response)
    (ms1 ms2 : list (string * json)) (es : list value) (i : nat) (task : value) :
  tasks env1 = tasks (st w) ->
  tasks env2 = tasks (st w) ->
  entries (mem w) (tasks (st w)) = Some es ->
  Forall (fun task => is_object (mem w) task = true) es ->
  ok r1 = true -> body r1 = Some (JObject ms1) ->
  ok r2 = true -> body r2 = Some (JObject ms2) ->
  let w1 := exec (handleToggleComplete_resume env1 (Resolved r1)) w in
  let w2 := exec (handleToggleComplete_resume env2 (Resolved r2)) w1 in
  let first := (parse (JObject ms1) (mem w)).1 in
  let second := (parse (JObject ms2) (mem w1)).1 in
  es !! i = Some task ->
  prop (mem w) "id" task = prop (parse (JObject ms1) (mem w)).2 "id" first ->
  prop (mem w) "id" task <> prop (parse (JObject ms2) (mem w1)).2 "id" second ->
  (exists es1, entries (mem w1) (tasks (st w1)) = Some es1 /\ es1 !! i = Some first)
  /\ (exists es2, entries (mem w2) (tasks (st w2)) = Some es2
                  /\ es2 !! i = Some task
                  /\ first ∉ es2).
Proof.
  intros Henv1 Henv2 Hes Hobj Hok1 Hbody1 Hok2 Hbody2 w1 w2 first second
         Hi Hid1 Hid2.
  assert (entries (mem w) (tasks env1) = Some es) as Hes1 by by rewrite Henv1.
  destruct (toggle_resume_entries env1 w r1 ms1 es Hok1 Hbody1 Hes1 Hobj)
    as (Hext1 & Hext1' & Hobj1 & _ & _ & Hentries1).
  fold w1 in Hext1, Hext1', Hentries1. fold first in Hobj1, Hentries1.
  assert (Forall (fun task => is_object (mem w1) task = true) es) as Hobj'.
  { eapply Forall_impl; [exact Hobj|]. intros e. by apply is_object_extends. }
  assert (entries (mem w1) (tasks env2) = Some es) as Hes2.
  { rewrite Henv2. exact (entries_extends _ _ _ _ Hext1 Hes). }
  destruct (toggle_resume_entries env2 w1 r2 ms2 es Hok2 Hbody2 Hes2 Hobj')
    as (_ & Hext2' & Hobj2 & _ & _ & Hentries2).
  fold w2 in Hext2', Hentries2. fold second in Hobj2, Hentries2.
  pose proof (Forall_lookup_is_object _ _ _ _ Hobj Hi) as Htask.
  split.
  - eexists. split; [exact Hentries1|].
    rewrite list_lookup_fmap, Hi. simpl.
    rewrite (prop_extends _ _ _ _ Hext1' Hobj1), Hid1. by rewrite strict_eq_refl.
  - eexists. split; [exact Hentries2|]. split.
    + rewrite list_lookup_fmap, Hi. simpl.
      rewrite (prop_extends _ _ _ _ Hext1 Htask).
      rewrite (prop_extends _ _ _ _ Hext2' Hobj2).
      by rewrite strict_eq_neq.
    + intros Hin. apply list_elem_of_fmap in Hin as (e & Heq & He).
      destruct (strict_eq _ _).
      * unfold first, second in Heq. revert Heq.
        apply (parse_object_fresh ms2 (mem w1)).
        apply is_object_in_heap. by eapply is_object_extends.
      * subst e. revert He. rewrite Forall_forall in Hobj.
        intros He. apply (parse_object_fresh ms1 (mem w) first); [|done].
        by apply is_object_in_heap, Hobj.
Qed.

Lemma stale_toggle_drops_the_earlier_toggle_witness :
  let env := st two_tasks_world in
  let w1 := exec (handleToggleComplete_resume env (success (buy_milk true)))
                 two_tasks_world in
  let w2 := exec (handleToggleComplete_resume env (success (walk_dog true))) w1 in
  let first := (parse (buy_milk true) (mem two_tasks_world)).1 in
  (exists es1, entries (mem w1) (tasks (st w1)) = Some es1 /\ es1 !! 0 = Some first)
  /\ (exists es2, entries (mem w2) (tasks (st w2)) = Some es2
                  /\ es2 !! 0 = Some (VRef 2)
                  /\ first ∉ es2).
Proof.
  apply (stale_toggle_drops_the_earlier_toggle
           two_tasks_world (st two_tasks_world) (st two_tasks_world)
           (mkResponse true 200 "OK" (Some (buy_milk true)))
           (mkResponse true 200 "OK" (Some (walk_dog true)))
           [("id", JNumber 1); ("description", JString "buy milk");
            ("completed", JBool true)]
           [("id", JNumber 2); ("description", JString "walk the dog");
            ("completed", JBool true)]
           [VRef 2; VRef 3] 0 (VRef 2)).
  - reflexivity.
  - reflexivity.
  - reflexivity.
  - repeat constructor.
  - reflexivity.
  - reflexivity.
  - reflexivity.
  - reflexivity.
  - reflexivity.
  - reflexivity.
  - vm_compute. discriminate.
Defined.

(** X8.  A task Create and a toggle made from the same render, both
    answered successfully.  If the toggle is answered first, the Create
    then pushes onto the array of that render and makes it the list again:
    the toggled position holds its old entry, followed at the end by the
    new Task.  If the Create is answered first, its push is on the very
    array the toggle handler holds, so the toggle maps over the extended
    list: the toggled position holds the returned Task and the list has one
    entry more than before. *)
Theorem create_and_toggle_from_one_render
    (w : World) (env : State) (rt rc : response)
    (mst msc : list (string * json)) (es : list value) (i : nat) (task : value) :
  tasks env = tasks (st w) ->
  entries (mem w) (tasks (st w)) = Some es ->
  Forall (fun task => is_object (mem w) task = true) es ->
  ok rt = true -> body rt = Some (JObject mst) ->
  ok rc = true -> body rc = Some (JObject msc) ->
  es !! i = Some task ->
  (let w1 := exec (handleToggleComplete_resume env (Resolved rt)) w in
   let w2 := exec (handleAddTask_resume env (Resolved rc)) w1 in
   let newTask := (parse (JObject msc) (mem w1)).1 in
   tasks (st w2) = tasks (st w)
   /\ entries (mem w2) (tasks (st w2)) = Some (es ++ [newTask]))
  /\ (let w1 := exec (handleAddTask_resume env (Resolved rc)) w in
      let w2 := exec (handleToggleComplete_resume env (Resolved rt)) w1 in
      let updatedTask := (parse (JObject mst) (mem w1)).1 in
      prop (mem w) "id" task = prop (parse (JObject mst) (mem w1)).2 "id" updatedTask ->
      exists es2, entries (mem w2) (tasks (st w2)) = Some es2
                  /\ List.length es2 = S (List.length es)
                  /\ es2 !! i = Some updatedTask).
Proof.
  intros Henv Hes Hobj Hokt Hbodyt Hokc Hbodyc Hi.
  destruct (tasks (st w)) as [| | | | |a] eqn:Htasks; try discriminate.
  assert (mem w !! a = Some (Arr es)) as Ha.
  { unfold entries in Hes. by destruct (mem w !! a) as [[]|]; simplify_eq. }
  split.
  - intros w1 w2 newTask.
    assert (entries (mem w) (tasks env) = Some es) as Hes1.
    { rewrite Henv. unfold entries. by rewrite Ha. }
    destruct (toggle_resume_entries env w rt mst es Hokt Hbodyt Hes1 Hobj)
      as (Hext1 & _ & _ & _ & _ & _).
    fold w1 in Hext1.
    pose proof (extends_lookup _ _ _ _ Hext1 Ha) as Ha1.
    pose proof (parse_extends (JObject msc) (mem w1)) as Hextc.
    unfold w2, exec.
    rewrite (add_task_resume_success env w1 rc (JObject msc) a es Hokc Hbodyc Henv Ha1).
    cbn [fst st mem tasks with_newTaskDescription with_tasks]. split; [done|].
    unfold entries. rewrite list_lookup_insert_eq; [done|].
    apply lookup_lt_Some in Ha1. apply extends_length in Hextc. lia.
  - intros w1 w2 updatedTask Hid.
    pose proof (parse_extends (JObject msc) (mem w)) as Hextc.
    destruct (parse_object msc (mem w)) as (lc & psc & Hlc & Hfresh & Hpsc).
    assert (a < List.length (mem w)) as Halt by by eapply lookup_lt_Some.
    assert (w1 = mkWorld (<[a := Arr (es ++ [(parse (JObject msc) (mem w)).1])]>
                            (parse (JObject msc) (mem w)).2)
                         (with_newTaskDescription "" (with_tasks (VRef a) (st w)))
                         (log w)) as Hw1.
    { unfold w1, exec.
      by rewrite (add_task_resume_success env w rc (JObject msc) a es Hokc Hbodyc
                                           Henv Ha). }
    set (newTask := (parse (JObject msc) (mem w)).1) in *.
    set (hc := (parse (JObject msc) (mem w)).2) in *.
    assert (forall l c, l <> a -> hc !! l = Some c -> mem w1 !! l = Some c) as Hkeep.
    { intros l c Hl Hc. rewrite Hw1. cbn [mem]. by rewrite list_lookup_insert_ne. }
    assert (entries (mem w1) (tasks env) = Some (es ++ [newTask])) as Hes1.
    { rewrite Henv, Hw1. unfold entries. cbn [mem].
      rewrite list_lookup_insert_eq; [done|]. apply extends_length in Hextc. lia. }
    assert (forall v, is_object hc v = true -> v <> VRef a ->
                      is_object (mem w1) v = true) as Hobjkeep.
    { intros [| | | | |l] Hv Hne; try done. unfold is_object in *.
      destruct (hc !! l) as [[ps|]|] eqn:E; try done.
      rewrite (Hkeep l (Obj ps)); [done| |done]. intros ->. by apply Hne. }
    assert (forall v k, is_object hc v = true -> prop (mem w1) k v = prop hc k v)
      as Hpropkeep.
    { intros [| | | | |l] k Hv; try done. unfold is_object, prop in *.
      destruct (hc !! l) as [[ps|]|] eqn:E; try done.
      rewrite (Hkeep l (Obj ps)); [done| |done]. intros ->.
      rewrite (extends_lookup _ _ _ _ Hextc Ha) in E. discriminate. }
    assert (forall v, is_object hc v = true -> v <> VRef a) as Hnota.
    { intros v Hv ->. unfold is_object in Hv.
      by rewrite (extends_lookup _ _ _ _ Hextc Ha) in Hv. }
    assert (Forall (fun task => is_object (mem w1) task = true) (es ++ [newTask]))
      as Hobj1.
    { apply Forall_app. split.
      - eapply Forall_impl; [exact Hobj|]. intros e He.
        assert (is_object hc e = true) by (by eapply is_object_extends).
        apply Hobjkeep; [done|by apply Hnota].
      - constructor; [|constructor].
        assert (is_object hc newTask = true) as Hn.
        { rewrite Hlc. unfold is_object. by rewrite Hpsc. }
        apply Hobjkeep; [done|by apply Hnota]. }
    destruct (toggle_resume_entries env w1 rt mst (es ++ [newTask]) Hokt Hbodyt
                                    Hes1 Hobj1)
      as (_ & Hext2' & Hobj2 & _ & _ & Hentries2).
    fold w2 in Hext2', Hentries2. fold updatedTask in Hobj2, Hentries2.
    eexists. split; [exact Hentries2|]. split.
    + rewrite length_fmap, length_app. simpl. lia.
    + rewrite list_lookup_fmap, lookup_app_l by (by eapply lookup_lt_Some).
      rewrite Hi. simpl.
      pose proof (Forall_lookup_is_object _ _ _ _ Hobj Hi) as Htask.
      rewrite (Hpropkeep task "id") by (by eapply is_object_extends).
      rewrite (prop_extends _ _ _ _ Hextc Htask).
      rewrite (prop_extends _ _ _ _ Hext2' Hobj2).
      by rewrite Hid, strict_eq_refl.
Qed.

Lemma create_and_toggle_from_one_render_witness :
  let env := st buy_milk_world in
  (let w1 := exec (handleToggleComplete_resume env (success (buy_milk true)))
                  buy_milk_world in
   let w2 := exec (handleAddTask_resume env (success (walk_dog false))) w1 in
   let newTask := (parse (walk_dog false) (mem w1)).1 in
   tasks (st w2) = tasks (st buy_milk_world)
   /\ entries (mem w2) (tasks (st w2)) = Some ([VRef 2] ++ [newTask]))
  /\ (let w1 := exec (handleAddTask_resume env (success (walk_dog false)))
                     buy_milk_world in
      let w2 := exec (handleToggleComplete_resume env (success (buy_milk true))) w1 in
      let updatedTask := (parse (buy_milk true) (mem w1)).1 in
      exists es2, entries (mem w2) (tasks (st w2)) = Some es2
                  /\ List.length es2 = S (List.length [VRef 2])
                  /\ es2 !! 0 = Some updatedTask).
Proof.
  pose proof (create_and_toggle_from_one_render
                buy_milk_world (st buy_milk_world)
                (mkResponse true 200 "OK" (Some (buy_milk true)))
                (mkResponse true 200 "OK" (Some (walk_dog false)))
                [("id", JNumber 1); ("description", JString "buy milk");
                 ("completed", JBool true)]
                [("id", JNumber 2); ("description", JString "walk the dog");
                 ("completed", JBool false)]
                [VRef 2] 0 (VRef 2)) as H.
  destruct H as [Ha Hb].
  - reflexivity.
  - reflexivity.
  - repeat constructor.
  - reflexivity.
  - reflexivity.
  - reflexivity.
  - reflexivity.
  - reflexivity.
  - split; [exact Ha|]. apply Hb. reflexivity.
Defined.

(** ** Reading back what was parsed *)

Lemma reify_mono d :
  forall h v x d' h',
    reify d h v = Some x -> d <= d' -> extends h h' -> reify d' h' v = Some x.
Proof.
  induction d as [|d IH]; intros h v x d' h' Hr Hd Hext.
  - destruct v; try done; by destruct d'.
  - destruct v as [| | | | |l]; try (by destruct d'); try done.
    destruct d' as [|d']; [lia|]. simpl in Hr |- *.
    destruct (h !! l) as [[ps|es]|] eqn:E; [| |done];
      rewrite (extends_lookup _ _ _ _ Hext E).
    + destruct (mapM _ ps) as [ms|] eqn:Em; [|done]. simpl in Hr.
      injection Hr as <-.
      assert (mapM (fun p => pair p.1 <$> reify d' h' p.2) ps = Some ms) as ->; [|done].
      apply mapM_Some. apply mapM_Some in Em.
      eapply Forall2_impl; [exact Em|]. intros p m Hp. simpl in Hp |- *.
      destruct (reify d h p.2) as [y|] eqn:Ey; [|done].
      rewrite (IH _ _ _ d' h' Ey); [done|lia|done].
    + destruct (mapM _ es) as [js|] eqn:Em; [|done]. simpl in Hr.
      injection Hr as <-.
      assert (mapM (reify d' h') es = Some js) as ->; [|done].
      apply mapM_Some. apply mapM_Some in Em.
      eapply Forall2_impl; [exact Em|]. intros v j Hv.
      apply (IH _ _ _ d' h' Hv); [lia|done].
Qed.

Lemma reads_extends h h' v j : extends h h' -> reads h v j -> reads h' v j.
Proof.
  intros Hext Hr d h'' Hd Hext'. apply Hr; [done|]. by eapply extends_trans.
Qed.

Lemma parse_items_grow (js : list json) h : extends h (parse_items parse js h).2.
Proof.
  apply parse_items_extends, Forall_forall. intros j _ h0. apply parse_extends.
Qed.

Lemma parse_items_reads (items : list json) :
  Forall (fun j => forall h, reads (parse j h).2 (parse j h).1 j) items ->
  forall h,
    Forall2 (reads (parse_items parse items h).2)
            (parse_items parse items h).1 items.
Proof.
  induction 1 as [|j js Hj _ IH]; intros h; simpl; [constructor|].
  specialize (Hj h). destruct (parse j h) as [v h1]. simpl in Hj.
  specialize (IH h1). pose proof (parse_items_grow js h1) as Hext.
  destruct (parse_items parse js h1) as [vs h2]. simpl in *.
  constructor; [|done]. by eapply reads_extends.
Qed.

Lemma set_prop_fresh k v ps : assoc k ps = None -> set_prop k v ps = ps ++ [(k, v)].
Proof.
  induction ps as [|[k' v'] ps IH]; simpl; [done|].
  destruct (String.eqb k k'); [done|]. intros H. by rewrite IH.
Qed.

Lemma assoc_app_None k ps qs :
  assoc k (ps ++ qs) = None <-> assoc k ps = None /\ assoc k qs = None.
Proof.
  induction ps as [|[k' v'] ps IH]; simpl; [by intuition|].
  destruct (String.eqb k k'); [|done]. split; [done|]. by intros [? _].
Qed.

Lemma parse_members_reads (ms : list (string * json)) :
  Forall (fun m => forall h, reads (parse m.2 h).2 (parse m.2 h).1 m.2) ms ->
  NoDup (ms.*1) ->
  forall ps h,
    Forall (fun k => assoc k ps = None) (ms.*1) ->
    exists qs,
      (parse_members parse ms ps h).1 = ps ++ qs
      /\ Forall2 (fun q m => q.1 = m.1
                             /\ reads (parse_members parse ms ps h).2 q.2 m.2)
                 qs ms.
Proof.
  induction 1 as [|[k j] ms Hj _ IH]; intros Hnd ps h Hfresh; simpl.
  - exists []. by rewrite app_nil_r.
  - simpl in Hj, Hnd, Hfresh. apply NoDup_cons in Hnd as [Hk Hnd].
    apply Forall_cons in Hfresh as [Hkfresh Hfresh].
    specialize (Hj h). destruct (parse j h) as [v h1]. simpl in Hj.
    rewrite set_prop_fresh by done.
    destruct (IH Hnd (ps ++ [(k, v)]) h1) as (qs & Hqs & Hall).
    { rewrite Forall_forall in Hfresh |- *. intros k' Hk'.
      apply assoc_app_None. split; [by apply Hfresh|]. simpl.
      destruct (String.eqb k' k) eqn:E; [|done].
      apply String.eqb_eq in E. by subst. }
    exists ((k, v) :: qs). split; [by rewrite Hqs, <- app_assoc|].
    constructor; [|done]. split; [done|]. simpl.
    eapply reads_extends; [apply parse_members_grow|done].
Qed.

Lemma foldr_max_le {A} (f : A -> nat) (xs : list A) x :
  x ∈ xs -> f x <= foldr (fun y n => Nat.max (f y) n) 0 xs.
Proof.
  induction 1 as [x xs|x y xs _ IH]; simpl; lia.
Qed.

(** A plain JSON text, parsed, reads back as itself. *)
Lemma parse_reads (j : json) : plain j = true -> forall h, reads (parse j h).2 (parse j h).1 j.
Proof.
  induction j as [| | | |items IH|members IH] using json_nested_ind;
    intros Hplain h; try (by intros d h' _ _; destruct d).
  - assert (Forall (fun j => forall h, reads (parse j h).2 (parse j h).1 j) items)
      as Hitems.
    { simpl in Hplain. rewrite forallb_forall in Hplain.
      rewrite Forall_forall in IH |- *. intros j Hj. apply IH; [done|].
      apply Hplain. by apply list_elem_of_In. }
    pose proof (parse_items_reads items Hitems h) as Hall. simpl.
    destruct (parse_items parse items h) as [vs h1]. simpl in *.
    intros d h' Hd Hext. simpl in Hd. destruct d as [|d]; [lia|]. simpl.
    rewrite (extends_lookup _ _ (List.length h1) (Arr vs) Hext).
    2:{ rewrite lookup_app_r by lia. by rewrite Nat.sub_diag. }
    assert (mapM (reify d h') vs = Some items) as ->; [|done].
    apply mapM_Some. apply Forall2_same_length_lookup_2.
    { by eapply Forall2_length. }
    intros i v j Hv Hj.
    pose proof (Forall2_lookup_lr _ _ _ _ _ _ Hall Hv Hj) as Hr.
    apply Hr.
    + pose proof (foldr_max_le depth items j) as Hle.
      specialize (Hle ltac:(by eapply list_elem_of_lookup_2)). lia.
    + eapply extends_trans; [apply extends_snoc|done].
  - simpl in Hplain. apply andb_prop in Hplain as [Hnd Hplain].
    apply bool_decide_eq_true in Hnd.
    assert (Forall (fun m => forall h, reads (parse m.2 h).2 (parse m.2 h).1 m.2)
                   members) as Hmembers.
    { rewrite forallb_forall in Hplain.
      rewrite Forall_forall in IH |- *. intros m Hm. apply IH; [done|].
      apply Hplain. by apply list_elem_of_In. }
    destruct (parse_members_reads members Hmembers Hnd [] h) as (qs & Hqs & Hall).
    { by apply Forall_forall. }
    simpl. destruct (parse_members parse members [] h) as [ps h1]. simpl in *.
    subst ps.
    intros d h' Hd Hext. simpl in Hd. destruct d as [|d]; [lia|]. simpl.
    rewrite (extends_lookup _ _ (List.length h1) (Obj qs) Hext).
    2:{ rewrite lookup_app_r by lia. by rewrite Nat.sub_diag. }
    assert (mapM (fun p => pair p.1 <$> reify d h' p.2) qs = Some members) as ->;
      [|done].
    apply mapM_Some. apply Forall2_same_length_lookup_2.
    { by eapply Forall2_length. }
    intros i q m Hq Hm.
    destruct (Forall2_lookup_lr _ _ _ _ _ _ Hall Hq Hm) as [Hname Hr].
    rewrite Hr.
    + simpl. rewrite Hname. by destruct m.
    + pose proof (foldr_max_le (fun m => depth m.2) members m) as Hle.
      specialize (Hle ltac:(by eapply list_elem_of_lookup_2)). simpl in Hle. lia.
    + eapply extends_trans; [apply extends_snoc|done].
Qed.

Lemma exact_plain (j : json) : exact j = true -> plain j = true.
Proof.
  induction j as [| | | |items IH|members IH] using json_nested_ind;
    simpl; try done.
  - rewrite !forallb_forall. rewrite Forall_forall in IH.
    intros H j Hj. apply IH; [by apply list_elem_of_In|by apply H].
  - intros [Hnd H]%andb_prop. rewrite Hnd. simpl.
    rewrite forallb_forall in H |- *. rewrite Forall_forall in IH.
    intros m Hm. apply IH; [by apply list_elem_of_In|].
    by destruct (andb_prop _ _ (H m Hm)).
Qed.

(** ** The lists after a fetch *)

Lemma fetchTasks_resume_success r j w :
  ok r = true ->
  body r = Some j ->
  fetchTasks_resume (Resolved r) w
  = (mkWorld (parse j (mem w)).2
             (with_taskLoading false (with_tasks (parse j (mem w)).1 (st w)))
             (log w),
     Normal tt).
Proof.
  intros Hok Hbody. unfold fetchTasks_resume, finally, try_catch.
  rewrite (bind_normal _ _ w w r) by reflexivity.
  rewrite Hok. cbn [negb].
  rewrite (bind_normal _ _ _ _ _ (response_json_read r j w Hbody)).
  reflexivity.
Qed.

(** X10.  Task List() answered with a success status and a JSON body whose
    numbers are integers a double holds exactly and whose objects repeat no
    member name and have no member name made of digits only: whatever the
    list was, it now reads back as exactly the body; the loading flag is
    off, no existing heap cell has changed, and the only effect is the
    GET. *)
Theorem fetchTasks_success_replaces_the_list (w : World) (r : response) (j : json) :
  ok r = true ->
  body r = Some j ->
  exact j = true ->
  let w' := exec (round_trip fetchTasks fetchTasks_resume (Resolved r)) w in
  reify (depth j) (mem w') (tasks (st w')) = Some j
  /\ taskLoading (st w') = false
  /\ (forall l c, mem w !! l = Some c -> mem w' !! l = Some c)
  /\ log w' = log w ++ [Fetch GET url_tasks None].
Proof.
  intros Hok Hbody Hplain%exact_plain w'.
  assert (w' = mkWorld (parse j (mem w)).2
                       (with_taskLoading false
                          (with_tasks (parse j (mem w)).1
                                      (with_taskLoading true (st w))))
                       (log w ++ [Fetch GET url_tasks None])) as ->.
  { unfold w', exec, round_trip, bind at 1. cbn [fetchTasks].
    unfold fetchTasks, bind at 1, setTaskLoading, set_state.
    unfold bind at 1, fetch, emit, ret at 1.
    by rewrite (fetchTasks_resume_success r j _ Hok Hbody). }
  cbn [mem st log tasks taskLoading with_taskLoading with_tasks].
  split; [|split; [done|split; [|done]]].
  - apply (parse_reads j Hplain (mem w)); [done|apply extends_refl].
  - intros l c. apply extends_lookup, parse_extends.
Qed.

Lemma fetchTasks_success_replaces_the_list_witness :
  let j := JArray [walk_dog true] in
  let w' := exec (round_trip fetchTasks fetchTasks_resume (success j))
                 buy_milk_world in
  reify (depth j) (mem w') (tasks (st w')) = Some j
  /\ taskLoading (st w') = false
  /\ (forall l c, mem buy_milk_world !! l = Some c -> mem w' !! l = Some c)
  /\ log w' = log buy_milk_world ++ [Fetch GET url_tasks None].
Proof.
  apply (fetchTasks_success_replaces_the_list
           buy_milk_world
           (mkResponse true 200 "OK" (Some (JArray [walk_dog true])))
           (JArray [walk_dog true])).
  - reflexivity.
  - reflexivity.
  - reflexivity.
Defined.

(** X11.  The two fetches of the first render are sent in the order tasks,
    users, with both loading flags on.  When both are answered with JSON
    (the tasks with a success status) whose numbers are integers a double
    holds exactly and whose objects repeat no member name and have no
    member name made of digits only, the two lists read back as the two
    bodies and both flags are off, in whichever order the two answers
    arrive; neither answer adds an effect. *)
Theorem mount_fetches_do_not_interfere
    (w : World) (rt ru : response) (jt ju : json) :
  ok rt = true ->
  body rt = Some jt ->
  exact jt = true ->
  body ru = Some ju ->
  exact ju = true ->
  let w0 := exec mount w in
  let arrived (w' : World) :=
    reify (depth jt) (mem w') (tasks (st w')) = Some jt
    /\ reify (depth ju) (mem w') (users (st w')) = Some ju
    /\ taskLoading (st w') = false
    /\ userLoading (st w') = false
    /\ log w' = log w0 in
  log w0 = log w ++ [Fetch GET url_tasks None; Fetch GET url_users None]
  /\ taskLoading (st w0) = true
  /\ userLoading (st w0) = true
  /\ arrived (exec (fetchUsers_resume (Resolved ru))
                   (exec (fetchTasks_resume (Resolved rt)) w0))
  /\ arrived (exec (fetchTasks_resume (Resolved rt))
                   (exec (fetchUsers_resume (Resolved ru)) w0)).
Proof.
  intros Hokt Hbt Hpt%exact_plain Hbu Hpu%exact_plain w0 arrived.
  assert (w0 = mkWorld (mem w)
                       (with_userLoading true (with_taskLoading true (st w)))
                       ((log w ++ [Fetch GET url_tasks None])
                          ++ [Fetch GET url_users None])) as Hw0 by reflexivity.
  split; [by rewrite Hw0; cbn [log]; rewrite <- app_assoc|].
  split; [done|]. split; [done|].
  unfold arrived, exec. split.
  - rewrite (fetchTasks_resume_success rt jt w0 Hokt Hbt). cbn [fst].
    rewrite (fetchUsers_resume_any_status ru ju _ Hbu).
    cbn [fst mem st log tasks users taskLoading userLoading
         with_taskLoading with_tasks with_userLoading with_users].
    repeat split.
    + apply (parse_reads jt Hpt (mem w0)); [done|apply parse_extends].
    + apply (parse_reads ju Hpu); [done|apply extends_refl].
  - rewrite (fetchUsers_resume_any_status ru ju w0 Hbu). cbn [fst].
    rewrite (fetchTasks_resume_success rt jt _ Hokt Hbt).
    cbn [fst mem st log tasks users taskLoading userLoading
         with_taskLoading with_tasks with_userLoading with_users].
    repeat split.
    + apply (parse_reads jt Hpt); [done|apply extends_refl].
    + apply (parse_reads ju Hpu (mem w0)); [done|apply parse_extends].
Qed.

Lemma mount_fetches_do_not_interfere_witness :
  let jt := JArray [buy_milk false] in
  let ju := JArray [alice] in
  let w0 := exec mount initial in
  let arrived (w' : World) :=
    reify (depth jt) (mem w') (tasks (st w')) = Some jt
    /\ reify (depth ju) (mem w') (users (st w')) = Some ju
    /\ taskLoading (st w') = false
    /\ userLoading (st w') = false
    /\ log w' = log w0 in
  log w0 = log initial ++ [Fetch GET url_tasks None; Fetch GET url_users None]
  /\ taskLoading (st w0) = true
  /\ userLoading (st w0) = true
  /\ arrived (exec (fetchUsers_resume (success ju))
                   (exec (fetchTasks_resume (success jt)) w0))
  /\ arrived (exec (fetchTasks_resume (success jt))
                   (exec (fetchUsers_resume (success ju)) w0)).
Proof.
  apply (mount_fetches_do_not_interfere
           initial
           (mkResponse true 200 "OK" (Some (JArray [buy_milk false])))
           (mkResponse true 200 "OK" (Some (JArray [alice])))
           (JArray [buy_milk false]) (JArray [alice])).
  - reflexivity.
  - reflexivity.
  - reflexivity.
  - reflexivity.
  - reflexivity.
Defined.

(** ** The rows of the task list *)

Lemma get_length_array a es w :
  entries (mem w) a = Some es ->
  get_length a w = (w, Normal (VNumber (Z.of_nat (List.length es)))).
Proof.
  destruct a as [| | | | |l]; unfold entries, get_length; try discriminate.
  destruct (mem w !! l) as [[ps|es0]|]; try discriminate. by intros [= ->].
Qed.

Lemma render_task_read index task w :
  not_nullish task = true ->
  render_task index task w
  = (w, Normal (mkTaskRow index task
                          (truthy (prop (mem w) "completed" task))
                          (truthy (prop (mem w) "completed" task))
                          (prop (mem w) "description" task))).
Proof.
  intros H. unfold render_task.
  rewrite (bind_normal _ _ w w _ (get_prop_read task "completed" w H)).
  rewrite (bind_normal _ _ w w _ (get_prop_read task "completed" w H)).
  by rewrite (bind_normal _ _ w w _ (get_prop_read task "description" w H)).
Qed.

Lemma for_each_rows {I} (row : nat -> value -> M I) (pure : nat -> value -> I)
      (es : list value) w :
  (forall i e, e ∈ es -> row i e w = (w, Normal (pure i e))) ->
  forall k,
    for_each (fun p => row p.1 p.2) (imap (fun i => pair (k + i)) es) w
    = (w, Normal (imap (fun i => pure (k + i)) es)).
Proof.
  induction es as [|e es IH]; intros Hrow k; [done|].
  cbn [imap for_each].
  rewrite (bind_normal _ _ w w (pure (k + 0) e)).
  2:{ cbn [fst snd]. apply Hrow. by left. }
  assert (forall l : list value,
             imap ((fun i => pair (k + i)) ∘ S) l = imap (fun i => pair (S k + i)) l)
    as Hshift.
  { intros l. apply imap_ext. intros i x _. cbn. f_equal. lia. }
  rewrite Hshift, (bind_normal _ _ w w _ (IH (fun i x Hx => Hrow i x (list_elem_of_further _ _ _ Hx)) (S k))).
  unfold ret. do 3 f_equal. apply imap_ext. intros i x _. cbn. f_equal. lia.
Qed.

(** What the task list renders to when it is a non-empty array of objects
    and is not loading. *)
Lemma render_tasks_rows env w es :
  taskLoading env = false ->
  entries (mem w) (tasks env) = Some es ->
  es <> [] ->
  Forall (fun task => is_object (mem w) task = true) es ->
  render_list (taskLoading env) "Loading tasks..." "No tasks to display."
              render_task (tasks env) w
  = (w, Normal (ViewRows
                  (imap (fun i task =>
                           mkTaskRow i task
                                     (truthy (prop (mem w) "completed" task))
                                     (truthy (prop (mem w) "completed" task))
                                     (prop (mem w) "description" task)) es))).
Proof.
  intros Hload Hes Hne Hobj. unfold render_list. rewrite Hload.
  rewrite (bind_normal _ _ w w _ (get_length_array _ es w Hes)).
  assert (strict_eq (VNumber (Z.of_nat (List.length es))) (VNumber 0) = false) as ->.
  { apply strict_eq_neq. intros [= H]. destruct es; [done|]. simpl in H. lia. }
  rewrite (bind_normal _ _ w w _ (array_elems_read _ es w Hes)).
  pose proof (for_each_rows render_task
                (fun i task =>
                   mkTaskRow i task
                             (truthy (prop (mem w) "completed" task))
                             (truthy (prop (mem w) "completed" task))
                             (prop (mem w) "description" task)) es w) as Hrows.
  rewrite (bind_normal _ _ w w _ (Hrows
             (fun i e He => render_task_read i e w
                (is_object_not_nullish _ _ (proj1 (Forall_forall _ _) Hobj e He))) 0)).
  reflexivity.
Qed.

(** *** What React accepts *)

Lemma for_each_succeeds {A B} (f : A -> M B) (xs : list A) w :
  (forall x, x ∈ xs -> exists y, f x w = (w, Normal y)) ->
  exists ys, for_each f xs w = (w, Normal ys).
Proof.
  induction xs as [|x xs IH]; intros Hf; [by eexists|].
  destruct (Hf x) as [y Hy]; [by left|].
  destruct IH as [ys Hys]; [intros x' Hx'; apply Hf; by right|].
  exists (y :: ys). cbn [for_each].
  by rewrite (bind_normal _ _ w w y Hy), (bind_normal _ _ w w ys Hys).
Qed.

Lemma for_each_world {A B} (f : A -> M B) (xs : list A) :
  (forall x w, (f x w).1 = w) -> forall w, (for_each f xs w).1 = w.
Proof.
  intros Hf. induction xs as [|x xs IH]; intros w; [done|].
  cbn [for_each]. unfold bind. specialize (Hf x w).
  destruct (f x w) as [w1 [y|e]]; cbn in Hf; subst w1; [|done].
  specialize (IH w). by destruct (for_each f xs w) as [w2 [ys|e]].
Qed.

Lemma is_primitive_valid_child fuel h v :
  is_primitive v = true -> valid_child fuel h v = true.
Proof. by destruct v, fuel. Qed.

Lemma react_child_accepts v w :
  valid_child (List.length (mem w)) (mem w) v = true ->
  react_child v w = (w, Normal tt).
Proof. intros H. unfold react_child. by rewrite H. Qed.

Lemma react_child_world v w : (react_child v w).1 = w.
Proof. unfold react_child. by destruct (valid_child _ _ _). Qed.

Lemma accept_rows_world {I} (accept : I -> M unit) (l : list_view I) :
  (forall row w, (accept row w).1 = w) -> forall w, (accept_rows accept l w).1 = w.
Proof.
  intros Ha w. destruct l as [line|line|rows]; try done.
  unfold accept_rows, bind. pose proof (for_each_world accept rows Ha w) as H.
  by destruct (for_each accept rows w) as [w1 [ys|e]].
Qed.

Lemma accept_user_row_world row w : (accept_user_row row w).1 = w.
Proof.
  unfold accept_user_row, bind.
  pose proof (react_child_world (user_id row) w) as H1.
  destruct (react_child (user_id row) w) as [w1 [[]|e]]; cbn in H1; subst w1; [|done].
  pose proof (react_child_world (user_username row) w) as H2.
  destruct (react_child (user_username row) w) as [w2 [[]|e]]; cbn in H2; subst w2;
    [|done].
  pose proof (react_child_world (user_email row) w) as H3.
  destruct (react_child (user_email row) w) as [w3 [[]|e]]; cbn in H3; subst w3;
    [|done].
  apply react_child_world.
Qed.

(** React's pass changes nothing: it accepts the elements or throws. *)
Lemma reconcile_world v w : (reconcile v w).1 = w.
Proof.
  unfold reconcile, bind.
  assert (forall w, (match tasks_section v with
                     | Some (_, l) => accept_rows accept_task_row l
                     | None => ret tt
                     end w).1 = w) as H1.
  { intros w0. destruct (tasks_section v) as [[d l]|]; [|done].
    apply accept_rows_world. intros row w1. apply react_child_world. }
  assert (forall w, (match users_section v with
                     | Some (_, l) => accept_rows accept_user_row l
                     | None => ret tt
                     end w).1 = w) as H2.
  { intros w0. destruct (users_section v) as [[d l]|]; [|done].
    apply accept_rows_world. intros row w1. apply accept_user_row_world. }
  specialize (H1 w).
  destruct (match tasks_section v with
            | Some (_, l) => accept_rows accept_task_row l
            | None => ret tt
            end w) as [w1 [[]|e]]; cbn in H1; subst w1; [|done].
  apply H2.
Qed.

(** A render that succeeds returns what [App] returned. *)
Lemma render_elements env w w' v :
  render env w = (w', Normal v) -> elements env w = (w', Normal v).
Proof.
  unfold render, bind. destruct (elements env w) as [w1 [v1|e]]; [|done].
  pose proof (reconcile_world v1 w1) as Hw.
  destruct (reconcile v1 w1) as [w2 [[]|e]]; [|done].
  cbn in Hw. subst w2. by intros [= <- <-].
Qed.

(** What [App] throws, the render throws. *)
Lemma render_thrown env w w' e :
  elements env w = (w', Thrown e) -> render env w = (w', Thrown e).
Proof. intros H. unfold render. by apply bind_thrown. Qed.

Lemma render_accepted env w v :
  elements env w = (w, Normal v) ->
  reconcile v w = (w, Normal tt) ->
  render env w = (w, Normal v).
Proof.
  intros He Hr. unfold render. rewrite (bind_normal _ _ _ _ _ He).
  by rewrite (bind_normal _ _ _ _ _ Hr).
Qed.

Lemma accept_task_rows_accepted w (rows : list task_row) :
  Forall (fun row => valid_child (List.length (mem w)) (mem w) (task_text row) = true)
         rows ->
  accept_rows accept_task_row (ViewRows rows) w = (w, Normal tt).
Proof.
  intros H. unfold accept_rows.
  destruct (for_each_succeeds accept_task_row rows w) as [ys Hys].
  { intros row Hrow. exists tt. apply react_child_accepts.
    rewrite Forall_forall in H. by apply H. }
  by rewrite (bind_normal _ _ w w ys Hys).
Qed.

(** Objects are never changed: a property read in a later heap is the one
    read before. *)
Lemma prop_kept h h' k v :
  (forall l ps, h !! l = Some (Obj ps) -> h' !! l = Some (Obj ps)) ->
  is_object h v = true -> prop h' k v = prop h k v.
Proof.
  intros Hk. destruct v as [| | | | |l]; unfold is_object, prop; try discriminate.
  destruct (h !! l) as [[ps|es]|] eqn:E; try discriminate.
  by rewrite (Hk _ _ E).
Qed.

(** X12.  A render with the task section selected and not loading, on a
    non-empty array of Task objects whose descriptions are children React
    accepts, succeeds and returns one row per entry, in order and keyed by
    position; each row has the checked icon and the struck text exactly
    when its task's [completed] is truthy, and the [onClick] of its button,
    whenever it is called afterwards (objects of the heap are never
    changed), sends the PUT for that task's [id] whose body asks for the
    negation of what the row shows, changing nothing else. *)
Theorem task_rows_toggle_their_task (w : World) (env : State) (es : list value) :
  currentView env = "tasks" ->
  taskLoading env = false ->
  entries (mem w) (tasks env) = Some es ->
  es <> [] ->
  Forall (fun task => is_object (mem w) task = true) es ->
  Forall (fun task => valid_child (List.length (mem w)) (mem w)
                                  (prop (mem w) "description" task) = true) es ->
  exists rows,
    render env w
    = (w, Normal (mkView true false
                         (Some (newTaskDescription env, ViewRows rows)) None))
    /\ List.length rows = List.length es
    /\ forall i row,
        rows !! i = Some row ->
        task_key row = i
        /\ es !! i = Some (task_of row)
        /\ task_checked row = truthy (prop (mem w) "completed" (task_of row))
        /\ task_struck row = task_checked row
        /\ forall w',
            (forall l ps, mem w !! l = Some (Obj ps) -> mem w' !! l = Some (Obj ps)) ->
            click_toggle row w'
            = (mkWorld (mem w') (st w')
                       (log w' ++ [Fetch PUT
                                     (url_task (prop (mem w) "id" (task_of row)))
                                     (Some (JObject [("completed",
                                                      JBool (negb (task_checked row)))]))]),
               Normal Awaiting).
Proof.
  intros Hview Hload Hes Hne Hobj Hchild.
  eexists. split; [|split].
  - apply render_accepted.
    + unfold elements. rewrite Hview. cbn [String.eqb Ascii.eqb Bool.eqb].
      rewrite (bind_normal _ _ w w _ (bind_normal _ _ w w _
                 (render_tasks_rows env w es Hload Hes Hne Hobj))).
      reflexivity.
    + unfold reconcile. cbn [tasks_section users_section].
      erewrite bind_normal; [reflexivity|].
      apply accept_task_rows_accepted. apply Forall_forall.
      intros row [i Hrow]%list_elem_of_lookup. rewrite list_lookup_imap in Hrow.
      destruct (es !! i) as [task|] eqn:Hi; [|done]. injection Hrow as <-.
      cbn [task_text]. rewrite Forall_forall in Hchild. apply Hchild.
      by eapply list_elem_of_lookup_2.
  - apply length_imap.
  - intros i row Hrow. rewrite list_lookup_imap in Hrow.
    destruct (es !! i) as [task|] eqn:Hi; [|done]. injection Hrow as <-.
    cbn [task_key task_of task_checked task_struck].
    repeat split; try done.
    intros w' Hkept.
    pose proof (Forall_lookup_is_object _ _ _ _ Hobj Hi) as Htask.
    pose proof (is_object_not_nullish _ _ Htask) as Hnn.
    unfold click_toggle. cbn [task_of].
    rewrite (bind_normal _ _ w' w' _ (get_prop_read task "id" w' Hnn)).
    rewrite (bind_normal _ _ w' w' _ (get_prop_read task "completed" w' Hnn)).
    by rewrite !(prop_kept _ _ _ _ Hkept Htask).
Qed.

Lemma task_rows_toggle_their_task_witness :
  exists rows,
    render (st two_tasks_world) two_tasks_world
    = (two_tasks_world,
       Normal (mkView true false
                      (Some (newTaskDescription (st two_tasks_world), ViewRows rows))
                      None))
    /\ List.length rows = List.length [VRef 2; VRef 3]
    /\ forall i row,
        rows !! i = Some row ->
        task_key row = i
        /\ [VRef 2; VRef 3] !! i = Some (task_of row)
        /\ task_checked row
           = truthy (prop (mem two_tasks_world) "completed" (task_of row))
        /\ task_struck row = task_checked row
        /\ forall w',
            (forall l ps, mem two_tasks_world !! l = Some (Obj ps) ->
                          mem w' !! l = Some (Obj ps)) ->
            click_toggle row w'
            = (mkWorld (mem w') (st w')
                       (log w' ++ [Fetch PUT
                                     (url_task (prop (mem two_tasks_world) "id"
                                                     (task_of row)))
                                     (Some (JObject [("completed",
                                                      JBool (negb (task_checked row)))]))]),
               Normal Awaiting).
Proof.
  apply (task_rows_toggle_their_task two_tasks_world (st two_tasks_world)
                                     [VRef 2; VRef 3]).
  - reflexivity.
  - reflexivity.
  - reflexivity.
  - discriminate.
  - repeat constructor.
  - repeat constructor.
Defined.

(** ** A list cell that holds an object *)

Lemma render_list_object {I} line1 line2 (row : nat -> value -> M I) v w :
  is_object (mem w) v = true ->
  prop (mem w) "length" v <> VNumber 0 ->
  render_list false line1 line2 row v w = (w, Thrown TypeError).
Proof.
  destruct v as [| | | | |l]; try done. unfold is_object, prop.
  destruct (mem w !! l) as [[ps|es]|] eqn:E; try done. intros _ Hlen.
  unfold render_list.
  assert (get_length (VRef l) w = (w, Normal (default VUndefined (assoc "length" ps))))
    as Hget by (unfold get_length; by rewrite E).
  rewrite (bind_normal _ _ w w _ Hget).
  rewrite strict_eq_neq by done.
  apply bind_thrown. unfold array_elems. by rewrite E.
Qed.

Lemma parsed_object_without_length (ms : list (string * json)) h h' :
  member "length" ms = None ->
  extends (parse (JObject ms) h).2 h' ->
  is_object h' (parse (JObject ms) h).1 = true
  /\ prop h' "length" (parse (JObject ms) h).1 <> VNumber 0.
Proof.
  intros Hm Hext.
  destruct (parse_object ms h) as (l & ps & Hl & _ & Hps).
  assert (is_object (parse (JObject ms) h).2 (parse (JObject ms) h).1 = true) as Hobj.
  { rewrite Hl. unfold is_object. by rewrite Hps. }
  split; [by eapply is_object_extends|].
  rewrite (prop_extends _ _ _ _ Hext Hobj), prop_parsed_object.
  pose proof (parse_members_assoc "length" ms [] h) as Ha. rewrite Hm in Ha.
  by rewrite Ha.
Qed.

(** X13.  A list fetch answered with a JSON object that has no [length]
    member (for the tasks, with a success status; for the users, with any
    status) puts that object in the list cell; from then on, rendering the
    section of that list, not loading, throws a [TypeError]: the object has
    no [map]. *)
Theorem list_section_throws_on_object_body
    (w : World) (r : response) (members : list (string * json)) :
  body r = Some (JObject members) ->
  member "length" members = None ->
  (let w' := exec (round_trip fetchUsers fetchUsers_resume (Resolved r)) w in
   forall s, users s = users (st w') -> userLoading s = false ->
             currentView s = "users" ->
             render s w' = (w', Thrown TypeError))
  /\ (ok r = true ->
      let w' := exec (round_trip fetchTasks fetchTasks_resume (Resolved r)) w in
      forall s, tasks s = tasks (st w') -> taskLoading s = false ->
                currentView s = "tasks" ->
                render s w' = (w', Thrown TypeError)).
Proof.
  intros Hbody Hm. split.
  - intros w'.
    assert (w' = mkWorld (parse (JObject members) (mem w)).2
                         (with_userLoading false
                            (with_users (parse (JObject members) (mem w)).1
                                        (with_userLoading true (st w))))
                         (log w ++ [Fetch GET url_users None])) as Hw'.
    { unfold w', exec, round_trip, bind at 1. cbn [fetchUsers].
      unfold fetchUsers, bind at 1, setUserLoading, set_state.
      unfold bind at 1, fetch, emit, ret at 1.
      by rewrite (fetchUsers_resume_any_status r (JObject members) _ Hbody). }
    intros s Hs Hload Hview.
    destruct (parsed_object_without_length members (mem w) (mem w') Hm) as [Hobj Hlen].
    { rewrite Hw'. apply extends_refl. }
    apply render_thrown.
    unfold elements. rewrite Hview. cbn [String.eqb Ascii.eqb Bool.eqb].
    rewrite (bind_normal _ _ w' w' None) by reflexivity.
    apply bind_thrown, bind_thrown. rewrite Hload, Hs.
    apply render_list_object; by rewrite Hw' in *.
  - intros Hok w'.
    assert (w' = mkWorld (parse (JObject members) (mem w)).2
                         (with_taskLoading false
                            (with_tasks (parse (JObject members) (mem w)).1
                                        (with_taskLoading true (st w))))
                         (log w ++ [Fetch GET url_tasks None])) as Hw'.
    { unfold w', exec, round_trip, bind at 1. cbn [fetchTasks].
      unfold fetchTasks, bind at 1, setTaskLoading, set_state.
      unfold bind at 1, fetch, emit, ret at 1.
      by rewrite (fetchTasks_resume_success r (JObject members) _ Hok Hbody). }
    intros s Hs Hload Hview.
    destruct (parsed_object_without_length members (mem w) (mem w') Hm) as [Hobj Hlen].
    { rewrite Hw'. apply extends_refl. }
    apply render_thrown.
    unfold elements. rewrite Hview. cbn [String.eqb Ascii.eqb Bool.eqb].
    apply bind_thrown, bind_thrown. rewrite Hload, Hs.
    apply render_list_object; by rewrite Hw' in *.
Qed.

Lemma list_section_throws_on_object_body_witness :
  let r := mkResponse false 500 "Internal Server Error"
                      (Some (JObject [("message", JString "Internal Server Error")])) in
  let w := mkWorld (mem alice_world) (with_currentView "users" (st alice_world))
                   (log alice_world) in
  let w' := exec (round_trip fetchUsers fetchUsers_resume (Resolved r)) w in
  render (st w') w' = (w', Thrown TypeError).
Proof.
  refine (proj1 (list_section_throws_on_object_body
                   (mkWorld (mem alice_world)
                            (with_currentView "users" (st alice_world))
                            (log alice_world))
                   (mkResponse false 500 "Internal Server Error"
                               (Some (JObject [("message",
                                                JString "Internal Server Error")])))
                   [("message", JString "Internal Server Error")] _ _) _ _ _ _).
  - reflexivity.
  - reflexivity.
  - reflexivity.
  - reflexivity.
  - reflexivity.
Defined.

(** ** What makes React remove the tree *)

Lemma react_child_object v w :
  is_object (mem w) v = true -> react_child v w = (w, Thrown ChildError).
Proof.
  destruct v as [| | | | |l]; try done. unfold is_object, react_child.
  destruct (mem w !! l) as [[ps|es]|] eqn:E; try done. intros _.
  assert (valid_child (List.length (mem w)) (mem w) (VRef l) = false) as ->; [|done].
  destruct (List.length (mem w)); simpl; [done|]. by rewrite E.
Qed.

Lemma react_child_result v w :
  react_child v w = (w, Normal tt) \/ react_child v w = (w, Thrown ChildError).
Proof. unfold react_child. destruct (valid_child _ _ _); auto. Qed.

Lemma for_each_refused {A} (f : A -> M unit) (xs : list A) (x : A) w e :
  (forall y, f y w = (w, Normal tt) \/ f y w = (w, Thrown e)) ->
  x ∈ xs ->
  f x w = (w, Thrown e) ->
  for_each f xs w = (w, Thrown e).
Proof.
  intros Hf Hx Hthrow. induction xs as [|y ys IH]; [by apply elem_of_nil in Hx|].
  cbn [for_each]. destruct (Hf y) as [Hy|Hy].
  - rewrite (bind_normal _ _ w w tt Hy).
    apply elem_of_cons in Hx as [->|Hx]; [congruence|].
    by rewrite (bind_thrown _ _ w w e (IH Hx)).
  - by apply bind_thrown.
Qed.

(** X20.  A render that shows the task list, not loading, when the list is
    an array of objects one of which has a plain object as its
    [description]: [App] returns its elements, one row per entry, and React
    refuses the description as a child; the render throws and, with no
    error boundary, the tree is removed. *)
Theorem object_description_breaks_the_render
    (w : World) (env : State) (es : list value) (i : nat) (task : value) :
  currentView env = "tasks" ->
  taskLoading env = false ->
  entries (mem w) (tasks env) = Some es ->
  Forall (fun task => is_object (mem w) task = true) es ->
  es !! i = Some task ->
  is_object (mem w) (prop (mem w) "description" task) = true ->
  (exists rows,
      elements env w
      = (w, Normal (mkView true false
                           (Some (newTaskDescription env, ViewRows rows)) None))
      /\ List.length rows = List.length es)
  /\ render env w = (w, Thrown ChildError).
Proof.
  intros Hview Hload Hes Hobj Hi Hdesc.
  assert (es <> []) as Hne by (by intros ->).
  pose proof (render_tasks_rows env w es Hload Hes Hne Hobj) as Hrows.
  set (rows := imap (fun i task =>
                       mkTaskRow i task
                                 (truthy (prop (mem w) "completed" task))
                                 (truthy (prop (mem w) "completed" task))
                                 (prop (mem w) "description" task)) es) in *.
  assert (elements env w
          = (w, Normal (mkView true false
                               (Some (newTaskDescription env, ViewRows rows)) None)))
    as Hel.
  { unfold elements. rewrite Hview. cbn [String.eqb Ascii.eqb Bool.eqb].
    by rewrite (bind_normal _ _ w w _ (bind_normal _ _ w w _ Hrows)). }
  split; [exists rows; split; [exact Hel|apply length_imap]|].
  unfold render. rewrite (bind_normal _ _ _ _ _ Hel).
  apply bind_thrown. unfold reconcile. cbn [tasks_section users_section].
  apply bind_thrown. unfold accept_rows. apply bind_thrown.
  apply (for_each_refused accept_task_row rows
           (mkTaskRow i task (truthy (prop (mem w) "completed" task))
                      (truthy (prop (mem w) "completed" task))
                      (prop (mem w) "description" task))).
  - intros row. apply react_child_result.
  - apply list_elem_of_lookup. exists i. unfold rows.
    by rewrite list_lookup_imap, Hi.
  - by apply react_child_object.
Qed.

Lemma object_description_breaks_the_render_witness :
  let w := exec (round_trip fetchTasks fetchTasks_resume
                            (success (JArray [buy_milk false; nested_task])))
                initial in
  (exists rows,
      elements (st w) w
      = (w, Normal (mkView true false
                           (Some (newTaskDescription (st w), ViewRows rows)) None))
      /\ List.length rows = List.length [VRef 2; VRef 4])
  /\ render (st w) w = (w, Thrown ChildError).
Proof.
  apply (object_description_breaks_the_render
           (exec (round_trip fetchTasks fetchTasks_resume
                             (success (JArray [buy_milk false; nested_task])))
                 initial)
           (st (exec (round_trip fetchTasks fetchTasks_resume
                                 (success (JArray [buy_milk false; nested_task])))
                     initial))
           [VRef 2; VRef 4] 1 (VRef 4)).
  - reflexivity.
  - reflexivity.
  - reflexivity.
  - repeat constructor.
  - reflexivity.
  - reflexivity.
Defined.




(** ** The task list in every reachable state *)

Lemma is_record_list_spec h v :
  is_record_list h v = true
  <-> exists es, entries h v = Some es
                 /\ Forall (fun e => is_record h e = true) es.
Proof.
  unfold is_record_list. destruct (entries h v) as [es|].
  - rewrite forallb_forall. split.
    + intros H. exists es. split; [done|]. apply Forall_forall. intros e He.
      apply H. by apply list_elem_of_In.
    + intros (es' & [= <-] & H) e He. rewrite Forall_forall in H. apply H.
      by apply list_elem_of_In.
  - split; [done|]. by intros (es & ? & _).
Qed.

Lemma is_record_object h v : is_record h v = true -> is_object h v = true.
Proof.
  destruct v as [| | | | |l]; try done. unfold is_record, is_object.
  by destruct (h !! l) as [[ps|es]|].
Qed.

Lemma Forall_record_object h es :
  Forall (fun e => is_record h e = true) es ->
  Forall (fun e => is_object h e = true) es.
Proof.
  intros H. eapply Forall_impl; [exact H|]. intros e. apply is_record_object.
Qed.

(** Every property read from a record is primitive. *)
Lemma is_record_prop h k v : is_record h v = true -> is_primitive (prop h k v) = true.
Proof.
  destruct v as [| | | | |l]; try done. unfold is_record, prop.
  destruct (h !! l) as [[ps|es]|]; try done. intros H.
  induction ps as [|[k' v'] ps IH]; [done|]. simpl in H |- *.
  apply andb_prop in H as [Hv Hps]. destruct (String.eqb k k'); [done|by apply IH].
Qed.

Lemma is_record_kept h h' v :
  (forall l ps, h !! l = Some (Obj ps) -> h' !! l = Some (Obj ps)) ->
  is_record h v = true -> is_record h' v = true.
Proof.
  intros Hk. destruct v as [| | | | |l]; try done. unfold is_record.
  destruct (h !! l) as [[ps|es]|] eqn:E; try done. by rewrite (Hk _ _ E).
Qed.

Lemma is_record_extends h h' v :
  extends h h' -> is_record h v = true -> is_record h' v = true.
Proof.
  intros Hext. apply is_record_kept. intros l ps. by apply extends_lookup.
Qed.

Lemma cells_kept_lists_kept h h' :
  (forall l c, h !! l = Some c -> h' !! l = Some c) -> lists_kept h h'.
Proof.
  intros Hk v Hv. apply is_record_list_spec in Hv as (es & Hes & Hobj).
  apply is_record_list_spec. exists es. split.
  - destruct v as [| | | | |l]; try done. unfold entries in *.
    destruct (h !! l) as [[|es0]|] eqn:E; try done. by rewrite (Hk _ _ E).
  - eapply Forall_impl; [exact Hobj|]. intros e. apply is_record_kept.
    intros l ps. apply Hk.
Qed.

Lemma lists_kept_refl h : lists_kept h h.
Proof. by intros v. Qed.

Lemma lists_kept_trans h1 h2 h3 :
  lists_kept h1 h2 -> lists_kept h2 h3 -> lists_kept h1 h3.
Proof. intros H1 H2 v Hv. by apply H2, H1. Qed.

Lemma extends_lists_kept h h' : extends h h' -> lists_kept h h'.
Proof. intros Hext. apply cells_kept_lists_kept. intros l c. by apply extends_lookup. Qed.

(** What leaves the [tasks] cell and every heap cell keeps the lists. *)
Lemma leaves_tasks_keeps {A} (m : M A) w :
  leaves tasks VUndefined m ->
  tasks (st (exec m w)) = tasks (st w)
  /\ lists_kept (mem w) (mem (exec m w)).
Proof.
  intros Hm. destruct (Hm w) as [Ht Hc]. split; [done|].
  apply cells_kept_lists_kept. intros l c. by apply Hc.
Qed.

Lemma setUsers_with_leaves {T} (side : State -> T) a (f : value -> M value) :
  (forall v s, side (with_users v s) = side s) ->
  (forall v, leaves side a (f v)) -> leaves side a (setUsers_with f).
Proof.
  intros Hside Hf w. unfold setUsers_with. specialize (Hf (users (st w)) w).
  destruct (f (users (st w)) w) as [w1 [v|e]]; [|done].
  cbn in *. destruct Hf as [Hs Hc]. split; [|done]. by rewrite Hside.
Qed.

Lemma fetchUsers_call_leaves_tasks : leaves tasks VUndefined fetchUsers.
Proof. unfold fetchUsers, fetch, setUserLoading. frame. Qed.

Lemma user_resumes_leave_tasks env o :
  leaves tasks VUndefined (fetchUsers_resume o)
  /\ leaves tasks VUndefined (handleCreateUser_resume env o).
Proof.
  split.
  - unfold fetchUsers_resume, console_error, setUsers, setUserLoading. frame.
  - unfold handleCreateUser_resume, alert, alert_with, console_error,
      setNewUsername, setNewUserEmail, setNewUserPassword.
    frame.
    + apply detail_message_leaves.
    + apply setUsers_with_leaves; [done|]. frame.
    + apply fetchUsers_call_leaves_tasks.
Qed.

Lemma calls_leave_tasks env row d :
  leaves tasks VUndefined (handleAddTask env)
  /\ leaves tasks VUndefined (click_toggle row)
  /\ leaves tasks VUndefined (handleCreateUser env)
  /\ leaves tasks VUndefined (setNewTaskDescription d)
  /\ leaves tasks VUndefined (setNewUsername d)
  /\ leaves tasks VUndefined (setNewUserEmail d)
  /\ leaves tasks VUndefined (setNewUserPassword d)
  /\ leaves tasks VUndefined (setCurrentView d).
Proof.
  unfold handleAddTask, click_toggle, handleToggleComplete, handleCreateUser, fetch,
    alert, setNewTaskDescription, setNewUsername, setNewUserEmail,
    setNewUserPassword, setCurrentView.
  do 7 (split; [frame|]). frame.
Qed.

(** *** A parsed Task or User is a record *)

Lemma set_prop_primitive k v ps :
  is_primitive v = true ->
  Forall (fun p => is_primitive p.2 = true) ps ->
  Forall (fun p => is_primitive p.2 = true) (set_prop k v ps).
Proof.
  intros Hv. induction 1 as [|[k' v'] ps Hp Hps IH]; simpl.
  - by constructor.
  - destruct (String.eqb k k'); by constructor.
Qed.

Lemma parse_json_primitive j h :
  is_json_primitive j = true -> (parse j h).2 = h /\ is_primitive (parse j h).1 = true.
Proof. by destruct j. Qed.

Lemma parse_members_primitive (ms : list (string * json)) :
  forallb (fun m => is_json_primitive m.2) ms = true ->
  forall ps h,
    Forall (fun p => is_primitive p.2 = true) ps ->
    (parse_members parse ms ps h).2 = h
    /\ Forall (fun p => is_primitive p.2 = true) (parse_members parse ms ps h).1.
Proof.
  induction ms as [|[k j] ms IH]; intros Hall ps h Hps; simpl; [done|].
  simpl in Hall. apply andb_prop in Hall as [Hj Hms].
  destruct (parse_json_primitive j h Hj) as [Hh Hv].
  destruct (parse j h) as [v h1]. simpl in Hh, Hv. subst h1.
  apply IH; [done|]. by apply set_prop_primitive.
Qed.

Lemma parse_record j h :
  is_json_record j = true -> is_record (parse j h).2 (parse j h).1 = true.
Proof.
  destruct j as [| | | | |ms]; try discriminate. intros Hall.
  destruct (parse_object_cell ms h) as [-> ->].
  destruct (parse_members_primitive ms Hall [] h) as [Hh Hps]; [constructor|].
  unfold is_record. rewrite lookup_app_r by lia. rewrite Nat.sub_diag. simpl.
  apply forallb_forall. intros p Hp. rewrite Forall_forall in Hps.
  apply Hps. by apply list_elem_of_In.
Qed.

Lemma parse_items_records (items : list json) :
  forallb is_json_record items = true ->
  forall h,
    Forall (fun v => is_record (parse_items parse items h).2 v = true)
           (parse_items parse items h).1.
Proof.
  induction items as [|j js IH]; intros Hall h; simpl; [constructor|].
  simpl in Hall. apply andb_prop in Hall as [Hj Hjs].
  pose proof (parse_record j h Hj) as Hr.
  destruct (parse j h) as [v h1]. simpl in Hr.
  specialize (IH Hjs h1). pose proof (parse_items_grow js h1) as Hext.
  destruct (parse_items parse js h1) as [vs h2]. simpl in *.
  constructor; [|done]. by eapply is_record_extends.
Qed.

Lemma parse_records_list j h :
  is_json_records j = true -> is_record_list (parse j h).2 (parse j h).1 = true.
Proof.
  destruct j as [| | | |items|]; try discriminate. simpl. intros Hall.
  pose proof (parse_items_records items Hall h) as Hobj.
  destruct (parse_items parse items h) as [vs h1]. simpl in *.
  apply is_record_list_spec. exists vs. split.
  - unfold entries. rewrite lookup_app_r by lia. by rewrite Nat.sub_diag.
  - eapply Forall_impl; [exact Hobj|]. intros v.
    apply is_record_extends, extends_snoc.
Qed.

(** *** Each handler keeps the lists *)

Lemma fetchTasks_resume_keeps o w :
  tasks_api AwaitFetchTasks o = true ->
  is_record_list (mem w) (tasks (st w)) = true ->
  lists_kept (mem w) (mem (exec (fetchTasks_resume o) w))
  /\ is_record_list (mem (exec (fetchTasks_resume o) w))
                    (tasks (st (exec (fetchTasks_resume o) w))) = true.
Proof.
  intros Hapi Hlist.
  destruct o as [|[[] code text [j|]]];
    try (cbn; split; [apply lists_kept_refl|exact Hlist]).
  unfold exec.
  rewrite (fetchTasks_resume_success (mkResponse true code text (Some j)) j w
                                     eq_refl eq_refl).
  cbn [fst mem st tasks with_taskLoading with_tasks].
  split; [apply extends_lists_kept, parse_extends|].
  by apply parse_records_list.
Qed.

Lemma toggle_resume_keeps env o w :
  tasks_api (AwaitToggle env) o = true ->
  is_record_list (mem w) (tasks env) = true ->
  is_record_list (mem w) (tasks (st w)) = true ->
  lists_kept (mem w) (mem (exec (handleToggleComplete_resume env o) w))
  /\ is_record_list (mem (exec (handleToggleComplete_resume env o) w))
                    (tasks (st (exec (handleToggleComplete_resume env o) w))) = true.
Proof.
  intros Hapi Henv Hlist.
  destruct o as [|r]; [split; [apply lists_kept_refl|exact Hlist]|].
  destruct (ok r) eqn:Hok.
  - destruct (body r) as [j|] eqn:Hbody.
    + cbn in Hapi. rewrite Hbody, Hok in Hapi. cbn [negb orb] in Hapi.
      pose proof (parse_record j (mem w) Hapi) as Hu.
      destruct j as [| | | | |ms]; try discriminate.
      apply is_record_list_spec in Henv as (es & Hes & Hrec).
      destruct (toggle_resume_entries env w r ms es Hok Hbody Hes
                                      (Forall_record_object _ _ Hrec))
        as (Hext & Hext' & _ & _ & _ & Hentries).
      split; [by apply extends_lists_kept|].
      apply is_record_list_spec. eexists. split; [exact Hentries|].
      rewrite Forall_fmap. eapply Forall_impl; [exact Hrec|].
      intros e He. cbn. destruct (strict_eq _ _).
      * exact (is_record_extends _ _ _ Hext' Hu).
      * exact (is_record_extends _ _ _ Hext He).
    + assert (exec (handleToggleComplete_resume env (Resolved r)) w
              = mkWorld (mem w) (st w)
                        (log w ++ [ConsoleError "Error toggling task status:"
                                                (OfExn SyntaxError)])) as ->.
      { unfold exec, handleToggleComplete_resume, try_catch.
        rewrite (bind_normal _ _ w w r) by reflexivity.
        unfold bind, response_json. by rewrite Hbody. }
      split; [apply lists_kept_refl|exact Hlist].
  - unfold exec. rewrite (toggle_resume_failure env w r Hok).
    destruct (body r) as [j|]; [|split; [apply lists_kept_refl|exact Hlist]].
    cbv zeta. cbn [fst mem st].
    pose proof (extends_lists_kept _ _ (parse_extends j (mem w))) as Hk.
    split; [exact Hk|by apply Hk].
Qed.

Lemma push_lists_kept h a es x :
  h !! a = Some (Arr es) ->
  is_record h x = true ->
  lists_kept h (<[a := Arr (es ++ [x])]> h).
Proof.
  intros Ha Hx.
  assert (forall v, is_record h v = true ->
                    is_record (<[a := Arr (es ++ [x])]> h) v = true) as Hobjs.
  { intros v. apply is_record_kept. intros l ps Hl.
    destruct (decide (l = a)) as [->|Hne]; [congruence|].
    by rewrite list_lookup_insert_ne. }
  intros v Hv. apply is_record_list_spec in Hv as (es0 & Hes0 & Hobj0).
  apply is_record_list_spec.
  destruct v as [| | | | |l]; try done. unfold entries in *.
  destruct (decide (l = a)) as [->|Hne].
  - rewrite Ha in Hes0. injection Hes0 as <-.
    rewrite list_lookup_insert_eq by (by eapply lookup_lt_Some).
    eexists. split; [done|]. apply Forall_app. split.
    + eapply Forall_impl; [exact Hobj0|]. exact Hobjs.
    + constructor; [by apply Hobjs|constructor].
  - rewrite list_lookup_insert_ne by done. exists es0. split; [done|].
    eapply Forall_impl; [exact Hobj0|]. exact Hobjs.
Qed.

Lemma add_task_resume_keeps env o w :
  tasks_api (AwaitAddTask env) o = true ->
  is_record_list (mem w) (tasks env) = true ->
  is_record_list (mem w) (tasks (st w)) = true ->
  lists_kept (mem w) (mem (exec (handleAddTask_resume env o) w))
  /\ is_record_list (mem (exec (handleAddTask_resume env o) w))
                    (tasks (st (exec (handleAddTask_resume env o) w))) = true.
Proof.
  intros Hapi Henv Hlist.
  destruct (no_data o) eqn:Hno.
  - destruct (add_task_resume_no_data env o w Hno) as [e He].
    unfold exec. rewrite He. split; [apply lists_kept_refl|exact Hlist].
  - destruct o as [|r]; [done|]. cbn in Hno, Hapi.
    apply Bool.orb_false_iff in Hno as [Hok Hbody].
    apply Bool.negb_false_iff in Hok.
    destruct (body r) as [j|] eqn:Hj; [|done]. rewrite Hok in Hapi.
    cbn [negb orb] in Hapi.
    pose proof (parse_record j (mem w) Hapi) as Hnew.
    pose proof Henv as Henv'.
    apply is_record_list_spec in Henv as (es & Hes & Hobj).
    destruct (tasks env) as [| | | | |a] eqn:Ha; try done.
    assert (mem w !! a = Some (Arr es)) as Hcell.
    { unfold entries in Hes. by destruct (mem w !! a) as [[]|]; simplify_eq. }
    unfold exec.
    rewrite (add_task_resume_success env w r j a es Hok Hj Ha Hcell).
    cbn [fst mem st tasks with_newTaskDescription with_tasks].
    pose proof (parse_extends j (mem w)) as Hext.
    assert (lists_kept (mem w)
                       (<[a := Arr (es ++ [(parse j (mem w)).1])]> (parse j (mem w)).2))
      as Hk.
    { eapply lists_kept_trans; [by apply extends_lists_kept|].
      apply push_lists_kept; [by eapply extends_lookup|done]. }
    split; [exact Hk|by apply Hk].
Qed.

Lemma resume_keeps p o w :
  tasks_api p o = true ->
  holds_task_list (mem w) p ->
  is_record_list (mem w) (tasks (st w)) = true ->
  lists_kept (mem w) (mem (exec (resume p o) w))
  /\ is_record_list (mem (exec (resume p o) w))
                    (tasks (st (exec (resume p o) w))) = true.
Proof.
  intros Hapi Hp Hlist. destruct p as [|env|env| |env]; cbn [resume holds_task_list] in *.
  - by apply fetchTasks_resume_keeps.
  - by apply add_task_resume_keeps.
  - by apply toggle_resume_keeps.
  - destruct (leaves_tasks_keeps (fetchUsers_resume o) w
                (proj1 (user_resumes_leave_tasks initial.(st) o))) as [Ht Hk].
    split; [done|]. rewrite Ht. by apply Hk.
  - destruct (leaves_tasks_keeps (handleCreateUser_resume env o) w
                (proj2 (user_resumes_leave_tasks env o))) as [Ht Hk].
    split; [done|]. rewrite Ht. by apply Hk.
Qed.

Lemma holds_task_list_kept h h' p :
  lists_kept h h' -> holds_task_list h p -> holds_task_list h' p.
Proof. intros Hk. destruct p; cbn; auto. Qed.

Lemma call_keeps {A} (m : M A) a :
  leaves tasks VUndefined m ->
  task_lists_ok a ->
  is_record_list (mem (exec m (world a))) (tasks (st (exec m (world a)))) = true
  /\ Forall (holds_task_list (mem (exec m (world a)))) (in_flight a)
  /\ is_record_list (mem (exec m (world a))) (tasks (st (world a))) = true.
Proof.
  intros Hm [Hlist Hps]. destruct (leaves_tasks_keeps m (world a) Hm) as [Ht Hk].
  split; [rewrite Ht; by apply Hk|]. split; [|by apply Hk].
  eapply Forall_impl; [exact Hps|]. intros p. by apply holds_task_list_kept.
Qed.

Lemma step_keeps_task_lists a a' :
  step tasks_api a a' -> task_lists_ok a -> task_lists_ok a'.
Proof.
  intros Hstep Hok.
  destruct Hstep as [w ps v d _ _ _|w ps v _ _ _|w ps v d rows i row _ _ _ _
                     |w ps v x _ _ _|w ps v x _ _ _|w ps v x _ _ _|w ps v _ _ _
                     |w ps v _ _|w ps v _ _|w ps1 p ps2 v o _ _ Hapi].
  - destruct (call_keeps (setNewTaskDescription d) _
                (proj1 (proj2 (proj2 (proj2 (calls_leave_tasks (st w) (mkTaskRow 0 VNull false false VNull) d)))))
                Hok) as (H1 & H2 & _).
    by split.
  - destruct (call_keeps (handleAddTask (st w)) _
                (proj1 (calls_leave_tasks (st w) (mkTaskRow 0 VNull false false VNull) ""))
                Hok) as (H1 & H2 & H3).
    split; [done|]. cbn [world in_flight] in *. apply Forall_app. split; [done|].
    unfold awaiting. destruct (handleAddTask (st w) w).2 as [[|]|]; by repeat constructor.
  - destruct (call_keeps (click_toggle row) _
                (proj1 (proj2 (calls_leave_tasks (st w) row "")))
                Hok) as (H1 & H2 & H3).
    split; [done|]. cbn [world in_flight] in *. apply Forall_app. split; [done|].
    unfold awaiting. destruct (click_toggle row w).2 as [[|]|]; by repeat constructor.
  - destruct (call_keeps (setNewUsername x) _
                (proj1 (proj2 (proj2 (proj2 (proj2 (calls_leave_tasks (st w) (mkTaskRow 0 VNull false false VNull) x))))))
                Hok) as (H1 & H2 & _).
    by split.
  - destruct (call_keeps (setNewUserEmail x) _
                (proj1 (proj2 (proj2 (proj2 (proj2 (proj2 (calls_leave_tasks (st w) (mkTaskRow 0 VNull false false VNull) x)))))))
                Hok) as (H1 & H2 & _).
    by split.
  - destruct (call_keeps (setNewUserPassword x) _
                (proj1 (proj2 (proj2 (proj2 (proj2 (proj2 (proj2 (calls_leave_tasks (st w) (mkTaskRow 0 VNull false false VNull) x))))))))
                Hok) as (H1 & H2 & _).
    by split.
  - destruct (call_keeps (handleCreateUser (st w)) _
                (proj1 (proj2 (proj2 (calls_leave_tasks (st w) (mkTaskRow 0 VNull false false VNull) ""))))
                Hok) as (H1 & H2 & H3).
    split; [done|]. cbn [world in_flight] in *. apply Forall_app. split; [done|].
    unfold awaiting. destruct (handleCreateUser (st w) w).2 as [[|]|]; by repeat constructor.
  - destruct (call_keeps (setCurrentView "tasks") _
                (proj2 (proj2 (proj2 (proj2 (proj2 (proj2 (proj2 (calls_leave_tasks (st w) (mkTaskRow 0 VNull false false VNull) "tasks"))))))))
                Hok) as (H1 & H2 & _).
    by split.
  - destruct (call_keeps (setCurrentView "users") _
                (proj2 (proj2 (proj2 (proj2 (proj2 (proj2 (proj2 (calls_leave_tasks (st w) (mkTaskRow 0 VNull false false VNull) "users"))))))))
                Hok) as (H1 & H2 & _).
    by split.
  - destruct Hok as [Hlist Hps]. cbn [world in_flight] in *.
    apply Forall_app in Hps as [Hps1 Hps2].
    apply Forall_cons in Hps2 as [Hp Hps2].
    destruct (resume_keeps p o w Hapi Hp Hlist) as [Hk Hlist'].
    split; [done|]. cbn [world in_flight].
    apply Forall_app. split.
    { eapply Forall_impl; [exact Hps1|]. intros q. by apply holds_task_list_kept. }
    apply Forall_app. split.
    { eapply Forall_impl; [exact Hps2|]. intros q. by apply holds_task_list_kept. }
    unfold spawned. destruct (existsb _ _); by repeat constructor.
Qed.

Lemma mounted_task_lists_ok : task_lists_ok mounted.
Proof. split; [reflexivity|]. by repeat constructor. Qed.

Lemma reachable_task_lists_ok a : reachable tasks_api a -> task_lists_ok a.
Proof.
  intros Hr. refine (rtc_ind_r (fun a => task_lists_ok a) mounted _ _ a Hr).
  - apply mounted_task_lists_ok.
  - intros a1 a2 _ Hstep IH. by eapply step_keeps_task_lists.
Qed.

(** *** Rendering a list of records *)

Lemma accept_rows_accepted {I} (accept : I -> M unit) (l : list_view I) w :
  (forall rows row, l = ViewRows rows -> row ∈ rows -> accept row w = (w, Normal tt)) ->
  accept_rows accept l w = (w, Normal tt).
Proof.
  intros H. destruct l as [line|line|rows]; try done.
  unfold accept_rows.
  destruct (for_each_succeeds accept rows w) as [ys Hys].
  { intros row Hrow. exists tt. by eapply H. }
  by rewrite (bind_normal _ _ w w ys Hys).
Qed.

Lemma react_child_primitive v w :
  is_primitive v = true -> react_child v w = (w, Normal tt).
Proof. intros H. by apply react_child_accepts, is_primitive_valid_child. Qed.

Lemma render_tasks_section_succeeds s w :
  is_record_list (mem w) (tasks s) = true ->
  currentView s = "tasks" ->
  exists l, render s w
            = (w, Normal (mkView true false (Some (newTaskDescription s, l)) None)).
Proof.
  intros Hlist Hview. apply is_record_list_spec in Hlist as (es & Hes & Hrec).
  pose proof (Forall_record_object _ _ Hrec) as Hobj.
  assert (exists l,
             render_list (taskLoading s) "Loading tasks..." "No tasks to display."
                         render_task (tasks s) w = (w, Normal l)
             /\ forall rows row, l = ViewRows rows -> row ∈ rows ->
                                 is_primitive (task_text row) = true)
    as (l & Hl & Hrows).
  { destruct (taskLoading s) eqn:Hload; [by eexists|].
    destruct (decide (es = [])) as [->|Hne].
    - eexists. split.
      { unfold render_list.
        rewrite (bind_normal _ _ w w _ (get_length_array _ [] w Hes)). reflexivity. }
      done.
    - pose proof (render_tasks_rows s w es Hload Hes Hne Hobj) as H.
      rewrite Hload in H. eexists. split; [exact H|].
      intros rows row [= <-] [i Hrow]%list_elem_of_lookup.
      rewrite list_lookup_imap in Hrow.
      destruct (es !! i) as [task|] eqn:Hi; [|done]. injection Hrow as <-.
      cbn [task_text]. apply is_record_prop.
      rewrite Forall_forall in Hrec. apply Hrec. by eapply list_elem_of_lookup_2. }
  exists l. apply render_accepted.
  - unfold elements. rewrite Hview. cbn [String.eqb Ascii.eqb Bool.eqb].
    rewrite (bind_normal _ _ w w _ (bind_normal _ _ w w _ Hl)). reflexivity.
  - unfold reconcile. cbn [tasks_section users_section].
    erewrite bind_normal; [reflexivity|].
    apply accept_rows_accepted. intros rows row Hrows' Hrow.
    apply react_child_primitive. by eapply Hrows.
Qed.

(** X14.  As long as the task endpoints answer a success with an array of
    Tasks (the list) or with one Task (a creation, an update), a Task being
    an object none of whose members is an array or an object, whatever else
    the server does and whatever the user does and in whichever order the
    answers arrive: in every state the application reaches, the task list
    is an array whose entries are all such objects, and so is the list that
    each task handler in flight holds; and there, unless a state updater
    has thrown, a render that shows the task section succeeds: [App]
    returns and React accepts every child. *)
Theorem task_list_is_always_a_list_of_objects (a : App) :
  reachable tasks_api a ->
  (exists es,
      entries (mem (world a)) (tasks (st (world a))) = Some es
      /\ Forall (fun task => is_record (mem (world a)) task = true) es)
  /\ Forall (holds_task_list (mem (world a))) (in_flight a)
  /\ (alive (world a) = true ->
      currentView (st (world a)) = "tasks" ->
      exists l,
        render (st (world a)) (world a)
        = (world a,
           Normal (mkView true false
                          (Some (newTaskDescription (st (world a)), l)) None))).
Proof.
  intros Hr. destruct (reachable_task_lists_ok a Hr) as [Hlist Hheld].
  split; [by apply is_record_list_spec|]. split; [exact Hheld|].
  intros _. by apply render_tasks_section_succeeds.
Qed.

Lemma task_list_is_always_a_list_of_objects_witness :
  let w := exec (resume AwaitFetchTasks (success (JArray [buy_milk false])))
                (exec mount initial) in
  (exists es,
      entries (mem w) (tasks (st w)) = Some es
      /\ Forall (fun task => is_record (mem w) task = true) es)
  /\ Forall (holds_task_list (mem w)) [AwaitFetchUsers]
  /\ (alive w = true ->
      currentView (st w) = "tasks" ->
      exists l,
        render (st w) w
        = (w, Normal (mkView true false (Some (newTaskDescription (st w), l)) None))).
Proof.
  apply (task_list_is_always_a_list_of_objects
           (mkApp (exec (resume AwaitFetchTasks (success (JArray [buy_milk false])))
                        (exec mount initial))
                  ([] ++ [AwaitFetchUsers]
                      ++ spawned (exec mount initial)
                           (exec (resume AwaitFetchTasks
                                         (success (JArray [buy_milk false])))
                                 (exec mount initial))))).
  apply rtc_once.
  eapply (step_settle tasks_api (exec mount initial) [] AwaitFetchTasks
                      [AwaitFetchUsers] _ (success (JArray [buy_milk false]))).
  - reflexivity.
  - reflexivity.
  - reflexivity.
Defined.

(** ** The section shown *)

Lemma resume_keeps_view p o w :
  currentView (st (exec (resume p o) w)) = currentView (st w).
Proof.
  destruct p as [|env|env| |env]; cbn [resume].
  - assert (leaves currentView VUndefined (fetchTasks_resume o)) as H.
    { unfold fetchTasks_resume, console_error, setTasks, setTaskLoading. frame. }
    apply H.
  - assert (leaves currentView (tasks env) (handleAddTask_resume env o)) as H.
    { unfold handleAddTask_resume, console_error, setTasks, setNewTaskDescription.
      frame. }
    apply H.
  - assert (leaves currentView VUndefined (handleToggleComplete_resume env o)) as H.
    { unfold handleToggleComplete_resume, console_error, setTasks. frame.
      apply replace_by_id_leaves. }
    apply H.
  - assert (leaves currentView VUndefined (fetchUsers_resume o)) as H.
    { unfold fetchUsers_resume, console_error, setUsers, setUserLoading. frame. }
    apply H.
  - assert (leaves currentView VUndefined (handleCreateUser_resume env o)) as H.
    { unfold handleCreateUser_resume, alert, alert_with, console_error,
        setNewUsername, setNewUserEmail, setNewUserPassword.
      frame.
      - apply detail_message_leaves.
      - apply setUsers_with_leaves; [done|]. frame.
      - unfold fetchUsers, fetch, setUserLoading. frame. }
    apply H.
Qed.

Lemma call_keeps_view env row w :
  currentView (st (exec (handleAddTask env) w)) = currentView (st w)
  /\ currentView (st (exec (click_toggle row) w)) = currentView (st w)
  /\ currentView (st (exec (handleCreateUser env) w)) = currentView (st w).
Proof.
  assert (leaves currentView VUndefined (handleAddTask env)) as H1.
  { unfold handleAddTask, fetch, alert. frame. }
  assert (leaves currentView VUndefined (click_toggle row)) as H2.
  { unfold click_toggle, handleToggleComplete, fetch. frame. }
  assert (leaves currentView VUndefined (handleCreateUser env)) as H3.
  { unfold handleCreateUser, fetch, alert. frame. }
  split; [apply H1|]. split; [apply H2|apply H3].
Qed.

Lemma step_keeps_view api a a' :
  step api a a' ->
  currentView (st (world a)) = "tasks" \/ currentView (st (world a)) = "users" ->
  currentView (st (world a')) = "tasks" \/ currentView (st (world a')) = "users".
Proof.
  intros Hstep Hv.
  destruct Hstep as [w ps v d _ _ _|w ps v _ _ _|w ps v d rows i row _ _ _ _
                     |w ps v x _ _ _|w ps v x _ _ _|w ps v x _ _ _|w ps v _ _ _
                     |w ps v _ _|w ps v _ _|w ps1 p ps2 v o _ _ Hapi];
    cbn [world] in *; try done.
  - by rewrite (proj1 (call_keeps_view (st w) (mkTaskRow 0 VNull false false VNull) w)).
  - by rewrite (proj1 (proj2 (call_keeps_view (st w) row w))).
  - by rewrite (proj2 (proj2 (call_keeps_view (st w)
                                (mkTaskRow 0 VNull false false VNull) w))).
  - by left.
  - by right.
  - by rewrite resume_keeps_view.
Qed.

Lemma reachable_view_flag
      (api : pending -> outcome -> bool) (a : App) :
  reachable api a ->
  currentView (st (world a)) = "tasks" \/ currentView (st (world a)) = "users".
Proof.
  intros Hr.
  refine (rtc_ind_r (fun a => currentView (st (world a)) = "tasks"
                              \/ currentView (st (world a)) = "users")
                    mounted _ _ a Hr).
  - by left.
  - intros a1 a2 _ Hstep IH. by eapply step_keeps_view.
Qed.

(** X15.  Whatever the server answers: in every state the application
    reaches the view flag is 'tasks' or 'users', so a render that succeeds
    shows exactly one of the two sections, the one whose selector button is
    highlighted. *)
Theorem exactly_one_section_is_shown
    (api : pending -> outcome -> bool) (a : App) :
  reachable api a ->
  (currentView (st (world a)) = "tasks" \/ currentView (st (world a)) = "users")
  /\ forall w' v,
      render (st (world a)) (world a) = (w', Normal v) ->
      tasks_selected v = negb (users_selected v)
      /\ (is_Some (tasks_section v) <-> tasks_selected v = true)
      /\ (is_Some (users_section v) <-> users_selected v = true).
Proof.
  intros Hr.
  pose proof (reachable_view_flag api a Hr) as Hview.
  split; [done|]. intros w' v Hrender%render_elements. revert Hrender.
  unfold elements.
  destruct Hview as [-> | ->]; cbn [String.eqb Ascii.eqb Bool.eqb].
  - unfold bind.
    destruct (render_list (taskLoading (st (world a))) "Loading tasks..."
         "No tasks to display." render_task (tasks (st (world a))) 
         (world a)) as [w1 [l|e]].
    2:{ cbn. discriminate. }
    cbn.
    intros [= <- <-]. cbn. split; [done|]. split; [by split|].
    split; [by intros []|done].
  - unfold bind. cbn -[render_list].
    destruct (render_list (userLoading (st (world a))) "Loading users..."
         "No users to display." render_user (users (st (world a)))
         (world a)) as [w1 [l|e]].
    2:{ cbn. discriminate. }
    cbn.
    intros [= <- <-]. cbn. split; [done|]. split; [|by split].
    split; [by intros []|done].
Qed.

Lemma exactly_one_section_is_shown_witness :
  (currentView (st (world mounted)) = "tasks"
   \/ currentView (st (world mounted)) = "users")
  /\ forall w' v,
      render (st (world mounted)) (world mounted) = (w', Normal v) ->
      tasks_selected v = negb (users_selected v)
      /\ (is_Some (tasks_section v) <-> tasks_selected v = true)
      /\ (is_Some (users_section v) <-> users_selected v = true).
Proof.
  apply (exactly_one_section_is_shown (fun _ _ => true) mounted).
  apply rtc_refl.
Defined.

(** ** Both lists in every reachable state *)

Lemma step_weaken (api api' : pending -> outcome -> bool) a a' :
  (forall p o, api p o = true -> api' p o = true) ->
  step api a a' -> step api' a a'.
Proof.
  intros Himp Hstep. destruct Hstep; try (by econstructor).
  eapply step_settle; [done|done|]. by apply Himp.
Qed.

Lemma leaves_users_keeps {A} (m : M A) w :
  leaves users VUndefined m ->
  users (st (exec m w)) = users (st w)
  /\ lists_kept (mem w) (mem (exec m w)).
Proof.
  intros Hm. destruct (Hm w) as [Ht Hc]. split; [done|].
  apply cells_kept_lists_kept. intros l c. by apply Hc.
Qed.

Lemma calls_leave_users env row d :
  leaves users VUndefined (handleAddTask env)
  /\ leaves users VUndefined (click_toggle row)
  /\ leaves users VUndefined (handleCreateUser env)
  /\ leaves users VUndefined (setNewTaskDescription d)
  /\ leaves users VUndefined (setNewUsername d)
  /\ leaves users VUndefined (setNewUserEmail d)
  /\ leaves users VUndefined (setNewUserPassword d)
  /\ leaves users VUndefined (setCurrentView d).
Proof.
  unfold handleAddTask, click_toggle, handleToggleComplete, handleCreateUser, fetch,
    alert, setNewTaskDescription, setNewUsername, setNewUserEmail,
    setNewUserPassword, setCurrentView.
  do 7 (split; [frame|]). frame.
Qed.

Lemma task_resumes_keep_users_cell env o w :
  users (st (exec (fetchTasks_resume o) w)) = users (st w)
  /\ users (st (exec (handleAddTask_resume env o) w)) = users (st w)
  /\ users (st (exec (handleToggleComplete_resume env o) w)) = users (st w).
Proof.
  assert (leaves users VUndefined (fetchTasks_resume o)) as H1.
  { unfold fetchTasks_resume, console_error, setTasks, setTaskLoading. frame. }
  assert (leaves users (tasks env) (handleAddTask_resume env o)) as H2.
  { unfold handleAddTask_resume, console_error, setTasks, setNewTaskDescription.
    frame. }
  assert (leaves users VUndefined (handleToggleComplete_resume env o)) as H3.
  { unfold handleToggleComplete_resume, console_error, setTasks. frame.
    apply replace_by_id_leaves. }
  split; [apply H1|]. split; [apply H2|apply H3].
Qed.

Lemma fetchUsers_resume_keeps_users o w :
  users_api AwaitFetchUsers o = true ->
  is_record_list (mem w) (users (st w)) = true ->
  is_record_list (mem (exec (fetchUsers_resume o) w))
                 (users (st (exec (fetchUsers_resume o) w))) = true.
Proof.
  intros Hapi Hlist. destruct o as [|r]; [exact Hlist|].
  destruct (body r) as [j|] eqn:Hbody.
  - cbn in Hapi. rewrite Hbody in Hapi.
    unfold exec. rewrite (fetchUsers_resume_any_status r j w Hbody).
    cbn [fst mem st users with_userLoading with_users].
    by apply parse_records_list.
  - destruct (fetchUsers_resume_rejected_or_not_json (Resolved r) w Hbody) as [e He].
    unfold exec. by rewrite He.
Qed.

(** The creation handler on a success status without a JSON body. *)
Lemma create_user_resume_not_json env w r :
  ok r = true ->
  body r = None ->
  handleCreateUser_resume env (Resolved r) w
  = (mkWorld (mem w) (st w)
             (log w ++ [ConsoleError "Error creating user:" (OfExn SyntaxError);
                        Alert "An unexpected error occurred while creating user."
                              None]),
     Normal tt).
Proof.
  intros Hok Hbody. unfold handleCreateUser_resume, try_catch.
  rewrite (bind_normal _ _ w w r) by reflexivity.
  rewrite Hok. cbn [negb]. unfold bind, response_json. rewrite Hbody. cbn.
  unfold alert, emit. cbn. by rewrite <- ?app_assoc.
Qed.

Lemma create_user_resume_keeps_users env o w :
  users_api (AwaitCreateUser env) o = true ->
  is_record_list (mem w) (users (st w)) = true ->
  is_record_list (mem (exec (handleCreateUser_resume env o) w))
                 (users (st (exec (handleCreateUser_resume env o) w))) = true.
Proof.
  intros Hapi Hlist. destruct o as [|r]; [exact Hlist|].
  destruct (ok r) eqn:Hok.
  - destruct (body r) as [j|] eqn:Hbody.
    + cbn in Hapi. rewrite Hbody, Hok in Hapi. cbn [negb orb] in Hapi.
      pose proof (parse_record j (mem w) Hapi) as Hnew.
      apply is_record_list_spec in Hlist as (es & Hes & Hobj).
      unfold exec.
      rewrite (create_user_resume_success env w r j es Hok Hbody Hes).
      cbn [fst mem st users with_userLoading with_newUserPassword with_newUserEmail
           with_newUsername with_users].
      pose proof (parse_extends j (mem w)) as Hext.
      apply is_record_list_spec. eexists. split.
      * unfold entries. rewrite lookup_app_r by lia. by rewrite Nat.sub_diag.
      * apply Forall_app. split.
        -- eapply Forall_impl; [exact Hobj|]. intros e He.
           eapply is_record_extends; [|exact He].
           eapply extends_trans; [exact Hext|apply extends_snoc].
        -- constructor; [|constructor].
           eapply is_record_extends; [apply extends_snoc|exact Hnew].
    + unfold exec. by rewrite (create_user_resume_not_json env w r Hok Hbody).
  - unfold exec. rewrite (create_user_resume_failure env w r Hok).
    destruct (body r) as [j|]; [|exact Hlist].
    cbv zeta. cbn [fst mem st].
    by apply (extends_lists_kept _ _ (parse_extends j (mem w))).
Qed.

Lemma client_api_tasks p o : client_api p o = true -> tasks_api p o = true.
Proof. unfold client_api. by intros [? _]%andb_prop. Qed.

Lemma client_api_users p o : client_api p o = true -> users_api p o = true.
Proof. unfold client_api. by intros [_ ?]%andb_prop. Qed.

Lemma step_keeps_lists a a' : step client_api a a' -> lists_ok a -> lists_ok a'.
Proof.
  intros Hstep [Htasks Husers].
  split; [by eapply step_keeps_task_lists;
            [eapply step_weaken; [exact client_api_tasks|exact Hstep]|]|].
  destruct Hstep as [w ps v d _ _ _|w ps v _ _ _|w ps v d rows i row _ _ _ _
                     |w ps v x _ _ _|w ps v x _ _ _|w ps v x _ _ _|w ps v _ _ _
                     |w ps v _ _|w ps v _ _|w ps1 p ps2 v o _ _ Hapi];
    cbn [world in_flight] in *.
  - destruct (leaves_users_keeps (setNewTaskDescription d) w) as [-> Hk];
      [apply (calls_leave_users (st w) (mkTaskRow 0 VNull false false VNull) d)|].
    by apply Hk.
  - destruct (leaves_users_keeps (handleAddTask (st w)) w) as [-> Hk];
      [apply (calls_leave_users (st w) (mkTaskRow 0 VNull false false VNull) "")|].
    by apply Hk.
  - destruct (leaves_users_keeps (click_toggle row) w) as [-> Hk];
      [apply (calls_leave_users (st w) row "")|].
    by apply Hk.
  - destruct (leaves_users_keeps (setNewUsername x) w) as [-> Hk];
      [apply (calls_leave_users (st w) (mkTaskRow 0 VNull false false VNull) x)|].
    by apply Hk.
  - destruct (leaves_users_keeps (setNewUserEmail x) w) as [-> Hk];
      [apply (calls_leave_users (st w) (mkTaskRow 0 VNull false false VNull) x)|].
    by apply Hk.
  - destruct (leaves_users_keeps (setNewUserPassword x) w) as [-> Hk];
      [apply (calls_leave_users (st w) (mkTaskRow 0 VNull false false VNull) x)|].
    by apply Hk.
  - destruct (leaves_users_keeps (handleCreateUser (st w)) w) as [-> Hk];
      [apply (calls_leave_users (st w) (mkTaskRow 0 VNull false false VNull) "")|].
    by apply Hk.
  - destruct (leaves_users_keeps (setCurrentView "tasks") w) as [-> Hk];
      [apply (calls_leave_users (st w) (mkTaskRow 0 VNull false false VNull) "tasks")|].
    by apply Hk.
  - destruct (leaves_users_keeps (setCurrentView "users") w) as [-> Hk];
      [apply (calls_leave_users (st w) (mkTaskRow 0 VNull false false VNull) "users")|].
    by apply Hk.
  - destruct Htasks as [Hlist Hps]. cbn [world in_flight] in *.
    apply Forall_app in Hps as [_ Hps2]. apply Forall_cons in Hps2 as [Hp _].
    destruct (resume_keeps p o w (client_api_tasks _ _ Hapi) Hp Hlist) as [Hk _].
    destruct p as [|env|env| |env]; cbn [resume] in *.
    + rewrite (proj1 (task_resumes_keep_users_cell (st w) o w)). by apply Hk.
    + rewrite (proj1 (proj2 (task_resumes_keep_users_cell env o w))). by apply Hk.
    + rewrite (proj2 (proj2 (task_resumes_keep_users_cell env o w))). by apply Hk.
    + by apply fetchUsers_resume_keeps_users; [apply client_api_users|].
    + by eapply create_user_resume_keeps_users; [apply client_api_users|].
Qed.

Lemma reachable_lists_ok a : reachable client_api a -> lists_ok a.
Proof.
  intros Hr. refine (rtc_ind_r (fun a => lists_ok a) mounted _ _ a Hr).
  - split; [apply mounted_task_lists_ok|reflexivity].
  - intros a1 a2 _ Hstep IH. by eapply step_keeps_lists.
Qed.

(** *** No state updater throws *)

Lemma alive_added h s w l :
  alive w = true ->
  forallb (fun e => negb (is_render_error e)) l = true ->
  alive (mkWorld h s (log w ++ l)) = true.
Proof. intros Hw Hl. unfold alive in *. cbn [log]. by rewrite forallb_app, Hw, Hl. Qed.

Section quiet.

Lemma quiet_log {A} (m : M A) : (forall w, log (m w).1 = log w) -> quiet m.
Proof. intros H w Hw. unfold alive in *. by rewrite H. Qed.

Lemma quiet_ret {A} (x : A) : quiet (ret x).
Proof. by apply quiet_log. Qed.

Lemma quiet_throw {A} e : quiet (@throw A e).
Proof. by apply quiet_log. Qed.

Lemma quiet_emit e : is_render_error e = false -> quiet (emit e).
Proof.
  intros He w Hw. unfold emit. cbn [fst]. apply alive_added; [done|].
  cbn. by rewrite He.
Qed.

Lemma quiet_bind {A B} (m : M A) (k : A -> M B) :
  quiet m -> (forall x, quiet (k x)) -> quiet (bind m k).
Proof.
  intros Hm Hk w Hw. unfold bind. specialize (Hm w Hw).
  destruct (m w) as [w1 [x|e]]; [|done]. by apply Hk.
Qed.

Lemma quiet_try_catch {A} (m : M A) (h : exn -> M A) :
  quiet m -> (forall e, quiet (h e)) -> quiet (try_catch m h).
Proof.
  intros Hm Hh w Hw. unfold try_catch. specialize (Hm w Hw).
  destruct (m w) as [w1 [x|e]]; [done|]. by apply Hh.
Qed.

Lemma quiet_finally {A} (m : M A) (f : M unit) :
  quiet m -> quiet f -> quiet (finally m f).
Proof.
  intros Hm Hf w Hw. unfold finally. specialize (Hm w Hw).
  destruct (m w) as [w1 r]. specialize (Hf w1 Hm).
  by destruct (f w1) as [w2 [[]|e]].
Qed.

Lemma quiet_set_state (f : State -> State) : quiet (set_state f).
Proof. by apply quiet_log. Qed.

Lemma quiet_alloc o : quiet (alloc o).
Proof. by apply quiet_log. Qed.

Lemma quiet_get_prop v k : quiet (get_prop v k).
Proof.
  apply quiet_log. intros w. unfold get_prop.
  destruct v as [| | | | |l]; try done. by destruct (mem w !! l) as [[]|].
Qed.

Lemma quiet_array_elems v : quiet (array_elems v).
Proof.
  apply quiet_log. intros w. unfold array_elems.
  destruct v as [| | | | |l]; try done. by destruct (mem w !! l) as [[]|].
Qed.

Lemma quiet_array_push a x : quiet (array_push a x).
Proof.
  apply quiet_log. intros w. unfold array_push.
  destruct a as [| | | | |l]; try done. by destruct (mem w !! l) as [[]|].
Qed.

Lemma quiet_for_each {A B} (f : A -> M B) xs :
  (forall x, quiet (f x)) -> quiet (for_each f xs).
Proof.
  intros Hf. induction xs as [|x xs IH]; simpl; [apply quiet_ret|].
  apply quiet_bind; [apply Hf|]. intros y.
  apply quiet_bind; [apply IH|]. intros ys. apply quiet_ret.
Qed.

Lemma quiet_array_map f v : (forall x, quiet (f x)) -> quiet (array_map f v).
Proof.
  intros Hf. unfold array_map.
  apply quiet_bind; [apply quiet_array_elems|]. intros es.
  apply quiet_bind; [by apply quiet_for_each|]. intros es'. apply quiet_alloc.
Qed.

Lemma quiet_settle o : quiet (settle o).
Proof. destruct o; [apply quiet_throw|apply quiet_ret]. Qed.

Lemma quiet_response_json r : quiet (response_json r).
Proof.
  unfold response_json. destruct (body r) as [j|]; [|apply quiet_throw].
  apply quiet_log. intros w. by destruct (parse j (mem w)).
Qed.

End quiet.

Ltac quiet_step :=
  lazymatch goal with
  | |- quiet (match ?b with _ => _ end) => destruct b
  | |- quiet (finally _ _) => apply quiet_finally
  | |- quiet (try_catch _ _) => apply quiet_try_catch
  | |- quiet (bind _ _) => apply quiet_bind
  | |- quiet (settle _) => apply quiet_settle
  | |- quiet (response_json _) => apply quiet_response_json
  | |- quiet (array_map _ _) => apply quiet_array_map
  | |- quiet (array_push _ _) => apply quiet_array_push
  | |- quiet (get_prop _ _) => apply quiet_get_prop
  | |- quiet (alloc _) => apply quiet_alloc
  | |- quiet (emit _) => apply quiet_emit; reflexivity
  | |- quiet (ret _) => apply quiet_ret
  | |- quiet (throw _) => apply quiet_throw
  | |- quiet (set_state _) => apply quiet_set_state
  | |- forall _, _ => intros ?
  end.

Ltac quietly := repeat quiet_step.

Lemma replace_by_id_quiet u task : quiet (replace_by_id u task).
Proof. unfold replace_by_id. quietly. Qed.

Lemma calls_quiet env row d :
  quiet (handleAddTask env)
  /\ quiet (click_toggle row)
  /\ quiet (handleCreateUser env)
  /\ quiet (setNewTaskDescription d)
  /\ quiet (setNewUsername d)
  /\ quiet (setNewUserEmail d)
  /\ quiet (setNewUserPassword d)
  /\ quiet (setCurrentView d).
Proof.
  unfold handleAddTask, click_toggle, handleToggleComplete, handleCreateUser, fetch,
    alert, setNewTaskDescription, setNewUsername, setNewUserEmail,
    setNewUserPassword, setCurrentView.
  do 7 (split; [quietly|]). quietly.
Qed.

Lemma resumes_quiet env o :
  quiet (fetchTasks_resume o)
  /\ quiet (handleAddTask_resume env o)
  /\ quiet (handleToggleComplete_resume env o)
  /\ quiet (fetchUsers_resume o).
Proof.
  unfold fetchTasks_resume, handleAddTask_resume, handleToggleComplete_resume,
    fetchUsers_resume, console_error, setTasks, setTaskLoading,
    setNewTaskDescription, setUsers, setUserLoading.
  split; [quietly|]. split; [quietly|]. split; [|quietly].
  quietly. apply replace_by_id_quiet.
Qed.

(** The user creation on a list that is an array: its updater does not
    throw. *)
Lemma create_user_resume_alive env o w :
  is_record_list (mem w) (users (st w)) = true ->
  alive w = true ->
  alive (exec (handleCreateUser_resume env o) w) = true.
Proof.
  intros Hlist Hw. destruct o as [|r].
  - cbn. unfold alive in *. cbn. by rewrite !forallb_app, Hw.
  - destruct (ok r) eqn:Hok.
    + destruct (body r) as [j|] eqn:Hbody.
      * apply is_record_list_spec in Hlist as (es & Hes & _).
        unfold exec.
        rewrite (create_user_resume_success env w r j es Hok Hbody Hes).
        by apply alive_added.
      * unfold exec. rewrite (create_user_resume_not_json env w r Hok Hbody).
        by apply alive_added.
    + unfold exec. rewrite (create_user_resume_failure env w r Hok).
      destruct (body r) as [j|]; [|by apply alive_added].
      cbv zeta. apply alive_added; [done|].
      by destruct (not_nullish (parse j (mem w)).1).
Qed.

Lemma step_keeps_alive api a a' :
  step api a a' ->
  is_record_list (mem (world a)) (users (st (world a))) = true ->
  alive (world a') = true.
Proof.
  intros Hstep Husers.
  destruct Hstep as [w ps v d Hw _ _|w ps v Hw _ _|w ps v d rows i row Hw _ _ _
                     |w ps v x Hw _ _|w ps v x Hw _ _|w ps v x Hw _ _|w ps v Hw _ _
                     |w ps v Hw _|w ps v Hw _|w ps1 p ps2 v o Hw _ Hapi];
    cbn [world] in *.
  - exact (proj1 (proj2 (proj2 (proj2 (calls_quiet (st w) (mkTaskRow 0 VNull false false VNull) d)))) w Hw).
  - exact (proj1 (calls_quiet (st w) (mkTaskRow 0 VNull false false VNull) "") w Hw).
  - exact (proj1 (proj2 (calls_quiet (st w) row "")) w Hw).
  - exact (proj1 (proj2 (proj2 (proj2 (proj2 (calls_quiet (st w) (mkTaskRow 0 VNull false false VNull) x))))) w Hw).
  - exact (proj1 (proj2 (proj2 (proj2 (proj2 (proj2 (calls_quiet (st w) (mkTaskRow 0 VNull false false VNull) x)))))) w Hw).
  - exact (proj1 (proj2 (proj2 (proj2 (proj2 (proj2 (proj2 (calls_quiet (st w) (mkTaskRow 0 VNull false false VNull) x))))))) w Hw).
  - exact (proj1 (proj2 (proj2 (calls_quiet (st w) (mkTaskRow 0 VNull false false VNull) ""))) w Hw).
  - exact (proj2 (proj2 (proj2 (proj2 (proj2 (proj2 (proj2 (calls_quiet (st w) (mkTaskRow 0 VNull false false VNull) "tasks"))))))) w Hw).
  - exact (proj2 (proj2 (proj2 (proj2 (proj2 (proj2 (proj2 (calls_quiet (st w) (mkTaskRow 0 VNull false false VNull) "users"))))))) w Hw).
  - destruct p as [|env|env| |env]; cbn [resume].
    + exact (proj1 (resumes_quiet (st w) o) w Hw).
    + exact (proj1 (proj2 (resumes_quiet env o)) w Hw).
    + exact (proj1 (proj2 (proj2 (resumes_quiet env o))) w Hw).
    + exact (proj2 (proj2 (proj2 (resumes_quiet (st w) o))) w Hw).
    + by apply create_user_resume_alive.
Qed.

Lemma reachable_alive a : reachable client_api a -> alive (world a) = true.
Proof.
  intros Hr.
  refine (rtc_ind_r (fun a => alive (world a) = true) mounted _ _ a Hr).
  - reflexivity.
  - intros a1 a2 Hr1 Hstep _.
    apply (step_keeps_alive client_api a1 a2 Hstep).
    by destruct (reachable_lists_ok a1 Hr1) as [_ Husers].
Qed.

(** *** Rendering the user section *)

Lemma render_user_read idx user w :
  not_nullish user = true ->
  render_user idx user w
  = (w, Normal (mkUserRow idx (prop (mem w) "id" user)
                          (prop (mem w) "username" user)
                          (prop (mem w) "email" user)
                          (prop (mem w) "password" user))).
Proof.
  intros H. unfold render_user.
  rewrite (bind_normal _ _ w w _ (get_prop_read user "id" w H)).
  rewrite (bind_normal _ _ w w _ (get_prop_read user "username" w H)).
  rewrite (bind_normal _ _ w w _ (get_prop_read user "email" w H)).
  by rewrite (bind_normal _ _ w w _ (get_prop_read user "password" w H)).
Qed.

(** What the user list renders to when it is a non-empty array of objects
    and is not loading. *)
Lemma render_users_rows env w es :
  userLoading env = false ->
  entries (mem w) (users env) = Some es ->
  es <> [] ->
  Forall (fun user => is_object (mem w) user = true) es ->
  render_list (userLoading env) "Loading users..." "No users to display."
              render_user (users env) w
  = (w, Normal (ViewRows
                  (imap (fun i user =>
                           mkUserRow i (prop (mem w) "id" user)
                                     (prop (mem w) "username" user)
                                     (prop (mem w) "email" user)
                                     (prop (mem w) "password" user)) es))).
Proof.
  intros Hload Hes Hne Hobj. unfold render_list. rewrite Hload.
  rewrite (bind_normal _ _ w w _ (get_length_array _ es w Hes)).
  assert (strict_eq (VNumber (Z.of_nat (List.length es))) (VNumber 0) = false) as ->.
  { apply strict_eq_neq. intros [= H]. destruct es; [done|]. simpl in H. lia. }
  rewrite (bind_normal _ _ w w _ (array_elems_read _ es w Hes)).
  pose proof (for_each_rows render_user
                (fun i user =>
                   mkUserRow i (prop (mem w) "id" user)
                             (prop (mem w) "username" user)
                             (prop (mem w) "email" user)
                             (prop (mem w) "password" user)) es w) as Hrows.
  rewrite (bind_normal _ _ w w _ (Hrows
             (fun i e He => render_user_read i e w
                (is_object_not_nullish _ _ (proj1 (Forall_forall _ _) Hobj e He))) 0)).
  reflexivity.
Qed.

Lemma accept_user_row_primitive row w :
  is_primitive (user_id row) = true ->
  is_primitive (user_username row) = true ->
  is_primitive (user_email row) = true ->
  is_primitive (user_password row) = true ->
  accept_user_row row w = (w, Normal tt).
Proof.
  intros Hi Hn He Hp. unfold accept_user_row.
  rewrite (bind_normal _ _ w w tt (react_child_primitive _ w Hi)).
  rewrite (bind_normal _ _ w w tt (react_child_primitive _ w Hn)).
  rewrite (bind_normal _ _ w w tt (react_child_primitive _ w He)).
  by apply react_child_primitive.
Qed.

Lemma render_users_section_succeeds s w :
  is_record_list (mem w) (users s) = true ->
  currentView s = "users" ->
  exists l, render s w
            = (w, Normal (mkView false true None
                                 (Some (newUsername s, newUserEmail s,
                                        newUserPassword s, l)))).
Proof.
  intros Hlist Hview. apply is_record_list_spec in Hlist as (es & Hes & Hrec).
  pose proof (Forall_record_object _ _ Hrec) as Hobj.
  assert (exists l,
             render_list (userLoading s) "Loading users..." "No users to display."
                         render_user (users s) w = (w, Normal l)
             /\ forall rows row, l = ViewRows rows -> row ∈ rows ->
                                 accept_user_row row w = (w, Normal tt))
    as (l & Hl & Hrows).
  { destruct (userLoading s) eqn:Hload; [by eexists|].
    destruct (decide (es = [])) as [->|Hne].
    - eexists. split.
      { unfold render_list.
        rewrite (bind_normal _ _ w w _ (get_length_array _ [] w Hes)). reflexivity. }
      done.
    - pose proof (render_users_rows s w es Hload Hes Hne Hobj) as H.
      rewrite Hload in H. eexists. split; [exact H|].
      intros rows row [= <-] [i Hrow]%list_elem_of_lookup.
      rewrite list_lookup_imap in Hrow.
      destruct (es !! i) as [user|] eqn:Hi; [|done]. injection Hrow as <-.
      assert (is_record (mem w) user = true) as Hu.
      { rewrite Forall_forall in Hrec. apply Hrec. by eapply list_elem_of_lookup_2. }
      apply accept_user_row_primitive; by apply is_record_prop. }
  exists l. apply render_accepted.
  - unfold elements. rewrite Hview. cbn [String.eqb Ascii.eqb Bool.eqb].
    rewrite (bind_normal _ _ w w None) by reflexivity.
    rewrite (bind_normal _ _ w w _ (bind_normal _ _ w w _ Hl)). reflexivity.
  - unfold reconcile. cbn [tasks_section users_section].
    rewrite (bind_normal _ _ w w tt) by reflexivity.
    by apply accept_rows_accepted.
Qed.

(** X16.  As long as the server keeps to what the client relies on (a
    success of a task request that is JSON carries an array of Tasks for
    the list and one Task for a creation or an update; an answer to the
    user list request that is JSON carries an array of Users whatever its
    status; a success of a user creation that is JSON carries one User; a
    Task or User being an object none of whose members is an array or an
    object), whatever the user does, whichever requests fail and in
    whichever order the answers arrive: in every state the application
    reaches, both lists are arrays of such objects, no state updater has
    thrown, and the render succeeds: [App] returns and React accepts every
    child. *)
Theorem view_never_throws (a : App) :
  reachable client_api a ->
  is_record_list (mem (world a)) (tasks (st (world a))) = true
  /\ is_record_list (mem (world a)) (users (st (world a))) = true
  /\ alive (world a) = true
  /\ exists v, render (st (world a)) (world a) = (world a, Normal v).
Proof.
  intros Hr. destruct (reachable_lists_ok a Hr) as [[Htasks _] Husers].
  split; [done|]. split; [done|]. split; [by apply reachable_alive|].
  destruct (reachable_view_flag client_api a Hr) as [Hv|Hv].
  - destruct (render_tasks_section_succeeds _ _ Htasks Hv) as [l Hl]. by eexists.
  - destruct (render_users_section_succeeds _ _ Husers Hv) as [l Hl]. by eexists.
Qed.

Lemma loaded_reachable : reachable client_api loaded.
Proof.
  eapply rtc_l.
  - eapply (step_settle client_api (exec mount initial) [] AwaitFetchTasks
                        [AwaitFetchUsers] _ (success (JArray [buy_milk false])));
      reflexivity.
  - apply rtc_once.
    eapply (step_settle client_api
                        (exec (resume AwaitFetchTasks
                                      (success (JArray [buy_milk false])))
                              (exec mount initial))
                        [] AwaitFetchUsers [] _ (success (JArray [alice])));
      reflexivity.
Defined.

Lemma view_never_throws_witness :
  is_record_list (mem (world loaded)) (tasks (st (world loaded))) = true
  /\ is_record_list (mem (world loaded)) (users (st (world loaded))) = true
  /\ alive (world loaded) = true
  /\ exists v, render (st (world loaded)) (world loaded) = (world loaded, Normal v).
Proof.
  apply (view_never_throws loaded). apply loaded_reachable.
Defined.

(** ** Success answers without a usable body *)

(** X17.  A toggle answered with a success status but with a body that is
    not JSON, or with the JSON [null] while the handler holds a non-empty
    list of objects: the exception is caught, the list cell and the heap
    are as before, and the effects are the PUT and one [console.error]
    'Error toggling task status:'. *)
Theorem toggle_success_without_task_changes_nothing
    (w : World) (env : State) (taskId currentStatus : value) (r : response)
    (es : list value) :
  ok r = true ->
  body r = None
  \/ (body r = Some JNull
      /\ entries (mem w) (tasks env) = Some es
      /\ es <> []
      /\ Forall (fun task => is_object (mem w) task = true) es) ->
  let w' := exec (round_trip (handleToggleComplete taskId currentStatus)
                             (handleToggleComplete_resume env) (Resolved r)) w in
  mem w' = mem w
  /\ st w' = st w
  /\ exists e,
      log w' = log w ++ [Fetch PUT (url_task taskId)
                           (Some (JObject [("completed",
                                            JBool (negb (truthy currentStatus)))]));
                         ConsoleError "Error toggling task status:" (OfExn e)].
Proof.
  intros Hok Hbody w'. unfold w'. rewrite toggle_round_trip.
  match goal with |- context [exec _ ?w0] => set (wq := w0) end.
  assert (exists e,
             handleToggleComplete_resume env (Resolved r) wq
             = (mkWorld (mem wq) (st wq)
                        (log wq ++ [ConsoleError "Error toggling task status:"
                                                 (OfExn e)]),
                Normal tt)) as [e He].
  { unfold handleToggleComplete_resume, try_catch.
    rewrite (bind_normal _ _ wq wq r) by reflexivity.
    destruct Hbody as [Hnone|(Hnull & Hes & Hne & Hobj)].
    - exists SyntaxError. unfold bind, response_json. by rewrite Hnone.
    - exists TypeError.
      rewrite (bind_normal _ _ _ _ _ (response_json_read r JNull wq Hnull)).
      rewrite Hok. cbn [parse fst snd].
      destruct es as [|task es]; [done|].
      apply Forall_cons in Hobj as [Htask _].
      unfold array_map.
      match goal with |- context [bind (bind ?m ?k) ?k' ?w0] =>
        assert (bind m k w0 = (w0, Thrown TypeError)) as Hthrow
      end.
      { erewrite bind_normal by (apply array_elems_read; exact Hes).
        apply bind_thrown. cbn [for_each]. apply bind_thrown.
        unfold replace_by_id.
        rewrite (bind_normal _ _ _ _ _
                   (get_prop_read task "id" _ (is_object_not_nullish _ _ Htask))).
        by apply bind_thrown. }
      unfold bind at 1. by rewrite Hthrow. }
  unfold exec. rewrite He. cbn [fst mem st log wq].
  repeat split. exists e. by rewrite <- app_assoc.
Qed.

Lemma toggle_success_without_task_changes_nothing_witness :
  let r := mkResponse true 204 "No Content" None in
  let w' := exec (round_trip (handleToggleComplete (VNumber 1) (VBool false))
                             (handleToggleComplete_resume (st buy_milk_world))
                             (Resolved r)) buy_milk_world in
  mem w' = mem buy_milk_world
  /\ st w' = st buy_milk_world
  /\ exists e,
      log w' = log buy_milk_world
                 ++ [Fetch PUT (url_task (VNumber 1))
                       (Some (JObject [("completed",
                                        JBool (negb (truthy (VBool false))))]));
                     ConsoleError "Error toggling task status:" (OfExn e)].
Proof.
  apply (toggle_success_without_task_changes_nothing
           buy_milk_world (st buy_milk_world) (VNumber 1) (VBool false)
           (mkResponse true 204 "No Content" None) []).
  - reflexivity.
  - left. reflexivity.
Defined.

(** X18.  User List() answered, whatever the status, with a JSON body whose
    numbers are integers a double holds exactly and whose objects repeat no
    member name and have no member name made of digits only: the user list
    now reads back as exactly the body, the loading flag is off, no
    existing heap cell has changed, and the only effect is the GET. *)
Theorem fetchUsers_json_replaces_the_list (w : World) (r : response) (j : json) :
  body r = Some j ->
  exact j = true ->
  let w' := exec (round_trip fetchUsers fetchUsers_resume (Resolved r)) w in
  reify (depth j) (mem w') (users (st w')) = Some j
  /\ userLoading (st w') = false
  /\ (forall l c, mem w !! l = Some c -> mem w' !! l = Some c)
  /\ log w' = log w ++ [Fetch GET url_users None].
Proof.
  intros Hbody Hplain%exact_plain w'.
  assert (w' = mkWorld (parse j (mem w)).2
                       (with_userLoading false
                          (with_users (parse j (mem w)).1
                                      (with_userLoading true (st w))))
                       (log w ++ [Fetch GET url_users None])) as ->.
  { unfold w', exec, round_trip, bind at 1. cbn [fetchUsers].
    unfold fetchUsers, bind at 1, setUserLoading, set_state.
    unfold bind at 1, fetch, emit, ret at 1.
    by rewrite (fetchUsers_resume_any_status r j _ Hbody). }
  cbn [mem st log users userLoading with_userLoading with_users].
  split; [|split; [done|split; [|done]]].
  - apply (parse_reads j Hplain (mem w)); [done|apply extends_refl].
  - intros l c. apply extends_lookup, parse_extends.
Qed.

Lemma fetchUsers_json_replaces_the_list_witness :
  let j := JArray [alice] in
  let w' := exec (round_trip fetchUsers fetchUsers_resume (success j)) initial in
  reify (depth j) (mem w') (users (st w')) = Some j
  /\ userLoading (st w') = false
  /\ (forall l c, mem initial !! l = Some c -> mem w' !! l = Some c)
  /\ log w' = log initial ++ [Fetch GET url_users None].
Proof.
  apply (fetchUsers_json_replaces_the_list
           initial (mkResponse true 200 "OK" (Some (JArray [alice])))
           (JArray [alice])).
  - reflexivity.
  - reflexivity.
Defined.
